(** * Mining orchestrator and dev-fee rotator: a shallow embedding

    The development follows two source files of the miner:
    - [lib/devfee/manager.ts] (class [DevFeeManager]), embedded in
      [Module DevFee];
    - the mining orchestrator (class [MiningOrchestrator]), embedded in
      [Module Mining].

    JavaScript numbers that hold counters and indices are integers well
    inside the exactly representable range, and are modelled as [Z]; the
    nonce arithmetic of the worker, which can leave that range, is rounded
    as doubles are ([Js.roundDouble]).
    [Map] and [Set] objects are stdpp's [gmap] and [gset].  Results of
    HTTP calls, of the hash engine and of the clock are inputs of the
    functions that consume them. *)

From Stdlib Require Import ZArith String Ascii List Lia DecimalString.
From stdpp Require Import gmap strings list.

Open Scope Z_scope.

(** ** JavaScript string helpers *)

Module Js.

(** [s.startsWith(p)] *)
Definition startsWith (s p : string) : bool := String.prefix p s.

(** [s.includes(sub)] *)
Fixpoint includes (s sub : string) : bool :=
  String.prefix sub s ||
  match s with
  | EmptyString => false
  | String _ rest => includes rest sub
  end.

Definition lowerChar (c : ascii) : ascii :=
  let n := N_of_ascii c in
  if ((65 <=? n) && (n <=? 90))%N then ascii_of_N (n + 32) else c.

(** [s.toLowerCase()] on the ASCII range. *)
Fixpoint toLowerCase (s : string) : string :=
  match s with
  | EmptyString => EmptyString
  | String c rest => String (lowerChar c) (toLowerCase rest)
  end.

(** Decimal rendering of a length, as a template literal prints it. *)
Definition showNat (n : nat) : string := NilZero.string_of_uint (Nat.to_uint n).

(** [a || b] on strings that may be missing: the empty string is falsy. *)
Definition orStr (a : option string) (b : option string) : option string :=
  match a with
  | Some EmptyString | None => b
  | Some s => Some s
  end.

(** A field that may be [undefined], [null] or hold a value. *)
Inductive Nullable (A : Type) : Type :=
  | undefined : Nullable A
  | null : Nullable A
  | value : A -> Nullable A.
Arguments undefined {A}.
Arguments null {A}.
Arguments value {A} _.

(** [x % y] of JavaScript: the remainder takes the sign of the dividend. *)
Definition jsRem (x y : Z) : Z := Z.rem x y.

(** [arr[i]]: [undefined] outside the array. *)
Definition index {A : Type} (arr : list A) (i : Z) : option A :=
  if i <? 0 then None else arr !! Z.to_nat i.

(** A number is an IEEE-754 double.  Every integer up to [2^53] in
    magnitude is one; beyond, only the integers with a 53-bit significand
    are, and the exact result of a sum or a product is rounded to the
    nearest of them, a tie going to the even significand.  (Doubles end at
    [2^1024]; the integers met here stay far below.) *)
Definition roundDouble (x : Z) : Z :=
  let a := Z.abs x in
  if a <=? 2 ^ 53 then x
  else
    let ulp := 2 ^ (Z.log2 a - 52) in
    let q := a / ulp in
    let r := a mod ulp in
    let q' := if 2 * r <? ulp then q
              else if ulp <? 2 * r then q + 1
              else if Z.even q then q else q + 1 in
    Z.sgn x * (q' * ulp).

(** [a + b] and [a * b] on integer-valued numbers. *)
Definition add (a b : Z) : Z := roundDouble (a + b).

Definition mul (a b : Z) : Z := roundDouble (a * b).

End Js.

(** ** The dev-fee rotator ([lib/devfee/manager.ts]) *)

Module DevFee.

Record DevFeeConfig := mkConfig {
  enabled : bool;
  apiUrl : string;
  ratio : Z;
  cacheFile : string;
  clientId : string
}.

Record DevFeeAddress := mkAddress {
  address : string;
  addressIndex : Z;
  fetchedAt : Z;
  usedCount : Z
}.

Record DevFeeCache := mkCache {
  currentAddress : option DevFeeAddress;
  totalDevFeeSolutions : Z;
  lastFetchError : option string;
  cachedClientId : option string;
  addressPool : option (list DevFeeAddress);
  poolFetchedAt : option Z;
  cachedEnabled : option bool;
  currentChallengeId : Js.Nullable string;
  solutionsThisChallenge : option Z
}.

(** One element of [DevFeeApiResponse.addresses]. *)
Record ApiAddress := mkApiAddress {
  devAddress : string;
  devAddressIndex : Z;
  registered : bool
}.

(** What [axios.post] on the dev-fee endpoint produced: a body whose
    [addresses] field may be missing, or an exception (a rejection of the
    request, or any error raised inside the [try] block) with the message
    the [catch] block extracts. *)
Inductive HttpOutcome :=
  | HttpData (addresses : option (list ApiAddress))
  | HttpError (errorMsg : string).

Record Manager := mkManager {
  config : DevFeeConfig;
  cache : DevFeeCache
}.

(** [Partial<DevFeeConfig>] as the constructor receives it. *)
Record PartialConfig := mkPartial {
  p_enabled : option bool;
  p_apiUrl : option string;
  p_ratio : option Z;
  p_cacheFile : option string
}.

Definition emptyPartial : PartialConfig := mkPartial None None None None.

(** The fallback of [loadCache] when no cache file can be read. *)
Definition freshCache : DevFeeCache :=
  mkCache None 0 None None (Some []) None None Js.undefined None.

Definition setClientAndEnabled (id : string) (en : bool) (c : DevFeeCache) : DevFeeCache :=
  mkCache (currentAddress c) (totalDevFeeSolutions c) (lastFetchError c)
          (Some id) (addressPool c) (poolFetchedAt c) (Some en)
          (currentChallengeId c) (solutionsThisChallenge c).

(** The constructor.  [loaded] is what [loadCache] returned, [cwdCacheFile]
    the default path and [generated] the value of [generateClientId()]. *)
Definition construct (p : PartialConfig) (loaded : DevFeeCache)
    (cwdCacheFile generated : string) : Manager :=
  let file := match p_cacheFile p with
              | Some f => if String.eqb f "" then cwdCacheFile else f
              | None => cwdCacheFile
              end in
  let url := match p_apiUrl p with
             | Some u => if String.eqb u "" then "https://miner.ada.markets/api/get-dev-address"%string else u
             | None => "https://miner.ada.markets/api/get-dev-address"%string
             end in
  let r := match p_ratio p with Some r => r | None => 17 end in
  let en := match p_enabled p with
            | Some b => b
            | None => match cachedEnabled loaded with Some b => b | None => true end
            end in
  let id := match cachedClientId loaded with
            | Some i => if String.eqb i "" then generated else i
            | None => generated
            end in
  let needsSave :=
    match cachedClientId loaded, cachedEnabled loaded with
    | Some i, Some _ => String.eqb i ""
    | _, _ => true
    end in
  mkManager (mkConfig en url r file id)
            (if needsSave then setClientAndEnabled id en loaded else loaded).

Definition isEnabled (m : Manager) : bool :=
  enabled (config m) && (0 <? Z.of_nat (String.length (apiUrl (config m)))).

Definition getRatio (m : Manager) : Z := ratio (config m).

Definition hasValidAddressPool (m : Manager) : bool :=
  match addressPool (cache m) with
  | Some pool => Nat.eqb (List.length pool) 10
  | None => false
  end.

Definition getTotalDevFeeSolutions (m : Manager) : Z :=
  totalDevFeeSolutions (cache m).

(** The three assignments every failure branch of [prefetchAddressPool]
    performs before [saveCache()]. *)
Definition clearPool (err : string) (c : DevFeeCache) : DevFeeCache :=
  mkCache (currentAddress c) (totalDevFeeSolutions c) (Some err)
          (cachedClientId c) (Some []) None (cachedEnabled c)
          (currentChallengeId c) (solutionsThisChallenge c).

Definition storePool (pool : list DevFeeAddress) (now : Z) (c : DevFeeCache) : DevFeeCache :=
  mkCache (currentAddress c) (totalDevFeeSolutions c) None
          (cachedClientId c) (Some pool) (Some now) (cachedEnabled c)
          (currentChallengeId c) (solutionsThisChallenge c).

Definition withCache (m : Manager) (c : DevFeeCache) : Manager :=
  mkManager (config m) c.

Definition validPrefix (a : string) : bool :=
  Js.startsWith a "tnight1" || Js.startsWith a "addr1".

Definition toDevFeeAddress (now : Z) (a : ApiAddress) : DevFeeAddress :=
  mkAddress (devAddress a) (devAddressIndex a) now 0.

(** The validation loop: the index of the first address with a bad prefix. *)
Fixpoint firstInvalid (i : nat) (l : list DevFeeAddress) : option nat :=
  match l with
  | [] => None
  | a :: rest => if validPrefix (address a) then firstInvalid (S i) rest else Some i
  end.

(** [prefetchAddressPool()]: the boolean it resolves to and the manager
    afterwards.  [saveCache()] writes the in-memory cache to disk and has no
    effect on it. *)
Definition prefetchAddressPool (http : HttpOutcome) (now : Z) (m : Manager)
    : bool * Manager :=
  if negb (isEnabled m) then (false, m)
  else
    match http with
    | HttpError msg => (false, withCache m (clearPool msg (cache m)))
    | HttpData data =>
        let n := match data with Some l => List.length l | None => 0%nat end in
        match data with
        | Some l =>
            if Nat.eqb (List.length l) 10 then
              let addresses := map (toDevFeeAddress now) l in
              match firstInvalid 0 addresses with
              | Some i =>
                  (false, withCache m
                     (clearPool ("Invalid address format at index " ++ Js.showNat i) (cache m)))
              | None => (true, withCache m (storePool addresses now (cache m)))
              end
            else
              (false, withCache m
                 (clearPool ("API returned " ++ Js.showNat n ++ "/10 addresses") (cache m)))
        | None =>
            (false, withCache m
               (clearPool ("API returned " ++ Js.showNat n ++ "/10 addresses") (cache m)))
        end
    end.

(** Errors [getDevFeeAddress] throws. *)
Inductive PoolError :=
  | NoValidPool
  | NoAddressAt (poolIndex : Z).

Definition migrate (c : DevFeeCache) : DevFeeCache :=
  mkCache (currentAddress c) (totalDevFeeSolutions c) (lastFetchError c)
          (cachedClientId c) (addressPool c) (poolFetchedAt c) (cachedEnabled c)
          (match currentChallengeId c with Js.undefined => Js.null | x => x end)
          (match solutionsThisChallenge c with None => Some 0 | x => x end).

Definition resetChallenge (ch : string) (c : DevFeeCache) : DevFeeCache :=
  mkCache (currentAddress c) (totalDevFeeSolutions c) (lastFetchError c)
          (cachedClientId c) (addressPool c) (poolFetchedAt c) (cachedEnabled c)
          (Js.value ch) (Some 0).

Definition sameChallenge (stored : Js.Nullable string) (ch : string) : bool :=
  match stored with
  | Js.value s => String.eqb s ch
  | _ => false
  end.

(** [getDevFeeAddress(currentChallengeId)] *)
Definition getDevFeeAddress (ch : string) (m : Manager)
    : (string + PoolError) * Manager :=
  if negb (hasValidAddressPool m) then (inr NoValidPool, m)
  else
    let c1 := migrate (cache m) in
    let c2 := if sameChallenge (currentChallengeId c1) ch then c1
              else resetChallenge ch c1 in
    let count := match solutionsThisChallenge c2 with Some n => n | None => 0 end in
    let poolIndex := Js.jsRem count 10 in
    let pool := match addressPool c2 with Some p => p | None => [] end in
    match Js.index pool poolIndex with
    | Some a => (inl (address a), withCache m c2)
    | None => (inr (NoAddressAt poolIndex), withCache m c2)
    end.

(** [recordDevFeeSolution()] *)
Definition recordDevFeeSolution (m : Manager) : Manager :=
  let c := cache m in
  withCache m
    (mkCache
       (match currentAddress c with
        | Some a => Some (mkAddress (address a) (addressIndex a) (fetchedAt a) (usedCount a + 1))
        | None => None
        end)
       (totalDevFeeSolutions c + 1) (lastFetchError c) (cachedClientId c)
       (addressPool c) (poolFetchedAt c) (cachedEnabled c) (currentChallengeId c)
       (Some (match solutionsThisChallenge c with Some n => n | None => 0 end + 1))).

(** [syncWithReceipts(actualDevFeeCount)] *)
Definition syncWithReceipts (actual : Z) (m : Manager) : Manager :=
  let c := cache m in
  withCache m
    (mkCache (currentAddress c) actual (lastFetchError c) (cachedClientId c)
             (addressPool c) (poolFetchedAt c) (cachedEnabled c)
             (currentChallengeId c) (solutionsThisChallenge c)).

(** [enable()] and [disable()]: the flag is set in the configuration and in
    the cache, which is then saved. *)
Definition enable (m : Manager) : Manager :=
  let c := cache m in
  mkManager
    (mkConfig true (apiUrl (config m)) (ratio (config m)) (cacheFile (config m))
              (clientId (config m)))
    (mkCache (currentAddress c) (totalDevFeeSolutions c) (lastFetchError c)
             (cachedClientId c) (addressPool c) (poolFetchedAt c) (Some true)
             (currentChallengeId c) (solutionsThisChallenge c)).

Definition disable (m : Manager) : Manager :=
  let c := cache m in
  mkManager
    (mkConfig false (apiUrl (config m)) (ratio (config m)) (cacheFile (config m))
              (clientId (config m)))
    (mkCache (currentAddress c) (totalDevFeeSolutions c) (lastFetchError c)
             (cachedClientId c) (addressPool c) (poolFetchedAt c) (Some false)
             (currentChallengeId c) (solutionsThisChallenge c)).

(** [setEnabled(enabled)] *)
Definition setEnabled (b : bool) (m : Manager) : Manager :=
  if b then enable m else disable m.

(** [getAddressPool()]: [this.cache.addressPool || []] *)
Definition getAddressPool (m : Manager) : list DevFeeAddress :=
  default [] (addressPool (cache m)).

Definition withCurrentAddress (a : option DevFeeAddress) (err : option string)
    (c : DevFeeCache) : DevFeeCache :=
  mkCache a (totalDevFeeSolutions c) err (cachedClientId c) (addressPool c)
          (poolFetchedAt c) (cachedEnabled c) (currentChallengeId c)
          (solutionsThisChallenge c).

(** [fetchDevFeeAddress()], the legacy single-address fetch: the address it
    resolves to, or the message of the error it throws. *)
Definition fetchDevFeeAddress (http : HttpOutcome) (now : Z) (m : Manager)
    : (string + string) * Manager :=
  if negb (isEnabled m) then (inr "Dev fee is not enabled or configured"%string, m)
  else
    let failed (errorMsg : string) :=
      let c := withCurrentAddress (currentAddress (cache m)) (Some errorMsg) (cache m) in
      match currentAddress (cache m) with
      | Some cached => (inl (address cached), withCache m c)
      | None => (inr ("Failed to fetch dev fee address: " ++ errorMsg)%string, withCache m c)
      end in
    match http with
    | HttpError msg => failed msg
    | HttpData None | HttpData (Some []) => failed "API returned no addresses"%string
    | HttpData (Some (firstAddress :: _)) =>
        if validPrefix (devAddress firstAddress) then
          (inl (devAddress firstAddress),
           withCache m
             (withCurrentAddress
                (Some (mkAddress (devAddress firstAddress) (devAddressIndex firstAddress)
                         now 0))
                None (cache m)))
        else failed ("Invalid address format: " ++ devAddress firstAddress)%string
    end.

End DevFee.

(** ** The mining orchestrator (class [MiningOrchestrator]) *)

Module Mining.

(** *** Data *)

Record Challenge := mkChallenge {
  challenge_id : string;
  difficulty : string;
  latest_submission : string;
  no_pre_mine : string;
  no_pre_mine_hour : string;
  starts_at : string
}.

Inductive Code := before | active | after.

Record ChallengeResponse := mkResponse {
  code : Code;
  challenge : option Challenge;
  resp_starts_at : string
}.

Record DerivedAddress := mkDerived {
  index : Z;
  bech32 : string;
  publicKeyHex : string;
  registered : bool
}.

Inductive WorkerStatus := idle | mining | submitting | completed.

#[global] Instance WorkerStatus_eq_dec : EqDecision WorkerStatus.
Proof. solve_decision. Defined.

Record WorkerStats := mkStats {
  ws_workerId : Z;
  ws_addressIndex : Z;
  ws_address : string;
  ws_hashesComputed : Z;
  ws_hashRate : Z;
  ws_solutionsFound : Z;
  ws_startTime : Z;
  ws_lastUpdateTime : Z;
  ws_status : WorkerStatus;
  ws_currentChallenge : string
}.

Definition withStatus (st : WorkerStatus) (w : WorkerStats) : WorkerStats :=
  mkStats (ws_workerId w) (ws_addressIndex w) (ws_address w) (ws_hashesComputed w)
          (ws_hashRate w) (ws_solutionsFound w) (ws_startTime w)
          (ws_lastUpdateTime w) st (ws_currentChallenge w).

Record ReceiptEntry := mkReceipt {
  r_ts : string;
  r_address : string;
  r_addressIndex : Z;
  r_challenge_id : string;
  r_nonce : string;
  r_hash : string;
  r_crypto_receipt : option string;
  isDevFee : bool
}.

Record ErrorEntry := mkErrorEntry {
  e_ts : string;
  e_address : string;
  e_addressIndex : Z;
  e_challenge_id : string;
  e_nonce : string;
  e_hash : string;
  e_error : string
}.

(** The wallet manager, as far as the orchestrator drives it: the address
    indexes passed to [markAddressRegistered]. *)
Record WalletManager := mkWallet {
  markedRegistered : list Z
}.

Inductive GroupingMode := auto | all_on_one | grouped.

(** Calls on collaborators and events handed to [emit], in program order. *)
Inductive Effect :=
  | Emit (eventType : string)
  | KillWorkers
  | InitRom (noPreMine : string)
  | Sleep (ms : Z)
  | CallPollLoop
  | PostSolution (address challengeId nonce : string)
  | RegisterAddress (address : string)
  | LogError (what : string).

#[projections(primitive)]
Record Orchestrator := mkOrchestrator {
  isRunning : bool;
  currentChallengeId : option string;
  pollTimer : option Z;
  walletManager : option WalletManager;
  isDevFeeMining : bool;
  addresses : list DerivedAddress;
  solutionsFound : Z;
  startTime : option Z;
  isMining : bool;
  currentChallenge : option Challenge;
  totalHashesComputed : Z;
  lastHashRateUpdate : Z;
  addressesProcessedCurrentChallenge : gset Z;
  solutionTimestamps : list Z;
  workerThreads : Z;
  submittedSolutions : gset string;
  solvedAddressChallenges : gmap string (gset string);
  userSolutionsCount : Z;
  submittingAddresses : gset string;
  pausedAddresses : gset string;
  workerStats : gmap Z WorkerStats;
  hourlyRestartTimer : option Z;
  watchdogTimer : option Z;
  stoppedWorkers : gset Z;
  addressSubmissionFailures : gmap string Z;
  customBatchSize : option Z;
  workerGroupingMode : GroupingMode;
  workersPerAddress : Z;
  devFeeManager : DevFee.Manager; (* the [devFeeManager] singleton *)
  receipts : list ReceiptEntry; (* [receiptsLogger]: the receipts stream *)
  errors : list ErrorEntry; (* [receiptsLogger]: the errors stream *)
  effects : list Effect (* calls on collaborators and emitted events, oldest first *)
}.

(** Field updates: [set_f v s] is [s] after the assignment [this.f = v]. *)

Definition set_isRunning (v : bool) (s : Orchestrator) : Orchestrator :=
  let '(mkOrchestrator x1 x2 x3 x4 x5 x6 x7 x8 x9 x10 x11 x12 x13 x14 x15 x16
      x17 x18 x19 x20 x21 x22 x23 x24 x25 x26 x27 x28 x29 x30 x31 x32) := s in
  mkOrchestrator v x2 x3 x4 x5 x6 x7 x8 x9 x10 x11 x12 x13 x14 x15 x16 x17 x18
    x19 x20 x21 x22 x23 x24 x25 x26 x27 x28 x29 x30 x31 x32.

Definition set_currentChallengeId (v : option string) (s : Orchestrator) : Orchestrator :=
  let '(mkOrchestrator x1 x2 x3 x4 x5 x6 x7 x8 x9 x10 x11 x12 x13 x14 x15 x16
      x17 x18 x19 x20 x21 x22 x23 x24 x25 x26 x27 x28 x29 x30 x31 x32) := s in
  mkOrchestrator x1 v x3 x4 x5 x6 x7 x8 x9 x10 x11 x12 x13 x14 x15 x16 x17 x18
    x19 x20 x21 x22 x23 x24 x25 x26 x27 x28 x29 x30 x31 x32.

Definition set_pollTimer (v : option Z) (s : Orchestrator) : Orchestrator :=
  let '(mkOrchestrator x1 x2 x3 x4 x5 x6 x7 x8 x9 x10 x11 x12 x13 x14 x15 x16
      x17 x18 x19 x20 x21 x22 x23 x24 x25 x26 x27 x28 x29 x30 x31 x32) := s in
  mkOrchestrator x1 x2 v x4 x5 x6 x7 x8 x9 x10 x11 x12 x13 x14 x15 x16 x17 x18
    x19 x20 x21 x22 x23 x24 x25 x26 x27 x28 x29 x30 x31 x32.

Definition set_walletManager (v : option WalletManager) (s : Orchestrator) : Orchestrator :=
  let '(mkOrchestrator x1 x2 x3 x4 x5 x6 x7 x8 x9 x10 x11 x12 x13 x14 x15 x16
      x17 x18 x19 x20 x21 x22 x23 x24 x25 x26 x27 x28 x29 x30 x31 x32) := s in
  mkOrchestrator x1 x2 x3 v x5 x6 x7 x8 x9 x10 x11 x12 x13 x14 x15 x16 x17 x18
    x19 x20 x21 x22 x23 x24 x25 x26 x27 x28 x29 x30 x31 x32.

Definition set_isDevFeeMining (v : bool) (s : Orchestrator) : Orchestrator :=
  let '(mkOrchestrator x1 x2 x3 x4 x5 x6 x7 x8 x9 x10 x11 x12 x13 x14 x15 x16
      x17 x18 x19 x20 x21 x22 x23 x24 x25 x26 x27 x28 x29 x30 x31 x32) := s in
  mkOrchestrator x1 x2 x3 x4 v x6 x7 x8 x9 x10 x11 x12 x13 x14 x15 x16 x17 x18
    x19 x20 x21 x22 x23 x24 x25 x26 x27 x28 x29 x30 x31 x32.

Definition set_addresses (v : list DerivedAddress) (s : Orchestrator) : Orchestrator :=
  let '(mkOrchestrator x1 x2 x3 x4 x5 x6 x7 x8 x9 x10 x11 x12 x13 x14 x15 x16
      x17 x18 x19 x20 x21 x22 x23 x24 x25 x26 x27 x28 x29 x30 x31 x32) := s in
  mkOrchestrator x1 x2 x3 x4 x5 v x7 x8 x9 x10 x11 x12 x13 x14 x15 x16 x17 x18
    x19 x20 x21 x22 x23 x24 x25 x26 x27 x28 x29 x30 x31 x32.

Definition set_solutionsFound (v : Z) (s : Orchestrator) : Orchestrator :=
  let '(mkOrchestrator x1 x2 x3 x4 x5 x6 x7 x8 x9 x10 x11 x12 x13 x14 x15 x16
      x17 x18 x19 x20 x21 x22 x23 x24 x25 x26 x27 x28 x29 x30 x31 x32) := s in
  mkOrchestrator x1 x2 x3 x4 x5 x6 v x8 x9 x10 x11 x12 x13 x14 x15 x16 x17 x18
    x19 x20 x21 x22 x23 x24 x25 x26 x27 x28 x29 x30 x31 x32.

Definition set_startTime (v : option Z) (s : Orchestrator) : Orchestrator :=
  let '(mkOrchestrator x1 x2 x3 x4 x5 x6 x7 x8 x9 x10 x11 x12 x13 x14 x15 x16
      x17 x18 x19 x20 x21 x22 x23 x24 x25 x26 x27 x28 x29 x30 x31 x32) := s in
  mkOrchestrator x1 x2 x3 x4 x5 x6 x7 v x9 x10 x11 x12 x13 x14 x15 x16 x17 x18
    x19 x20 x21 x22 x23 x24 x25 x26 x27 x28 x29 x30 x31 x32.

Definition set_isMining (v : bool) (s : Orchestrator) : Orchestrator :=
  let '(mkOrchestrator x1 x2 x3 x4 x5 x6 x7 x8 x9 x10 x11 x12 x13 x14 x15 x16
      x17 x18 x19 x20 x21 x22 x23 x24 x25 x26 x27 x28 x29 x30 x31 x32) := s in
  mkOrchestrator x1 x2 x3 x4 x5 x6 x7 x8 v x10 x11 x12 x13 x14 x15 x16 x17 x18
    x19 x20 x21 x22 x23 x24 x25 x26 x27 x28 x29 x30 x31 x32.

Definition set_currentChallenge (v : option Challenge) (s : Orchestrator) : Orchestrator :=
  let '(mkOrchestrator x1 x2 x3 x4 x5 x6 x7 x8 x9 x10 x11 x12 x13 x14 x15 x16
      x17 x18 x19 x20 x21 x22 x23 x24 x25 x26 x27 x28 x29 x30 x31 x32) := s in
  mkOrchestrator x1 x2 x3 x4 x5 x6 x7 x8 x9 v x11 x12 x13 x14 x15 x16 x17 x18
    x19 x20 x21 x22 x23 x24 x25 x26 x27 x28 x29 x30 x31 x32.

Definition set_totalHashesComputed (v : Z) (s : Orchestrator) : Orchestrator :=
  let '(mkOrchestrator x1 x2 x3 x4 x5 x6 x7 x8 x9 x10 x11 x12 x13 x14 x15 x16
      x17 x18 x19 x20 x21 x22 x23 x24 x25 x26 x27 x28 x29 x30 x31 x32) := s in
  mkOrchestrator x1 x2 x3 x4 x5 x6 x7 x8 x9 x10 v x12 x13 x14 x15 x16 x17 x18
    x19 x20 x21 x22 x23 x24 x25 x26 x27 x28 x29 x30 x31 x32.

Definition set_lastHashRateUpdate (v : Z) (s : Orchestrator) : Orchestrator :=
  let '(mkOrchestrator x1 x2 x3 x4 x5 x6 x7 x8 x9 x10 x11 x12 x13 x14 x15 x16
      x17 x18 x19 x20 x21 x22 x23 x24 x25 x26 x27 x28 x29 x30 x31 x32) := s in
  mkOrchestrator x1 x2 x3 x4 x5 x6 x7 x8 x9 x10 x11 v x13 x14 x15 x16 x17 x18
    x19 x20 x21 x22 x23 x24 x25 x26 x27 x28 x29 x30 x31 x32.

Definition set_addressesProcessedCurrentChallenge (v : gset Z) (s : Orchestrator) : Orchestrator :=
  let '(mkOrchestrator x1 x2 x3 x4 x5 x6 x7 x8 x9 x10 x11 x12 x13 x14 x15 x16
      x17 x18 x19 x20 x21 x22 x23 x24 x25 x26 x27 x28 x29 x30 x31 x32) := s in
  mkOrchestrator x1 x2 x3 x4 x5 x6 x7 x8 x9 x10 x11 x12 v x14 x15 x16 x17 x18
    x19 x20 x21 x22 x23 x24 x25 x26 x27 x28 x29 x30 x31 x32.

Definition set_solutionTimestamps (v : list Z) (s : Orchestrator) : Orchestrator :=
  let '(mkOrchestrator x1 x2 x3 x4 x5 x6 x7 x8 x9 x10 x11 x12 x13 x14 x15 x16
      x17 x18 x19 x20 x21 x22 x23 x24 x25 x26 x27 x28 x29 x30 x31 x32) := s in
  mkOrchestrator x1 x2 x3 x4 x5 x6 x7 x8 x9 x10 x11 x12 x13 v x15 x16 x17 x18
    x19 x20 x21 x22 x23 x24 x25 x26 x27 x28 x29 x30 x31 x32.

Definition set_submittedSolutions (v : gset string) (s : Orchestrator) : Orchestrator :=
  let '(mkOrchestrator x1 x2 x3 x4 x5 x6 x7 x8 x9 x10 x11 x12 x13 x14 x15 x16
      x17 x18 x19 x20 x21 x22 x23 x24 x25 x26 x27 x28 x29 x30 x31 x32) := s in
  mkOrchestrator x1 x2 x3 x4 x5 x6 x7 x8 x9 x10 x11 x12 x13 x14 x15 v x17 x18
    x19 x20 x21 x22 x23 x24 x25 x26 x27 x28 x29 x30 x31 x32.

Definition set_solvedAddressChallenges (v : gmap string (gset string)) (s : Orchestrator) : Orchestrator :=
  let '(mkOrchestrator x1 x2 x3 x4 x5 x6 x7 x8 x9 x10 x11 x12 x13 x14 x15 x16
      x17 x18 x19 x20 x21 x22 x23 x24 x25 x26 x27 x28 x29 x30 x31 x32) := s in
  mkOrchestrator x1 x2 x3 x4 x5 x6 x7 x8 x9 x10 x11 x12 x13 x14 x15 x16 v x18
    x19 x20 x21 x22 x23 x24 x25 x26 x27 x28 x29 x30 x31 x32.

Definition set_userSolutionsCount (v : Z) (s : Orchestrator) : Orchestrator :=
  let '(mkOrchestrator x1 x2 x3 x4 x5 x6 x7 x8 x9 x10 x11 x12 x13 x14 x15 x16
      x17 x18 x19 x20 x21 x22 x23 x24 x25 x26 x27 x28 x29 x30 x31 x32) := s in
  mkOrchestrator x1 x2 x3 x4 x5 x6 x7 x8 x9 x10 x11 x12 x13 x14 x15 x16 x17 v
    x19 x20 x21 x22 x23 x24 x25 x26 x27 x28 x29 x30 x31 x32.

Definition set_submittingAddresses (v : gset string) (s : Orchestrator) : Orchestrator :=
  let '(mkOrchestrator x1 x2 x3 x4 x5 x6 x7 x8 x9 x10 x11 x12 x13 x14 x15 x16
      x17 x18 x19 x20 x21 x22 x23 x24 x25 x26 x27 x28 x29 x30 x31 x32) := s in
  mkOrchestrator x1 x2 x3 x4 x5 x6 x7 x8 x9 x10 x11 x12 x13 x14 x15 x16 x17
    x18 v x20 x21 x22 x23 x24 x25 x26 x27 x28 x29 x30 x31 x32.

Definition set_pausedAddresses (v : gset string) (s : Orchestrator) : Orchestrator :=
  let '(mkOrchestrator x1 x2 x3 x4 x5 x6 x7 x8 x9 x10 x11 x12 x13 x14 x15 x16
      x17 x18 x19 x20 x21 x22 x23 x24 x25 x26 x27 x28 x29 x30 x31 x32) := s in
  mkOrchestrator x1 x2 x3 x4 x5 x6 x7 x8 x9 x10 x11 x12 x13 x14 x15 x16 x17
    x18 x19 v x21 x22 x23 x24 x25 x26 x27 x28 x29 x30 x31 x32.

Definition set_workerStats (v : gmap Z WorkerStats) (s : Orchestrator) : Orchestrator :=
  let '(mkOrchestrator x1 x2 x3 x4 x5 x6 x7 x8 x9 x10 x11 x12 x13 x14 x15 x16
      x17 x18 x19 x20 x21 x22 x23 x24 x25 x26 x27 x28 x29 x30 x31 x32) := s in
  mkOrchestrator x1 x2 x3 x4 x5 x6 x7 x8 x9 x10 x11 x12 x13 x14 x15 x16 x17
    x18 x19 x20 v x22 x23 x24 x25 x26 x27 x28 x29 x30 x31 x32.

Definition set_hourlyRestartTimer (v : option Z) (s : Orchestrator) : Orchestrator :=
  let '(mkOrchestrator x1 x2 x3 x4 x5 x6 x7 x8 x9 x10 x11 x12 x13 x14 x15 x16
      x17 x18 x19 x20 x21 x22 x23 x24 x25 x26 x27 x28 x29 x30 x31 x32) := s in
  mkOrchestrator x1 x2 x3 x4 x5 x6 x7 x8 x9 x10 x11 x12 x13 x14 x15 x16 x17
    x18 x19 x20 x21 v x23 x24 x25 x26 x27 x28 x29 x30 x31 x32.

Definition set_watchdogTimer (v : option Z) (s : Orchestrator) : Orchestrator :=
  let '(mkOrchestrator x1 x2 x3 x4 x5 x6 x7 x8 x9 x10 x11 x12 x13 x14 x15 x16
      x17 x18 x19 x20 x21 x22 x23 x24 x25 x26 x27 x28 x29 x30 x31 x32) := s in
  mkOrchestrator x1 x2 x3 x4 x5 x6 x7 x8 x9 x10 x11 x12 x13 x14 x15 x16 x17
    x18 x19 x20 x21 x22 v x24 x25 x26 x27 x28 x29 x30 x31 x32.

Definition set_stoppedWorkers (v : gset Z) (s : Orchestrator) : Orchestrator :=
  let '(mkOrchestrator x1 x2 x3 x4 x5 x6 x7 x8 x9 x10 x11 x12 x13 x14 x15 x16
      x17 x18 x19 x20 x21 x22 x23 x24 x25 x26 x27 x28 x29 x30 x31 x32) := s in
  mkOrchestrator x1 x2 x3 x4 x5 x6 x7 x8 x9 x10 x11 x12 x13 x14 x15 x16 x17
    x18 x19 x20 x21 x22 x23 v x25 x26 x27 x28 x29 x30 x31 x32.

Definition set_addressSubmissionFailures (v : gmap string Z) (s : Orchestrator) : Orchestrator :=
  let '(mkOrchestrator x1 x2 x3 x4 x5 x6 x7 x8 x9 x10 x11 x12 x13 x14 x15 x16
      x17 x18 x19 x20 x21 x22 x23 x24 x25 x26 x27 x28 x29 x30 x31 x32) := s in
  mkOrchestrator x1 x2 x3 x4 x5 x6 x7 x8 x9 x10 x11 x12 x13 x14 x15 x16 x17
    x18 x19 x20 x21 x22 x23 x24 v x26 x27 x28 x29 x30 x31 x32.

Definition set_devFeeManager (v : DevFee.Manager) (s : Orchestrator) : Orchestrator :=
  let '(mkOrchestrator x1 x2 x3 x4 x5 x6 x7 x8 x9 x10 x11 x12 x13 x14 x15 x16
      x17 x18 x19 x20 x21 x22 x23 x24 x25 x26 x27 x28 x29 x30 x31 x32) := s in
  mkOrchestrator x1 x2 x3 x4 x5 x6 x7 x8 x9 x10 x11 x12 x13 x14 x15 x16 x17
    x18 x19 x20 x21 x22 x23 x24 x25 x26 x27 x28 v x30 x31 x32.

Definition set_receipts (v : list ReceiptEntry) (s : Orchestrator) : Orchestrator :=
  let '(mkOrchestrator x1 x2 x3 x4 x5 x6 x7 x8 x9 x10 x11 x12 x13 x14 x15 x16
      x17 x18 x19 x20 x21 x22 x23 x24 x25 x26 x27 x28 x29 x30 x31 x32) := s in
  mkOrchestrator x1 x2 x3 x4 x5 x6 x7 x8 x9 x10 x11 x12 x13 x14 x15 x16 x17
    x18 x19 x20 x21 x22 x23 x24 x25 x26 x27 x28 x29 v x31 x32.

Definition set_errors (v : list ErrorEntry) (s : Orchestrator) : Orchestrator :=
  let '(mkOrchestrator x1 x2 x3 x4 x5 x6 x7 x8 x9 x10 x11 x12 x13 x14 x15 x16
      x17 x18 x19 x20 x21 x22 x23 x24 x25 x26 x27 x28 x29 x30 x31 x32) := s in
  mkOrchestrator x1 x2 x3 x4 x5 x6 x7 x8 x9 x10 x11 x12 x13 x14 x15 x16 x17
    x18 x19 x20 x21 x22 x23 x24 x25 x26 x27 x28 x29 x30 v x32.

Definition set_effects (v : list Effect) (s : Orchestrator) : Orchestrator :=
  let '(mkOrchestrator x1 x2 x3 x4 x5 x6 x7 x8 x9 x10 x11 x12 x13 x14 x15 x16
      x17 x18 x19 x20 x21 x22 x23 x24 x25 x26 x27 x28 x29 x30 x31 x32) := s in
  mkOrchestrator x1 x2 x3 x4 x5 x6 x7 x8 x9 x10 x11 x12 x13 x14 x15 x16 x17
    x18 x19 x20 x21 x22 x23 x24 x25 x26 x27 x28 x29 x30 x31 v.
Definition set_workerThreads (v : Z) (s : Orchestrator) : Orchestrator :=
  let '(mkOrchestrator x1 x2 x3 x4 x5 x6 x7 x8 x9 x10 x11 x12 x13 x14 x15 x16
      x17 x18 x19 x20 x21 x22 x23 x24 x25 x26 x27 x28 x29 x30 x31 x32) := s in
  mkOrchestrator x1 x2 x3 x4 x5 x6 x7 x8 x9 x10 x11 x12 x13 x14 v x16 x17 x18
    x19 x20 x21 x22 x23 x24 x25 x26 x27 x28 x29 x30 x31 x32.

Definition set_customBatchSize (v : option Z) (s : Orchestrator) : Orchestrator :=
  let '(mkOrchestrator x1 x2 x3 x4 x5 x6 x7 x8 x9 x10 x11 x12 x13 x14 x15 x16
      x17 x18 x19 x20 x21 x22 x23 x24 x25 x26 x27 x28 x29 x30 x31 x32) := s in
  mkOrchestrator x1 x2 x3 x4 x5 x6 x7 x8 x9 x10 x11 x12 x13 x14 x15 x16 x17
    x18 x19 x20 x21 x22 x23 x24 x25 v x27 x28 x29 x30 x31 x32.

Definition set_workerGroupingMode (v : GroupingMode) (s : Orchestrator) : Orchestrator :=
  let '(mkOrchestrator x1 x2 x3 x4 x5 x6 x7 x8 x9 x10 x11 x12 x13 x14 x15 x16
      x17 x18 x19 x20 x21 x22 x23 x24 x25 x26 x27 x28 x29 x30 x31 x32) := s in
  mkOrchestrator x1 x2 x3 x4 x5 x6 x7 x8 x9 x10 x11 x12 x13 x14 x15 x16 x17
    x18 x19 x20 x21 x22 x23 x24 x25 x26 v x28 x29 x30 x31 x32.

Definition set_workersPerAddress (v : Z) (s : Orchestrator) : Orchestrator :=
  let '(mkOrchestrator x1 x2 x3 x4 x5 x6 x7 x8 x9 x10 x11 x12 x13 x14 x15 x16
      x17 x18 x19 x20 x21 x22 x23 x24 x25 x26 x27 x28 x29 x30 x31 x32) := s in
  mkOrchestrator x1 x2 x3 x4 x5 x6 x7 x8 x9 x10 x11 x12 x13 x14 x15 x16 x17
    x18 x19 x20 x21 x22 x23 x24 x25 x26 x27 v x29 x30 x31 x32.

(** *** Small helpers *)

Definition perform (e : Effect) (s : Orchestrator) : Orchestrator :=
  set_effects (effects s ++ [e]) s.

(** [this.emit(type, ...)] *)
Definition emit (eventType : string) (s : Orchestrator) : Orchestrator :=
  perform (Emit eventType) s.

(** How an [async] method ends. *)
Inductive Completion :=
  | Returned
  | Threw (message : string).

(** How a call ends when it may also never end: the batch loop of
    [startMining] can go round without reaching an [await], and then
    neither the call nor anything else in the process goes on. *)
Inductive Outcome :=
  | Ends (c : Completion)
  | Spins.

(** Truthiness of a [string | null]. *)
Definition truthy (o : option string) : bool :=
  match o with
  | Some s => negb (String.eqb s "")
  | None => false
  end.

(** [solvedAddressChallenges.get(addr)?.has(ch)] *)
Definition isSolved (s : Orchestrator) (addr ch : string) : bool :=
  match solvedAddressChallenges s !! addr with
  | Some solved => bool_decide (ch ∈ solved)
  | None => false
  end.

(** [if (!map.has(addr)) map.set(addr, new Set()); map.get(addr)!.add(ch)] *)
Definition addSolved (addr ch : string) (m : gmap string (gset string))
    : gmap string (gset string) :=
  <[addr := {[ch]} ∪ default ∅ (m !! addr)]> m.

(** [const set = map.get(addr); if (set) set.delete(ch)] *)
Definition removeSolved (addr ch : string) (m : gmap string (gset string))
    : gmap string (gset string) :=
  match m !! addr with
  | Some solved => <[addr := solved ∖ {[ch]}]> m
  | None => m
  end.

(** [getBatchSize()]: [this.customBatchSize || 300] *)
Definition getBatchSize (s : Orchestrator) : Z :=
  match customBatchSize s with
  | Some n => if n =? 0 then 300 else n
  | None => 300
  end.

(** Quotients the grouping code computes can leave the integers when the
    divisor is zero. *)
Inductive JsNum :=
  | Num (z : Z)
  | PosInf
  | NegInf
  | NaN.

(** [Math.floor(a / b)] *)
Definition floorDiv (a b : Z) : JsNum :=
  if b =? 0 then
    if 0 <? a then PosInf else if a <? 0 then NegInf else NaN
  else Num (a / b).

(** [Math.min(x, n)] *)
Definition minWith (x : JsNum) (n : Z) : JsNum :=
  match x with
  | Num z => Num (Z.min z n)
  | PosInf => Num n
  | NegInf => NegInf
  | NaN => NaN
  end.

(** [Math.max(1, x)] *)
Definition atLeastOne (x : JsNum) : JsNum :=
  match x with
  | Num z => Num (Z.max 1 z)
  | PosInf => PosInf
  | NegInf => Num 1
  | NaN => NaN
  end.

(** [n < x] *)
Definition ltNum (n : Z) (x : JsNum) : bool :=
  match x with
  | Num z => n <? z
  | PosInf => true
  | NegInf => false
  | NaN => false
  end.

(** The argument of [updateConfiguration]: every field is optional. *)
Record ConfigUpdate := mkUpdate {
  u_workerThreads : option Z;
  u_batchSize : option Z;
  u_workerGroupingMode : option GroupingMode;
  u_workersPerAddress : option Z
}.

(** [updateConfiguration(config)]; saving the configuration to disk has no
    effect on the orchestrator. *)
Definition updateConfiguration (u : ConfigUpdate) (s : Orchestrator) : Orchestrator :=
  let s1 := match u_workerThreads u with Some v => set_workerThreads v s | None => s end in
  let s2 := match u_batchSize u with
            | Some v => set_customBatchSize (Some v) s1
            | None => s1
            end in
  let s3 := match u_workerGroupingMode u with
            | Some v => set_workerGroupingMode v s2
            | None => s2
            end in
  match u_workersPerAddress u with
  | Some v => set_workersPerAddress (Z.max 1 v) s3
  | None => s3
  end.

(** *** Worker grouping *)

Definition getMinWorkersPerAddress (s : Orchestrator) (totalWorkers : Z)
    (difficulty : string) : Z :=
  match workerGroupingMode s with
  | grouped => workersPerAddress s
  | all_on_one => totalWorkers
  | auto =>
      if totalWorkers <=? 4 then totalWorkers
      else Z.max 3 (Z.min 5 (totalWorkers / 4))
  end.

Record WorkerGroup := mkGroup {
  g_address : option DerivedAddress;   (* [addresses[i]], [undefined] past the end *)
  workerIds : list Z
}.

(** [Array.from({ length: n }, () => counter++)] with [counter = start]. *)
Definition idsFrom (start : Z) (n : nat) : list Z :=
  map (fun k => start + Z.of_nat k) (seq 0 n).

(** The [for] loop of [calculateWorkerGroups]; [remaining] counts the
    iterations left, [i] is the loop index. *)
Fixpoint buildGroups (addresses : list DerivedAddress) (base extra : Z)
    (remaining : nat) (i workerIdCounter : Z) : list WorkerGroup :=
  match remaining with
  | O => []
  | S r =>
      let workersForThisGroup := base + (if i <? extra then 1 else 0) in
      let n := Z.to_nat workersForThisGroup in
      mkGroup (Js.index addresses i) (idsFrom workerIdCounter n)
        :: buildGroups addresses base extra r (i + 1) (workerIdCounter + Z.of_nat n)
  end.

Definition calculateWorkerGroups (s : Orchestrator) (addresses : list DerivedAddress)
    (availableWorkers : Z) (difficulty : string) : list WorkerGroup :=
  let minWorkersPerAddress := getMinWorkersPerAddress s availableWorkers difficulty in
  let maxGroups := floorDiv availableWorkers minWorkersPerAddress in
  let actualGroupCount := minWith maxGroups (Z.of_nat (List.length addresses)) in
  match actualGroupCount with
  | Num Z0 =>
      [mkGroup (Js.index addresses 0) (idsFrom 0 (Z.to_nat availableWorkers))]
  | Num g =>
      let baseWorkersPerGroup := availableWorkers / g in
      let extraWorkers := Js.jsRem availableWorkers g in
      buildGroups addresses baseWorkersPerGroup extraWorkers (Z.to_nat g) 0 0
  | _ => []
  end.

(** Workers handed out before group [i], and the size of group [i], when
    [base] workers go to every group and one more to the first [extra]. *)
Definition groupOffset (base extra i : Z) : Z := i * base + Z.min i extra.

Definition groupSize (base extra i : Z) : Z := base + (if i <? extra then 1 else 0).

(** *** Dev-fee cadence *)

(** Modelled from the spec: [receiptsLogger.getRecentReceipts(n)] (the
    receipts logger itself is not among the sources) yields the last [n]
    persisted receipts, oldest first. *)
Definition getRecentReceipts (n : Z) (rs : list ReceiptEntry) : list ReceiptEntry :=
  drop (List.length rs - Z.to_nat n)%nat rs.

Definition shouldMineDevFeeNow (s : Orchestrator) : bool :=
  if negb (DevFee.isEnabled (devFeeManager s))
     || negb (DevFee.hasValidAddressPool (devFeeManager s)) then false
  else if isDevFeeMining s then false
  else
    let ratio := DevFee.getRatio (devFeeManager s) in
    let userSolutionsNeeded := ratio - 1 in
    let lastReceipts := getRecentReceipts ratio (receipts s) in
    let hasDevFeeInLastN := existsb isDevFee lastReceipts in
    negb hasDevFeeInLastN && (userSolutionsNeeded <=? Z.of_nat (List.length lastReceipts)).

(** [getDevFeeAddressForBatch()] *)
Definition getDevFeeAddressForBatch (s : Orchestrator)
    : option DerivedAddress * Orchestrator :=
  match currentChallengeId s, currentChallenge s with
  | Some cid, Some _ =>
      if String.eqb cid "" then (None, s)
      else
        let '(res, dm) := DevFee.getDevFeeAddress cid (devFeeManager s) in
        let s1 := set_devFeeManager dm s in
        match res with
        | inr _ => (None, s1)
        | inl devFeeAddress =>
            if String.eqb devFeeAddress ""
               || (negb (Js.startsWith devFeeAddress "addr1")
                   && negb (Js.startsWith devFeeAddress "tnight1"))
            then (None, s1)
            else if isSolved s1 devFeeAddress cid then (None, s1)
            else (Some (mkDerived (-1) devFeeAddress "" true), s1)
        end
  | _, _ => (None, s)
  end.

(** [getDevFeeAddressForBatch()] up to its first [await]: the call of
    [devFeeManager.getDevFeeAddress], which has no [await] of its own and
    runs to its end at once. *)
Definition beginDevFeeAddress (s : Orchestrator) : Orchestrator :=
  match currentChallengeId s, currentChallenge s with
  | Some cid, Some _ =>
      if String.eqb cid "" then s
      else set_devFeeManager (DevFee.getDevFeeAddress cid (devFeeManager s)).2 s
  | _, _ => s
  end.

(** *** Receipts recovery *)

Definition recordReceipt (s : Orchestrator) (r : ReceiptEntry) : Orchestrator :=
  let s1 := if String.eqb (r_hash r) "" then s
            else set_submittedSolutions ({[r_hash r]} ∪ submittedSolutions s) s in
  set_solvedAddressChallenges
    (addSolved (r_address r) (r_challenge_id r) (solvedAddressChallenges s1)) s1.

Definition loadSubmittedSolutions (s : Orchestrator) : Orchestrator :=
  let allReceipts := receipts s in
  let userReceipts := List.filter (fun r => negb (isDevFee r)) allReceipts in
  let devFeeReceipts := List.filter isDevFee allReceipts in
  let s1 := set_userSolutionsCount (Z.of_nat (List.length userReceipts)) s in
  let cacheDevFeeCount := DevFee.getTotalDevFeeSolutions (devFeeManager s1) in
  let s2 :=
    if cacheDevFeeCount =? Z.of_nat (List.length devFeeReceipts) then s1
    else set_devFeeManager
           (DevFee.syncWithReceipts (Z.of_nat (List.length devFeeReceipts))
              (devFeeManager s1)) s1 in
  fold_left recordReceipt devFeeReceipts (fold_left recordReceipt userReceipts s2).

(** [addresses.findIndex(a => a.bech32 === target)] *)
Fixpoint findIndex (target : string) (l : list DerivedAddress) (i : Z) : Z :=
  match l with
  | [] => -1
  | a :: rest => if String.eqb (bech32 a) target then i else findIndex target rest (i + 1)
  end.

Definition loadChallengeState (challengeId : string) (s : Orchestrator) : Orchestrator :=
  let challengeReceipts :=
    List.filter (fun r => String.eqb (r_challenge_id r) challengeId) (receipts s) in
  let userReceipts := List.filter (fun r => negb (isDevFee r)) challengeReceipts in
  let s1 := set_solutionsFound (Z.of_nat (List.length challengeReceipts)) s in
  let processed :=
    fold_left
      (fun (acc : gset Z) r =>
         let addressIndex := findIndex (r_address r) (addresses s1) 0 in
         if addressIndex =? -1 then acc else {[addressIndex]} ∪ acc)
      userReceipts ∅ in
  emit "stats" (set_addressesProcessedCurrentChallenge processed s1).

(** *** Registration *)

(** [addr.registered = true] on the address object that was passed.  The
    objects of the list are told apart by their [index], of which the
    wallet derives one address each; were two of them to share an index,
    this would flag both where the code flags one. *)
Definition markRegistered (idx : Z) (l : list DerivedAddress) : list DerivedAddress :=
  map (fun a => if index a =? idx
                then mkDerived (index a) (bech32 a) (publicKeyHex a) true
                else a) l.

(** [registerAddress(addr)]; [failure] is the error of the T&C fetch, the
    signing or the registration POST, if one of them fails. *)
Definition registerAddress (addr : DerivedAddress) (failure : option string)
    (s : Orchestrator) : Completion * Orchestrator :=
  match walletManager s with
  | None => (Threw "Wallet manager not initialized", s)
  | Some wm =>
      let s1 := perform (RegisterAddress (bech32 addr)) s in
      match failure with
      | Some msg => (Threw msg, s1)
      | None =>
          (Returned,
           set_addresses (markRegistered (index addr) (addresses s1))
             (set_walletManager
                (Some (mkWallet (markedRegistered wm ++ [index addr]))) s1))
      end
  end.

Definition registerOne (outcome : DerivedAddress -> option string)
    (s : Orchestrator) (addr : DerivedAddress) : Orchestrator :=
  let s1 := emit "registration_progress" s in
  match registerAddress addr (outcome addr) s1 with
  | (Returned, s2) => perform (Sleep 1500) (emit "registration_progress" s2)
  | (Threw _, s2) => emit "registration_progress" s2
  end.

Definition ensureAddressesRegistered (outcome : DerivedAddress -> option string)
    (s : Orchestrator) : Orchestrator :=
  let unregistered := List.filter (fun a => negb (registered a)) (addresses s) in
  fold_left (registerOne outcome) unregistered s.

(** *** Start and stop *)

Record StartEnv := mkStartEnv {
  loadWallet : string -> option (list DerivedAddress);  (* [None]: it throws *)
  registration : DerivedAddress -> option string;
  devFeeHttp : DevFee.HttpOutcome;
  startNow : Z;            (* [Date.now()] *)
  msUntilNextHour : Z
}.

Definition stopWatchdog (s : Orchestrator) : Orchestrator := set_watchdogTimer None s.

Definition startWatchdog (s : Orchestrator) : Orchestrator :=
  set_watchdogTimer (Some 30000) s.

(** The synchronous part of [scheduleHourlyRestart]: arm the timer. *)
Definition scheduleHourlyRestart (delay : Z) (s : Orchestrator) : Orchestrator :=
  set_hourlyRestartTimer (Some delay) s.

Definition stop (s : Orchestrator) : Orchestrator :=
  emit "status"
    (stopWatchdog
       (set_hourlyRestartTimer None
          (set_pollTimer None (set_isMining false (set_isRunning false s))))).

Definition start (password : string) (env : StartEnv) (s : Orchestrator)
    : Completion * Orchestrator :=
  if isRunning s then (Returned, s)
  else
    let s1 := set_walletManager (Some (mkWallet [])) s in
    match loadWallet env password with
    | None => (Threw "loadWallet failed", s1)
    | Some loaded =>
        let s2 := set_addresses loaded s1 in
        let s3 := loadSubmittedSolutions s2 in
        let s4 := ensureAddressesRegistered (registration env) s3 in
        let s5 :=
          if DevFee.hasValidAddressPool (devFeeManager s4) then s4
          else set_devFeeManager
                 (snd (DevFee.prefetchAddressPool (devFeeHttp env) (startNow env)
                         (devFeeManager s4))) s4 in
        let s6 := set_solutionsFound 0
                    (set_startTime (Some (startNow env)) (set_isRunning true s5)) in
        let s7 := perform CallPollLoop s6 in
        let s8 := scheduleHourlyRestart (msUntilNextHour env) s7 in
        let s9 := startWatchdog s8 in
        (Returned, emit "status" s9)
    end.

(** [reinitialize(password)] *)
Definition reinitialize (password : string) (env : StartEnv) (s : Orchestrator)
    : Completion * Orchestrator :=
  let s1 := if isRunning s then perform (Sleep 1000) (stop s) else s in
  let s2 := set_addressesProcessedCurrentChallenge ∅
              (set_isMining false
                 (set_currentChallenge None (set_currentChallengeId None s1))) in
  start password env s2.

(** *** Challenge polling *)

(** What a launch of workers reads from outside. *)
Record LaunchEnv := mkLaunchEnv {
  launchNow : Z;               (* [Date.now()] when the rate clock is reset *)
  romReadyAtEntry : bool;      (* [hashEngine.isRomReady()] as the workers enter *)
  entryNow : Z -> Z            (* [Date.now()] as worker [id] enters *)
}.

(** What a poll reads from outside.  [hashEngine.initRom] and
    [hashEngine.killWorkers] are taken to resolve. *)
Record PollEnv := mkPollEnv {
  romReadyAtCheck : bool;      (* [hashEngine.isRomReady()] before [initRom] *)
  romWaits : nat;              (* rounds of the loop that waits for the ROM *)
  romReadyAfterInit : bool;    (* ... when that loop is left *)
  launch : LaunchEnv;
  unhandledError : option string
    (* [None]: an ['error'] listener is registered; else the message of the
       error that [emit('error', ...)] throws for want of one *)
}.

(** The block of [pollAndMine] guarded by
    [this.currentChallengeId && this.currentChallenge]. *)
Definition transitionCleanup (s : Orchestrator) : Orchestrator :=
  let s1 := set_isMining false s in
  let s2 := perform KillWorkers s1 in
  let s3 := set_workerStats ∅ s2 in
  let s4 := set_addressesProcessedCurrentChallenge ∅ s3 in
  let s5 := set_pausedAddresses ∅ s4 in
  let s6 := set_submittingAddresses ∅ s5 in
  perform (Sleep 1000) s6.

(** [this.currentChallengeId = challengeId; this.currentChallenge = ...] *)
Definition adoptChallenge (c : Challenge) (s : Orchestrator) : Orchestrator :=
  set_currentChallenge (Some c) (set_currentChallengeId (Some (challenge_id c)) s).

(** [while (!hashEngine.isRomReady() && ...) await this.sleep(500)] *)
Definition waitForRom (rounds : nat) (s : Orchestrator) : Orchestrator :=
  Nat.iter rounds (perform (Sleep 500)) s.

(** The condition [noPreMineChanged || !hashEngine.isRomReady()] when a
    challenge [held] is replaced by [c]. *)
Definition romInitNeeded (env : PollEnv) (held c : Challenge) : bool :=
  negb (String.eqb (no_pre_mine held) (no_pre_mine c)) || negb (romReadyAtCheck env).

(** *** Watchdog *)

(** The two findings of the watchdog on one worker. *)
Definition workerIssue (s : Orchestrator) (currentId : string) (st : WorkerStats) : bool :=
  bool_decide (ws_status st = idle)
  || (bool_decide (ws_status st = mining) && (0 <=? ws_addressIndex st)
      && match Js.index (addresses s) (ws_addressIndex st) with
         | Some a => isSolved s (bech32 a) currentId
         | None => false
         end).

(** [runWatchdogCheck()]; the restart it schedules for one second later is
    [watchdogRestart]. *)
Definition runWatchdogCheck (s : Orchestrator) : Orchestrator :=
  match currentChallengeId s with
  | Some currentId =>
      if negb (isRunning s) || negb (isMining s) || String.eqb currentId "" then s
      else if existsb (fun p : Z * WorkerStats => workerIssue s currentId p.2)
                      (map_to_list (workerStats s))
      then set_isMining false s
      else s
  | None => s
  end.

(** *** The batch loop of [startMining] *)

(** One pass of the batch loop of [startMining], from the loop condition to
    [stoppedWorkers.clear()].  [availableWorkers] is the number of workers
    [startMining] read before the loop.  The challenge and its id are
    written together, so a pass that finds the id finds the challenge.
    When the dev fee is due the pass waits once, for
    [getDevFeeAddressForBatch()], with nothing but microtasks in between. *)
Inductive BatchStep :=
  | LoopExit
  | AllSolved
  | Rewind
  | Launch (groups : list WorkerGroup) (checked : Z).

(** The [for] loop filling [batchAddresses] from [addressesToMine]. *)
Fixpoint collectBatch (s : Orchestrator) (currentId : string) (batchSize : JsNum)
    (rest : list DerivedAddress) (batch : list DerivedAddress) (checked : Z)
    : list DerivedAddress * Z :=
  match rest with
  | [] => (batch, checked)
  | addr :: rest' =>
      if ltNum (Z.of_nat (List.length batch)) batchSize then
        let batch' := if isSolved s (bech32 addr) currentId then batch
                      else batch ++ [addr] in
        collectBatch s currentId batchSize rest' batch' (checked + 1)
      else (batch, checked)
  end.

Definition prepareBatch (availableWorkers : Z) (currentId : string)
    (addressesToMine : list DerivedAddress) (currentAddressPointer : Z)
    (s : Orchestrator) : BatchStep * Orchestrator :=
  if negb (isRunning s && isMining s
           && bool_decide (currentChallengeId s = Some currentId))
  then (LoopExit, s)
  else
    let unsolved :=
      List.filter (fun a => negb (isSolved s (bech32 a) currentId)) addressesToMine in
    match unsolved with
    | [] => (AllSolved, set_isMining false s)
    | _ =>
        let heldDifficulty :=
          match currentChallenge s with Some c => difficulty c | None => ""%string end in
        let minWorkersPerAddress :=
          getMinWorkersPerAddress s availableWorkers heldDifficulty in
        let maxGroups := floorDiv availableWorkers minWorkersPerAddress in
        let batchSize := atLeastOne maxGroups in
        let '(batch0, s1) :=
          if shouldMineDevFeeNow s then
            match getDevFeeAddressForBatch s with
            | (Some devFeeAddr, s') => ([devFeeAddr], set_isDevFeeMining true s')
            | (None, s') => ([], s')
            end
          else ([], s) in
        let '(batchAddresses, checked) :=
          collectBatch s1 currentId batchSize
            (drop (Z.to_nat currentAddressPointer) addressesToMine) batch0 0 in
        if ltNum (Z.of_nat (List.length batchAddresses)) batchSize
           && (Z.of_nat (List.length addressesToMine) <=? currentAddressPointer + checked)
        then (Rewind, s1)
        else
          match batchAddresses with
          | [] => (Rewind, s1)
          | _ =>
              let groups :=
                calculateWorkerGroups s1 batchAddresses availableWorkers heldDifficulty in
              (Launch groups checked, set_stoppedWorkers ∅ s1)
          end
    end.

(** *** Solution submission *)

Record HttpResponse := mkHttp {
  status : Z;
  statusText : string;
  dataMessage : option string;     (* [response.data?.message] *)
  dataError : option string;       (* [response.data?.error] *)
  crypto_receipt : option string
}.

(** An exception object as the [catch] block of [submitSolution] reads it. *)
Record JsError := mkError {
  message : string;
  errCode : option string;
  response : option HttpResponse
}.

(** What the network did with the POST. *)
Inductive RawOutcome :=
  | ServerReplied (r : HttpResponse)
  | RequestFailed (e : JsError).

Inductive AxiosResult :=
  | Resolved (r : HttpResponse)
  | Rejected (e : JsError).

Definition showZ (z : Z) : string := NilZero.string_of_int (Z.to_int z).

(** [axios.post(url, body, { validateStatus })]: a reply whose status
    [validateStatus] refuses is turned into a rejection carrying the reply. *)
Definition axiosPost (validateStatus : Z -> bool) (raw : RawOutcome) : AxiosResult :=
  match raw with
  | ServerReplied r =>
      if validateStatus (status r) then Resolved r
      else Rejected (mkError ("Request failed with status code " ++ showZ (status r))
                             (Some "ERR_BAD_RESPONSE"%string) (Some r))
  | RequestFailed e => Rejected e
  end.

(** [error.response?.data?.message || error.response?.data?.error
     || error.message || ''] *)
Definition errorMessageOf (e : JsError) : string :=
  default ""%string
    (Js.orStr (response e ≫= dataMessage)
       (Js.orStr (response e ≫= dataError)
          (Js.orStr (Some (message e)) (Some ""%string)))).

Definition responseStatusIs (e : JsError) (code : Z) : bool :=
  match response e with
  | Some r => status r =? code
  | None => false
  end.

Definition isSolutionAlreadyExists (e : JsError) : bool :=
  let m := Js.toLowerCase (errorMessageOf e) in
  Js.includes m "already exists"
  || Js.includes m "solution already"
  || (responseStatusIs e 400 && Js.includes m "duplicate").

Definition isNotRegisteredError (e : JsError) : bool :=
  let m := Js.toLowerCase (errorMessageOf e) in
  Js.includes m "not registered"
  || Js.includes m "unregistered"
  || responseStatusIs e 403.

Definition isTimeout (e : JsError) : bool :=
  bool_decide (errCode e = Some "ECONNABORTED"%string)
  || Js.includes (Js.toLowerCase (message e)) "timeout".

Record SubmitEnv := mkSubmitEnv {
  firstPost : RawOutcome;
  registrationFailure : option string;   (* of the auto-registration, if tried *)
  retryPost : RawOutcome;
  submitTs : string;                     (* [new Date().toISOString()] *)
  submitNow : Z
}.

Definition logError (addr : DerivedAddress) (challengeId nonce hash ts what : string)
    (s : Orchestrator) : Orchestrator :=
  set_errors
    (errors s ++ [mkErrorEntry ts (bech32 addr) (index addr) challengeId nonce hash what]) s.

(** The statements of [submitSolution] after a 2xx reply. *)
Definition acceptSolution (env : SubmitEnv) (addr : DerivedAddress)
    (challengeId nonce hash : string) (devFee : bool) (r : HttpResponse)
    (s : Orchestrator) : Orchestrator :=
  let s1 := set_solutionsFound (solutionsFound s + 1) s in
  let s2 := if devFee
            then set_devFeeManager (DevFee.recordDevFeeSolution (devFeeManager s1)) s1
            else set_userSolutionsCount (userSolutionsCount s1 + 1) s1 in
  let s3 := set_solutionTimestamps (solutionTimestamps s2 ++ [submitNow env]) s2 in
  let s4 := set_receipts
              (receipts s3 ++ [mkReceipt (submitTs env) (bech32 addr) (index addr)
                                 challengeId nonce hash (crypto_receipt r) devFee]) s3 in
  emit "solution" (emit "solution_result" s4).

(** The [catch] block of [submitSolution].  [retry] is the recursive call
    made after a successful auto-registration. *)
Definition handleSubmitError (isRetryAfterRegistration : bool)
    (retry : Orchestrator -> Completion * Orchestrator) (env : SubmitEnv)
    (addr : DerivedAddress) (challengeId nonce hash : string) (e : JsError)
    (s : Orchestrator) : Completion * Orchestrator :=
  let errorMessage := errorMessageOf e in
  if isSolutionAlreadyExists e then
    let s1 := set_solvedAddressChallenges
                (addSolved (bech32 addr) challengeId (solvedAddressChallenges s)) s in
    (Returned,
     logError addr challengeId nonce hash (submitTs env)
       "Duplicate submission - solution already exists (another worker succeeded)" s1)
  else if isNotRegisteredError e && negb isRetryAfterRegistration then
    let lost (msg : string) (s' : Orchestrator) :=
      (Threw msg,
       emit "solution_result"
         (logError addr challengeId nonce hash (submitTs env)
            ("Auto-registration failed: " ++ msg ++ ". Original error: " ++ errorMessage)
            s')) in
    match registerAddress addr (registrationFailure env) s with
    | (Returned, s1) =>
        match retry s1 with
        | (Returned, s2) => (Returned, s2)
        | (Threw msg, s2) => lost msg s2
        end
    | (Threw msg, s1) => lost msg s1
    end
  else if isTimeout e then
    (Threw (message e),
     logError addr challengeId nonce hash (submitTs env)
       "Submission timeout after 60s - uncertain state (may have been accepted by server)" s)
  else
    (Threw (message e),
     emit "solution_result"
       (logError addr challengeId nonce hash (submitTs env)
          (default (message e) (Js.orStr (response e ≫= dataMessage) None)) s)).

(** The body of [submitSolution] for one value of
    [isRetryAfterRegistration]; [raw] is what became of its POST.  Without a
    wallet manager it returns at once. *)
Definition submitAttempt (isRetryAfterRegistration : bool)
    (retry : Orchestrator -> Completion * Orchestrator) (raw : RawOutcome)
    (env : SubmitEnv) (addr : DerivedAddress) (challengeId nonce hash : string)
    (devFee : bool) (s : Orchestrator) : Completion * Orchestrator :=
  match walletManager s with
  | None => (Returned, s)
  | Some _ =>
      let s0 := perform (PostSolution (bech32 addr) challengeId nonce) s in
      match axiosPost (fun st => st <? 500) raw with
      | Resolved r =>
          if (200 <=? status r) && (status r <? 300)
          then (Returned, acceptSolution env addr challengeId nonce hash devFee r s0)
          else
            handleSubmitError isRetryAfterRegistration retry env addr challengeId nonce hash
              (mkError ("Server rejected solution: " ++ showZ (status r)
                          ++ " " ++ statusText r) None None) s0
      | Rejected e =>
          handleSubmitError isRetryAfterRegistration retry env addr challengeId nonce hash e s0
      end
  end.

(** [submitSolution(addr, challengeId, nonce, hash, preimage, isDevFee,
    workerId)]; the retry after registration runs with
    [isRetryAfterRegistration = true] and cannot recurse again. *)
Definition submitSolution (env : SubmitEnv) (addr : DerivedAddress)
    (challengeId nonce hash : string) (devFee : bool) (s : Orchestrator)
    : Completion * Orchestrator :=
  submitAttempt false
    (submitAttempt true (fun s' => (Returned, s')) (retryPost env) env addr
       challengeId nonce hash devFee)
    (firstPost env) env addr challengeId nonce hash devFee s.

(** *** The mining worker ([mineForAddress]) *)

Definition NONCE_RANGE_SIZE : Z := 1000000000.

Record Worker := mkWorker {
  w_addr : DerivedAddress;
  w_isDevFee : bool;
  w_workerId : Z;
  w_maxFailures : Z;
  w_challengeId : string;    (* [challengeId], captured at the start *)
  w_challenge : Challenge;   (* the deep copy of the challenge *)
  w_batchSize : Z            (* [BATCH_SIZE], read once at the start *)
}.

Definition w_difficulty (w : Worker) : string := difficulty (w_challenge w).

(** [`${addr.bech32}:${challengeId}`] *)
Definition submissionKey (w : Worker) : string :=
  bech32 (w_addr w) ++ ":" ++ w_challengeId w.

(** [workerId * NONCE_RANGE_SIZE] and [nonceStart + NONCE_RANGE_SIZE], as
    numbers. *)
Definition nonceStart (workerId : Z) : Z := Js.mul workerId NONCE_RANGE_SIZE.
Definition nonceEnd (workerId : Z) : Z := Js.add (nonceStart workerId) NONCE_RANGE_SIZE.

Definition hexChar (d : N) : ascii :=
  match String.get (N.to_nat d) "0123456789abcdef" with
  | Some c => c
  | None => "0"%char
  end.

Fixpoint toHexAux (fuel : nat) (n : N) (acc : string) : string :=
  match fuel with
  | O => acc
  | S f =>
      let acc' := String (hexChar (n mod 16)%N) acc in
      if (n / 16 =? 0)%N then acc' else toHexAux f (n / 16)%N acc'
  end.

(** [n.toString(16)] for a non-negative integer. *)
Definition toHex (n : Z) : string :=
  toHexAux (S (N.to_nat (N.log2 (Z.to_N n)))) (Z.to_N n) "".

Fixpoint zeros (n : nat) : string :=
  match n with
  | O => ""
  | S k => String "0" (zeros k)
  end.

(** [s.padStart(width, '0')] *)
Definition padStart (width : nat) (s : string) : string :=
  zeros (width - String.length s) ++ s.

Definition nonceHex (nonceNum : Z) : string := padStart 16 (toHex nonceNum).

Record BatchItem := mkItem {
  b_nonceNum : Z;        (* the number [nonce] was printed from *)
  b_nonce : string;
  b_preimage : string
}.

(** The first steps of [mineForAddress]: capture the challenge, register
    the worker in [workerStats], read the batch size.  [None] when it
    returns at once. *)
Definition enterWorker (addr : DerivedAddress) (devFee : bool) (workerId maxFailures : Z)
    (romReady : bool) (now : Z) (s : Orchestrator) : option Worker * Orchestrator :=
  match currentChallenge s, currentChallengeId s with
  | Some c, Some cid =>
      if String.eqb cid "" then (None, s)
      else if negb romReady then (None, s)
      else
        let s1 := set_addressesProcessedCurrentChallenge
                    ({[index addr]} ∪ addressesProcessedCurrentChallenge s) s in
        let s2 := set_workerStats
                    (<[workerId := mkStats workerId (index addr) (bech32 addr) 0 0 0
                                     now now mining cid]> (workerStats s1)) s1 in
        let s3 := emit "mining_start" s2 in
        (Some (mkWorker addr devFee workerId maxFailures cid c (getBatchSize s3)), s3)
  | _, _ => (None, s)
  end.

Section Worker.

(** The difficulty predicate and the preimage builder live in modules of
    their own; the worker is defined for any pair of them. *)
Variable matchesDifficulty : string -> string -> bool.
Variable buildPreimage : string -> string -> Challenge -> string.

Inductive Generated :=
  | GenStopped
  | GenBatch (items : list BatchItem).

(** The loop filling [batchData]; [remaining] counts down from
    [BATCH_SIZE].  The index [i] stays far below [2^53], the sum
    [currentNonce + i] need not. *)
Fixpoint generateBatch (w : Worker) (s : Orchestrator) (currentNonce : Z)
    (remaining : nat) (i : Z) (batchData : list BatchItem) : Generated :=
  match remaining with
  | O => GenBatch batchData
  | S r =>
      if negb (Js.add currentNonce i <? nonceEnd (w_workerId w)) then GenBatch batchData
      else if bool_decide (w_workerId w ∈ stoppedWorkers s) then GenStopped
      else if negb (isRunning s) || negb (isMining s)
              || negb (bool_decide (currentChallengeId s = Some (w_challengeId w)))
      then GenBatch batchData
      else if bool_decide (submissionKey w ∈ pausedAddresses s) then GenBatch batchData
      else
        let nonceNum := Js.add currentNonce i in
        let hex := nonceHex nonceNum in
        let preimage := buildPreimage hex (bech32 (w_addr w)) (w_challenge w) in
        generateBatch w s currentNonce r (i + 1)
          (batchData ++ [mkItem nonceNum hex preimage])
  end.

Inductive HeadResult :=
  | WhileExit            (* the [while] condition is false *)
  | MaxFailuresReached   (* [return] *)
  | AlreadySolved        (* [return] *)
  | StoppedBySibling     (* [return], status set to idle *)
  | Paused               (* [sleep(100); continue] *)
  | StoppedInBatch       (* [return] from the batch loop *)
  | EmptyBatch           (* [break] *)
  | Batch (items : list BatchItem) (nextNonce : Z).

(** One pass of the [while] loop from its condition to the call of
    [hashBatchAsync]. *)
Definition loopHead (w : Worker) (currentNonce : Z) (s : Orchestrator)
    : HeadResult * Orchestrator :=
  if negb (isRunning s && isMining s
           && bool_decide (currentChallengeId s = Some (w_challengeId w))
           && (currentNonce <? nonceEnd (w_workerId w)))
  then (WhileExit, s)
  else
    let failureCount := default 0 (addressSubmissionFailures s !! submissionKey w) in
    if w_maxFailures w <=? failureCount then (MaxFailuresReached, s)
    else if isSolved s (bech32 (w_addr w)) (w_challengeId w) then (AlreadySolved, s)
    else if bool_decide (w_workerId w ∈ stoppedWorkers s) then
      match workerStats s !! w_workerId w with
      | Some _ =>
          (StoppedBySibling,
           emit "worker_update"
             (set_workerStats (alter (withStatus idle) (w_workerId w) (workerStats s)) s))
      | None => (StoppedBySibling, s)
      end
    else if bool_decide (submissionKey w ∈ pausedAddresses s)
    then (Paused, perform (Sleep 100) s)
    else
      match generateBatch w s currentNonce (Z.to_nat (w_batchSize w)) 0 [] with
      | GenStopped => (StoppedInBatch, s)
      | GenBatch [] => (EmptyBatch, s)
      | GenBatch items =>
          (Batch items (Js.add currentNonce (Z.of_nat (List.length items))), s)
      end.

(** How a piece of the loop body ends: on to the next hash or pass, a
    [return] from [mineForAddress], or an exception for the enclosing
    [catch]. *)
Inductive Flow :=
  | Continue
  | Return
  | Raise (message : string).

Definition releaseLocks (key : string) (s : Orchestrator) : Orchestrator :=
  set_submittingAddresses (submittingAddresses s ∖ {[key]})
    (set_pausedAddresses (pausedAddresses s ∖ {[key]}) s).

(** The loop over [workerStats.entries()] that stops the siblings. *)
Definition stopSiblings (w : Worker) (s : Orchestrator) : Orchestrator :=
  set_stoppedWorkers
    (stoppedWorkers s
     ∪ dom (filter
              (fun p : Z * WorkerStats =>
                 p.1 ≠ w_workerId w
                 ∧ ws_addressIndex p.2 = index (w_addr w)
                 ∧ ws_status p.2 = mining)
              (workerStats s))) s.

Definition markSubmitting (st : WorkerStats) : WorkerStats :=
  mkStats (ws_workerId st) (ws_addressIndex st) (ws_address st) (ws_hashesComputed st)
          (ws_hashRate st) (ws_solutionsFound st + 1) (ws_startTime st)
          (ws_lastUpdateTime st) submitting (ws_currentChallenge st).

(** From [submittingAddresses.add(submissionKey)] to the [solution_submit]
    event. *)
Definition claimSubmission (w : Worker) (hash : string) (s : Orchestrator) : Orchestrator :=
  let s1 := set_submittingAddresses ({[submissionKey w]} ∪ submittingAddresses s) s in
  let s2 := stopSiblings w s1 in
  let s3 := set_pausedAddresses ({[submissionKey w]} ∪ pausedAddresses s2) s2 in
  let s4 := set_workerStats (alter markSubmitting (w_workerId w) (workerStats s3)) s3 in
  let s5 := set_submittedSolutions ({[hash]} ∪ submittedSolutions s4) s4 in
  emit "solution_submit" s5.

Definition dataChanged (captured current : Challenge) : bool :=
  negb (String.eqb (latest_submission captured) (latest_submission current))
  || negb (String.eqb (no_pre_mine_hour captured) (no_pre_mine_hour current))
  || negb (String.eqb (no_pre_mine captured) (no_pre_mine current)).

Inductive Validation :=
  | DiscardedRecomputed    (* the hash under the current challenge data fails *)
  | DiscardedDifficulty    (* the found hash fails the current difficulty *)
  | RehashFailed (message : string)   (* [hashBatchAsync] threw *)
  | Validated.

(** The two checks made between the claim and the call of [submitSolution].
    [serverHashHex] is the hash of the preimage rebuilt with the current
    challenge, used only when the challenge data changed. *)
Definition checkDifficulty (w : Worker) (hash : string)
    (validationChallenge : Challenge) (s : Orchestrator) : Validation * Orchestrator :=
  if negb (String.eqb (difficulty validationChallenge) (w_difficulty w))
     && negb (matchesDifficulty hash (difficulty validationChallenge))
  then
    let s1 := releaseLocks (submissionKey w) s in
    (DiscardedDifficulty,
     set_solvedAddressChallenges
       (removeSolved (bech32 (w_addr w)) (w_challengeId w)
          (solvedAddressChallenges s1)) s1)
  else (Validated, s).

Definition validateSolution (w : Worker) (hash : string) (serverHashHex : string + string)
    (s : Orchestrator) : Validation * Orchestrator :=
  match currentChallenge s with
  | None => (Validated, s)
  | Some validationChallenge =>
      if dataChanged (w_challenge w) validationChallenge then
        match serverHashHex with
        | inr msg => (RehashFailed msg, s)
        | inl h =>
            if negb (matchesDifficulty h (difficulty validationChallenge))
            then (DiscardedRecomputed, releaseLocks (submissionKey w) s)
            else checkDifficulty w hash validationChallenge s
        end
      else checkDifficulty w hash validationChallenge s
  end.

(** The [try]/[catch]/[finally] around [submitSolution] and what follows. *)
Definition settleSubmission (w : Worker) (hash : string) (res : Completion)
    (s : Orchestrator) : Flow * Orchestrator :=
  let key := submissionKey w in
  match res with
  | Returned =>
      let s1 := set_solvedAddressChallenges
                  (addSolved (bech32 (w_addr w)) (w_challengeId w)
                     (solvedAddressChallenges s)) s in
      let s2 := set_submittingAddresses (submittingAddresses s1 ∖ {[key]}) s1 in
      let s3 := set_pausedAddresses (pausedAddresses s2 ∖ {[key]}) s2 in
      let s4 := set_addressSubmissionFailures
                  (delete key (addressSubmissionFailures s3)) s3 in
      (Return,
       set_workerStats (alter (withStatus completed) (w_workerId w) (workerStats s4)) s4)
  | Threw _ =>
      let currentFailures := default 0 (addressSubmissionFailures s !! key) in
      let s1 := set_addressSubmissionFailures
                  (<[key := currentFailures + 1]> (addressSubmissionFailures s)) s in
      let s2 := set_submittingAddresses (submittingAddresses s1 ∖ {[key]}) s1 in
      let s3 := set_pausedAddresses (pausedAddresses s2 ∖ {[key]}) s2 in
      let s4 := set_submittedSolutions (submittedSolutions s3 ∖ {[hash]}) s3 in
      (Continue, set_stoppedWorkers ∅ s4)
  end.

Record HitEnv := mkHitEnv {
  serverHash : string + string;   (* the re-hash, if one is made: hash or error *)
  submitEnv : SubmitEnv
}.

(** The body of [if (matchesDifficulty(hash, difficulty))] in the scan. *)
Definition onSolutionFound (w : Worker) (item : BatchItem) (hash : string)
    (env : HitEnv) (s : Orchestrator) : Flow * Orchestrator :=
  if bool_decide (hash ∈ submittedSolutions s) then (Continue, s)
  else if bool_decide (submissionKey w ∈ submittingAddresses s) then (Return, s)
  else
    let s1 := claimSubmission w hash s in
    if negb (bool_decide (currentChallengeId s1 = Some (w_challengeId w)))
    then (Return, releaseLocks (submissionKey w) s1)
    else
      match validateSolution w hash (serverHash env) s1 with
      | (Validated, s2) =>
          let '(res, s3) :=
            submitSolution (submitEnv env) (w_addr w) (w_challengeId w)
              (b_nonce item) hash (w_isDevFee w) s2 in
          settleSubmission w hash res s3
      | (RehashFailed msg, s2) => (Raise msg, s2)
      | (_, s2) => (Continue, s2)
      end.

(** The scan of the hashes of one batch, in input order. *)
Fixpoint scanBatch (w : Worker) (found : list (BatchItem * string * HitEnv))
    (s : Orchestrator) : Flow * Orchestrator :=
  match found with
  | [] => (Continue, s)
  | (item, hash, env) :: rest =>
      if matchesDifficulty hash (w_difficulty w) then
        match onSolutionFound w item hash env s with
        | (Continue, s') => scanBatch w rest s'
        | stop => stop
        end
      else scanBatch w rest s
  end.

Inductive HashOutcome :=
  | Hashes (hashes : list (string * HitEnv))
  | HashFailed (message : string).

(** The progress report that closes a pass of the loop. *)
Definition reportProgress (w : Worker) (hashCount hashRate now : Z)
    (s : Orchestrator) : Orchestrator :=
  match workerStats s !! w_workerId w with
  | Some _ =>
      let update (st : WorkerStats) :=
        mkStats (ws_workerId st) (ws_addressIndex st) (ws_address st) hashCount
                hashRate (ws_solutionsFound st) (ws_startTime st) now
                (ws_status st) (ws_currentChallenge st) in
      emit "stats"
        (emit "hash_progress"
           (emit "worker_update"
              (set_workerStats (alter update (w_workerId w) (workerStats s)) s)))
  | None => emit "stats" (emit "hash_progress" s)
  end.

(** How the [catch] of the batch ends. *)
Inductive Recovery :=
  | SkipReport                   (* [continue]: on to the next pass *)
  | ThenReport                   (* on to the progress report *)
  | Escapes (message : string).  (* [emit('error', ...)] threw *)

(** The [catch] of the batch.  [unhandled] is [None] when an ['error']
    listener is registered; otherwise [emit('error', ...)] throws, out of
    the [catch] and out of [mineForAddress], and [unhandled] is the message
    of what it throws. *)
Definition onBatchError (unhandled : option string) (msg : string) (s : Orchestrator)
    : Recovery * Orchestrator :=
  if Js.includes msg "408" || Js.includes msg "timeout" || Js.includes msg "ETIMEDOUT"
  then match unhandled with
       | None => (SkipReport, perform (Sleep 2000) (emit "error" s))
       | Some m => (Escapes m, s)
       end
  else (ThenReport, perform (Sleep 1000) s).

(** The [TypeError]s of the scan, in the words of V8: [hashes[0].slice] when
    the first hashes of the worker come as an empty list, and the
    destructuring of [batchData[i]] for a hash beyond the batch. *)
Definition noFirstHash : string :=
  "Cannot read properties of undefined (reading 'slice')".

Definition noBatchItem : string :=
  "Cannot destructure property 'nonce' of 'batchData[i]' as it is undefined.".

(** The [try] block after [hashBatchAsync] resolves, its [catch] and the
    progress report.  [Raise] is an exception that leaves
    [mineForAddress]. *)
Definition afterHash (w : Worker) (items : list BatchItem) (out : HashOutcome)
    (unhandled : option string) (hashCount hashRate now : Z) (s : Orchestrator)
    : Flow * Orchestrator :=
  let recover (msg : string) (count : Z) (s' : Orchestrator) :=
    match onBatchError unhandled msg s' with
    | (SkipReport, s1) => (Continue, s1)
    | (ThenReport, s1) => (Continue, reportProgress w count hashRate now s1)
    | (Escapes m, s1) => (Raise m, s1)
    end in
  match out with
  | HashFailed msg => recover msg hashCount s
  | Hashes hashes =>
      if negb (bool_decide (currentChallengeId s = Some (w_challengeId w)))
      then (Return, s)
      else
        let s1 := set_totalHashesComputed
                    (totalHashesComputed s + Z.of_nat (List.length hashes)) s in
        let count := hashCount + Z.of_nat (List.length hashes) in
        match hashes with
        | [] => if count =? 0 then recover noFirstHash count s1
                else (Continue, reportProgress w count hashRate now s1)
        | _ =>
            match scanBatch w (map (fun p => (p.1, p.2.1, p.2.2)) (zip items hashes))
                    s1 with
            | (Continue, s2) =>
                if (List.length items <? List.length hashes)%nat
                then recover noBatchItem count s2
                else (Continue, reportProgress w count hashRate now s2)
            | (Return, s2) => (Return, s2)
            | (Raise msg, s2) => recover msg count s2
            end
        end
  end.

(** The worker leaves the loop without a solution. *)
Definition finishWorker (w : Worker) (s : Orchestrator) : Orchestrator :=
  set_workerStats (alter (withStatus idle) (w_workerId w) (workerStats s)) s.

(** One round of the worker: what the rest of the program did to the shared
    state while the worker was suspended ([meanwhile] before the round,
    [duringHash] while [hashBatchAsync] was pending) and what the hash
    engine answered. *)
Record Round := mkRound {
  meanwhile : Orchestrator -> Orchestrator;
  duringHash : Orchestrator -> Orchestrator;
  hashed : HashOutcome;
  noListener : option string;   (* see [onBatchError] *)
  measuredRate : Z;        (* the hash rate computed from the clock *)
  roundNow : Z
}.

Record MineResult := mkResult {
  enumerated : list Z;     (* the nonces put into batches, in order *)
  exited : bool;           (* the worker has left [mineForAddress] *)
  final : Orchestrator
}.

Definition hashesOf (out : HashOutcome) : Z :=
  match out with
  | Hashes hashes => Z.of_nat (List.length hashes)
  | HashFailed _ => 0
  end.

(** The [while] loop of [mineForAddress], one [Round] per pass. *)
Fixpoint mineRounds (w : Worker) (rounds : list Round) (currentNonce hashCount : Z)
    (s : Orchestrator) : MineResult :=
  match rounds with
  | [] => mkResult [] false s
  | r :: rest =>
      match loopHead w currentNonce (meanwhile r s) with
      | (WhileExit, s1) | (EmptyBatch, s1) => mkResult [] true (finishWorker w s1)
      | (Paused, s1) => mineRounds w rest currentNonce hashCount s1
      | (Batch items nextNonce, s1) =>
          let nonces := map b_nonceNum items in
          match afterHash w items (hashed r) (noListener r) hashCount (measuredRate r)
                  (roundNow r) (duringHash r s1) with
          | (Continue, s2) =>
              let res := mineRounds w rest nextNonce (hashCount + hashesOf (hashed r)) s2 in
              mkResult (nonces ++ enumerated res) (exited res) (final res)
          | (_, s2) => mkResult nonces true s2
          end
      | (_, s1) => mkResult [] true s1
      end
  end.

Definition mineForAddress (w : Worker) (rounds : list Round) (s : Orchestrator)
    : MineResult :=
  mineRounds w rounds (nonceStart (w_workerId w)) 0 s.

(** *** Launching the workers of a batch *)

Definition MAX_SUBMISSION_FAILURES : Z := 1.

(** [mineForAddress(...)] from its call to its first [await], or to its end
    if it reaches none: as far as a worker gets while its caller is still
    collecting the promises of the group. *)
Definition startWorker (env : LaunchEnv) (addr : DerivedAddress) (devFee : bool)
    (maxFailures : Z) (s : Orchestrator) (workerId : Z) : Orchestrator :=
  match enterWorker addr devFee workerId maxFailures (romReadyAtEntry env)
          (entryNow env workerId) s with
  | (None, s1) => s1
  | (Some w, s1) =>
      match loopHead w (nonceStart workerId) s1 with
      | (WhileExit, s2) | (EmptyBatch, s2) => finishWorker w s2
      | (_, s2) => s2
      end
  end.

(** The callback of [groups.map(async (group) => ...)] up to
    [await Promise.all(workerPromises)]. *)
Definition launchGroup (env : LaunchEnv) (currentId : string) (s : Orchestrator)
    (group : WorkerGroup) : Orchestrator :=
  if negb (isRunning s && isMining s
           && bool_decide (currentChallengeId s = Some currentId))
  then s
  else
    match g_address group with
    | Some addr =>
        fold_left (startWorker env addr (index addr =? -1) MAX_SUBMISSION_FAILURES)
                  (workerIds group) s
    | None => s             (* [group.address.index] throws *)
    end.

Definition launchGroups (env : LaunchEnv) (currentId : string)
    (groups : list WorkerGroup) (s : Orchestrator) : Orchestrator :=
  fold_left (launchGroup env currentId) groups s.

(** How far the batch loop gets before it gives control back. *)
Inductive Started :=
  | Finished          (* [startMining] ran to its end *)
  | AwaitsDevFee      (* suspended at [await this.getDevFeeAddressForBatch()] *)
  | AwaitsWorkers (groups : list WorkerGroup) (checked : Z)
                      (* suspended at [await Promise.all(groupPromises)] *)
  | NeverYields.      (* the loop goes round without reaching an [await] *)

(** The batch loop from its condition to its first [await].  A pass that
    ends in [continue] is followed at once by a pass from the start of the
    address list; when that one ends in [continue] too, nothing has changed
    and every further pass is the same (lemma [prepareBatch_rewind]). *)
Definition batchLoop (env : LaunchEnv) (availableWorkers : Z) (currentId : string)
    (addressesToMine : list DerivedAddress) (currentAddressPointer : Z)
    (s : Orchestrator) : Started * Orchestrator :=
  let launched (r : BatchStep * Orchestrator) : Started * Orchestrator :=
    match r with
    | (Launch groups checked, s1) =>
        (AwaitsWorkers groups checked, launchGroups env currentId groups s1)
    | (Rewind, s1) => (NeverYields, s1)
    | (_, s1) => (Finished, s1)
    end in
  match prepareBatch availableWorkers currentId addressesToMine currentAddressPointer s with
  | (LoopExit, s1) | (AllSolved, s1) => (Finished, s1)
  | r =>
      if shouldMineDevFeeNow s then (AwaitsDevFee, beginDevFeeAddress s)
      else
        match r with
        | (Rewind, s1) => launched (prepareBatch availableWorkers currentId addressesToMine 0 s1)
        | _ => launched r
        end
  end.

(** [startMining()] from its call to its first [await].  The call is never
    awaited: that is the state in which its caller goes on. *)
Definition startMining (env : LaunchEnv) (s : Orchestrator) : Started * Orchestrator :=
  match currentChallenge s, currentChallengeId s with
  | Some _, Some currentId =>
      if isMining s || String.eqb currentId "" then (Finished, s)
      else
        let s1 := emit "status" (set_isMining true s) in
        let s2 := set_lastHashRateUpdate (launchNow env) (set_totalHashesComputed 0 s1) in
        let registeredAddresses := List.filter registered (addresses s2) in
        let addressesToMine :=
          List.filter (fun a => negb (isSolved s2 (bech32 a) currentId))
                      registeredAddresses in
        match addressesToMine with
        | [] => (Finished, set_isMining false s2)
        | _ =>
            let availableWorkers := workerThreads s2 in
            batchLoop env availableWorkers currentId addressesToMine 0 s2
        end
  | _, _ => (Finished, s)
  end.

(** What the caller of [this.startMining()] sees of it. *)
Definition handsBack (r : Started * Orchestrator) : Outcome * Orchestrator :=
  match r with
  | (NeverYields, s) => (Spins, s)
  | (_, s) => (Ends Returned, s)
  end.

(** What follows the ROM check when a new challenge is taken up. *)
Definition resumeWith (env : LaunchEnv) (c : Challenge) (s : Orchestrator)
    : Outcome * Orchestrator :=
  handsBack
    (startMining env
       (emit "status" (loadChallengeState (challenge_id c) (adoptChallenge c s)))).

(** [pollAndMine()], given the response of [fetchChallenge()], with the
    state taken to be left alone while it waits for the workers to stop and
    for the ROM.  The call [this.startMining()] that ends a transition is
    not awaited: [pollAndMine] returns when that call first suspends or
    ends. *)
Definition pollAndMine (env : PollEnv) (resp : ChallengeResponse) (s : Orchestrator)
    : Outcome * Orchestrator :=
  match code resp with
  | before => (Ends Returned, s)
  | after => (Ends Returned, stop s)
  | active =>
      match challenge resp with
      | None => (Ends Returned, s)
      | Some c =>
          if negb (bool_decide (currentChallengeId s = Some (challenge_id c))) then
            let noPreMineChanged :=
              match currentChallenge s with
              | Some held => negb (String.eqb (no_pre_mine held) (no_pre_mine c))
              | None => false
              end in
            let s1 :=
              if truthy (currentChallengeId s)
                 && bool_decide (is_Some (currentChallenge s))
              then transitionCleanup s else s in
            if noPreMineChanged || negb (romReadyAtCheck env) then
              let s2 := waitForRom (romWaits env) (perform (InitRom (no_pre_mine c)) s1) in
              if romReadyAfterInit env
              then resumeWith (launch env) c s2
              else (Ends (Threw "ROM initialization timeout"), s2)
            else resumeWith (launch env) c s1
          else (Ends Returned, set_currentChallenge (Some c) s)
      end
  end.

Definition pollInterval : Z := 2000.

(** One run of [pollLoop()]; [fetched] is what [fetchChallenge()] resolved
    to, or the message of the error it threw.  The next run is scheduled
    unless [pollAndMine] never comes back or [emit('error', ...)] throws in
    the [catch]. *)
Definition pollLoop (env : PollEnv) (fetched : ChallengeResponse + string)
    (s : Orchestrator) : Outcome * Orchestrator :=
  if negb (isRunning s) then (Ends Returned, s)
  else
    let '(res, s1) := match fetched with
                      | inl resp => pollAndMine env resp s
                      | inr msg => (Ends (Threw msg), s)
                      end in
    match res with
    | Spins => (Spins, s1)
    | Ends Returned => (Ends Returned, set_pollTimer (Some pollInterval) s1)
    | Ends (Threw _) =>
        match unhandledError env with
        | None => (Ends Returned, set_pollTimer (Some pollInterval) (emit "error" s1))
        | Some m => (Ends (Threw m), s1)
        end
    end.

(** *** Hourly restart and watchdog restart *)

Record RestartEnv := mkRestartEnv {
  restartRomWaits : nat;       (* rounds of the loop that waits for the ROM *)
  restartLaunch : LaunchEnv;
  nextDelay : Z                (* the time to the next full hour *)
}.

(** The timer callback of [scheduleHourlyRestart], with
    [hashEngine.killWorkers] and [hashEngine.initRom] taken to resolve and
    the state taken to be left alone while the callback sleeps; it re-arms
    the timer once [this.startMining()] has handed control back. *)
Definition hourlyRestart (env : RestartEnv) (s : Orchestrator) : Outcome * Orchestrator :=
  if negb (isRunning s) then (Ends Returned, s)
  else
    let s1 := perform (Sleep 2000) (set_isMining false s) in
    let s2 := perform KillWorkers s1 in
    let s3 := set_workerStats ∅ s2 in
    let s4 := set_addressesProcessedCurrentChallenge ∅ s3 in
    let s5 := set_pausedAddresses ∅ s4 in
    let s6 := set_submittingAddresses ∅ s5 in
    let s7 := perform (Sleep 1000) s6 in
    let s8 := match currentChallenge s7 with
              | Some c =>
                  waitForRom (restartRomWaits env) (perform (InitRom (no_pre_mine c)) s7)
              | None => s7
              end in
    let '(res, s9) :=
      if isRunning s8 && bool_decide (is_Some (currentChallenge s8))
         && truthy (currentChallengeId s8)
      then handsBack (startMining (restartLaunch env) s8)
      else (Ends Returned, s8) in
    match res with
    | Spins => (Spins, s9)
    | _ => (Ends Returned, scheduleHourlyRestart (nextDelay env) s9)
    end.

(** The restart the watchdog schedules for one second after a finding. *)
Definition watchdogRestart (currentId : string) (env : LaunchEnv) (s : Orchestrator)
    : Outcome * Orchestrator :=
  if isRunning s && bool_decide (currentChallengeId s = Some currentId)
  then handsBack (startMining env s) else (Ends Returned, s).

(** *** The operations on the shared state, one constructor per function
    above, for statements that range over all of them *)

Inductive Op :=
  | OpStart (password : string) (env : StartEnv)
  | OpStop
  | OpReinitialize (password : string) (env : StartEnv)
  | OpUpdateConfiguration (u : ConfigUpdate)
  | OpHourlyRestart (env : RestartEnv)
  | OpWatchdogCheck
  | OpWatchdogRestart (currentId : string) (env : LaunchEnv)
  | OpPollAndMine (env : PollEnv) (resp : ChallengeResponse)
  | OpStartMining (env : LaunchEnv)
  | OpPrepareBatch (availableWorkers : Z) (currentId : string)
      (addressesToMine : list DerivedAddress) (currentAddressPointer : Z)
  | OpLoadSubmittedSolutions
  | OpLoadChallengeState (challengeId : string)
  | OpEnsureAddressesRegistered (outcome : DerivedAddress -> option string)
  | OpRegisterAddress (addr : DerivedAddress) (failure : option string)
  | OpEnterWorker (addr : DerivedAddress) (devFee : bool) (workerId maxFailures : Z)
      (romReady : bool) (now : Z)
  | OpLoopHead (w : Worker) (currentNonce : Z)
  | OpClaimSubmission (w : Worker) (hash : string)
  | OpReleaseLocks (key : string)
  | OpValidateSolution (w : Worker) (hash : string) (serverHashHex : string + string)
  | OpSubmitSolution (env : SubmitEnv) (addr : DerivedAddress)
      (challengeId nonce hash : string) (devFee : bool)
  | OpSettleSubmission (w : Worker) (hash : string) (res : Completion)
  | OpBatchError (unhandled : option string) (msg : string)
  | OpReportProgress (w : Worker) (hashCount hashRate now : Z)
  | OpFinishWorker (w : Worker).

(** The state an operation leaves; for one that never comes back, the state
    in which it goes round. *)
Definition run (o : Op) (s : Orchestrator) : Orchestrator :=
  match o with
  | OpStart password env => (start password env s).2
  | OpStop => stop s
  | OpReinitialize password env => (reinitialize password env s).2
  | OpUpdateConfiguration u => updateConfiguration u s
  | OpHourlyRestart env => (hourlyRestart env s).2
  | OpWatchdogCheck => runWatchdogCheck s
  | OpWatchdogRestart currentId env => (watchdogRestart currentId env s).2
  | OpPollAndMine env resp => (pollAndMine env resp s).2
  | OpStartMining env => (startMining env s).2
  | OpPrepareBatch availableWorkers currentId addressesToMine pointer =>
      (prepareBatch availableWorkers currentId addressesToMine pointer s).2
  | OpLoadSubmittedSolutions => loadSubmittedSolutions s
  | OpLoadChallengeState challengeId => loadChallengeState challengeId s
  | OpEnsureAddressesRegistered outcome => ensureAddressesRegistered outcome s
  | OpRegisterAddress addr failure => (registerAddress addr failure s).2
  | OpEnterWorker addr devFee workerId maxFailures romReady now =>
      (enterWorker addr devFee workerId maxFailures romReady now s).2
  | OpLoopHead w currentNonce => (loopHead w currentNonce s).2
  | OpClaimSubmission w hash => claimSubmission w hash s
  | OpReleaseLocks key => releaseLocks key s
  | OpValidateSolution w hash serverHashHex => (validateSolution w hash serverHashHex s).2
  | OpSubmitSolution env addr challengeId nonce hash devFee =>
      (submitSolution env addr challengeId nonce hash devFee s).2
  | OpSettleSubmission w hash res => (settleSubmission w hash res s).2
  | OpBatchError unhandled msg => (onBatchError unhandled msg s).2
  | OpReportProgress w hashCount hashRate now => reportProgress w hashCount hashRate now s
  | OpFinishWorker w => finishWorker w s
  end.

(** [true] when the operation is the discard of a found hash that fails the
    changed difficulty. *)
Definition isDifficultyDiscard (o : Op) (s : Orchestrator) : bool :=
  match o with
  | OpValidateSolution w hash serverHashHex =>
      match (validateSolution w hash serverHashHex s).1 with
      | DiscardedDifficulty => true
      | _ => false
      end
  | _ => false
  end.

End Worker.

(** [keepsSolved s s']: every pair solved in [s] is solved in [s']. *)
Definition keepsSolved (s s' : Orchestrator) : Prop :=
  forall a c, isSolved s a c = true -> isSolved s' a c = true.

(** *** Reference instances of the difficulty predicate and the preimage *)

Definition hexDigit (c : ascii) : option N :=
  let n := N_of_ascii c in
  if ((48 <=? n) && (n <=? 57))%N then Some (n - 48)%N
  else if ((97 <=? n) && (n <=? 102))%N then Some (n - 87)%N
  else if ((65 <=? n) && (n <=? 70))%N then Some (n - 55)%N
  else None.

Fixpoint hexValue (s : string) (acc : N) : option N :=
  match s with
  | EmptyString => Some acc
  | String c rest =>
      match hexDigit c with
      | Some d => hexValue rest (acc * 16 + d)%N
      | None => None
      end
  end.

(** Modelled from the spec: [matchesDifficulty] (module [./difficulty], not
    among the sources) reads hash and difficulty as big-endian bytes of one
    length and accepts iff [(hash OR difficulty) == difficulty]. *)
Definition matchesDifficulty (hash difficulty : string) : bool :=
  match hexValue hash 0, hexValue difficulty 0 with
  | Some h, Some d =>
      Nat.eqb (String.length hash) (String.length difficulty) && N.eqb (N.lor h d) d
  | _, _ => false
  end.

(** Modelled from the spec: [buildPreimage] (module [./preimage], not among
    the sources) is a deterministic byte sequence made of the nonce, the
    address, [latest_submission] and [no_pre_mine_hour]. *)
Definition buildPreimage (nonce address : string) (c : Challenge) : string :=
  nonce ++ address ++ latest_submission c ++ no_pre_mine_hour c.


(** *** The poll loop *)

(** *** Vocabulary for what [submitSolution] leaves behind *)

(** The solution was accepted: one receipt more, the counters moved. *)
Definition Accepted (env : SubmitEnv) (addr : DerivedAddress)
    (challengeId nonce hash : string) (devFee : bool) (s s' : Orchestrator) : Prop :=
  (exists cr, receipts s'
              = receipts s ++ [mkReceipt (submitTs env) (bech32 addr) (index addr)
                                 challengeId nonce hash cr devFee])
  /\ errors s' = errors s
  /\ solutionsFound s' = solutionsFound s + 1
  /\ userSolutionsCount s' = userSolutionsCount s + (if devFee then 0 else 1)
  /\ DevFee.getTotalDevFeeSolutions (devFeeManager s')
     = DevFee.getTotalDevFeeSolutions (devFeeManager s) + (if devFee then 1 else 0)
  /\ solvedAddressChallenges s' = solvedAddressChallenges s.

(** The service said it holds the solution already: no receipt, the pair is
    marked solved, the error log grows. *)
Definition TakenAsDuplicate (addr : DerivedAddress) (challengeId : string)
    (s s' : Orchestrator) : Prop :=
  receipts s' = receipts s
  /\ solutionsFound s' = solutionsFound s
  /\ userSolutionsCount s' = userSolutionsCount s
  /\ devFeeManager s' = devFeeManager s
  /\ isSolved s' (bech32 addr) challengeId = true
  /\ (List.length (errors s) < List.length (errors s'))%nat.

(** The submission failed: no receipt, nothing marked solved, the error log
    grows. *)
Definition Failed (s s' : Orchestrator) : Prop :=
  receipts s' = receipts s
  /\ solutionsFound s' = solutionsFound s
  /\ userSolutionsCount s' = userSolutionsCount s
  /\ devFeeManager s' = devFeeManager s
  /\ solvedAddressChallenges s' = solvedAddressChallenges s
  /\ (List.length (errors s) < List.length (errors s'))%nat.

(** The fields by which the workers coordinate are as they were. *)
Definition coordinationUntouched (s s' : Orchestrator) : Prop :=
  submittedSolutions s' = submittedSolutions s
  /\ submittingAddresses s' = submittingAddresses s
  /\ pausedAddresses s' = pausedAddresses s
  /\ stoppedWorkers s' = stoppedWorkers s
  /\ addressSubmissionFailures s' = addressSubmissionFailures s
  /\ workerStats s' = workerStats s
  /\ currentChallenge s' = currentChallenge s
  /\ currentChallengeId s' = currentChallengeId s
  /\ isRunning s' = isRunning s
  /\ isMining s' = isMining s.

Definition isPost (e : Effect) : bool :=
  match e with PostSolution _ _ _ => true | _ => false end.

Definition isRegistration (e : Effect) : bool :=
  match e with RegisterAddress _ => true | _ => false end.

End Mining.

(** ** Concrete runs used as test inputs *)

Module Scenario.
Import Mining.

Definition addrA : DerivedAddress := mkDerived 0 "addr1qxy" "pk0" true.

(** A challenge with the mask [00ff], and the same challenge after the
    service tightened the mask to [007f]. *)
Definition challenge1 : Challenge :=
  mkChallenge "**D07C10" "00ff" "ls1" "npm1" "hour1" "2025-11-01T00:00:00Z".

Definition challenge1Harder : Challenge :=
  mkChallenge "**D07C10" "007f" "ls1" "npm1" "hour1" "2025-11-01T00:00:00Z".

(** ... and after another miner's solution changed [latest_submission]. *)
Definition challenge1Moved : Challenge :=
  mkChallenge "**D07C10" "00ff" "ls2" "npm1" "hour1" "2025-11-01T00:00:00Z".

Definition challenge2 : Challenge :=
  mkChallenge "**D07C11" "00ff" "ls9" "npm1" "hour2" "2025-11-01T01:00:00Z".

Definition devFee0 : DevFee.Manager :=
  DevFee.construct DevFee.emptyPartial DevFee.freshCache
    "secure/.devfee_cache.json" "desktop-00".

(** The orchestrator as its field initialisers leave it, with a batch size
    of one. *)
Definition initial : Orchestrator :=
  mkOrchestrator false None None None false [] 0 None false None 0 0 ∅ [] 2 ∅ ∅ 0
    ∅ ∅ ∅ None None ∅ ∅ (Some 1) auto 5 devFee0 [] [] [].

(** The surroundings of a poll or a launch at time [now]: the ROM is ready
    and an ['error'] listener is registered. *)
Definition launchAt (now : Z) : LaunchEnv := mkLaunchEnv now true (fun _ => now).

Definition pollAt (now : Z) : PollEnv := mkPollEnv true 0 true (launchAt now) None.

(** Started, holding [challenge1], mining for one registered address. *)
Definition miningOn (c : Challenge) : Orchestrator :=
  set_currentChallenge (Some c)
    (set_currentChallengeId (Some (challenge_id c))
       (set_isMining true
          (set_addresses [addrA]
             (set_walletManager (Some (mkWallet []))
                (set_isRunning true initial))))).

(** Two workers of one group, both entered on [addrA] under [challenge1]. *)
Definition worker0 : Worker := mkWorker addrA false 0 1 "**D07C10" challenge1 1.
Definition worker1 : Worker := mkWorker addrA false 1 1 "**D07C10" challenge1 1.

(** A worker far out: the range of worker 9007200 starts beyond [2^53].  It
    entered while the batch size was four. *)
Definition fourAtATime : Orchestrator :=
  updateConfiguration (mkUpdate None (Some 4) None None) (miningOn challenge1).

Definition farWorker : Worker :=
  mkWorker addrA false 9007200 1 "**D07C10" challenge1 4.

Definition twoWorkers : Orchestrator :=
  (enterWorker addrA false 1 1 true 100
     (enterWorker addrA false 0 1 true 100 (miningOn challenge1)).2).2.

Definition accepted : HttpResponse := mkHttp 200 "OK" None None (Some "receipt").

(** The reply of the service to a solution it already holds. *)
Definition duplicateReply : HttpResponse :=
  mkHttp 400 "Bad Request" None (Some "solution already exists"%string) None.

Definition replyWith (r : HttpResponse) : SubmitEnv :=
  mkSubmitEnv (ServerReplied r) None (ServerReplied r) "2025-11-01T00:10:00Z" 600000.

Definition item (n : Z) : BatchItem :=
  mkItem n (nonceHex n) (buildPreimage (nonceHex n) (bech32 addrA) challenge1).

(** Worker 0 finds [0040] and has it accepted. *)
Definition worker0Solves (s : Orchestrator) : Orchestrator :=
  (onSolutionFound matchesDifficulty worker0 (item 0) "0040"
     (mkHitEnv (inl "0040"%string) (replyWith accepted)) s).2.

(** The poller sees the same challenge with the tighter mask. *)
Definition difficultyRaised (s : Orchestrator) : Orchestrator :=
  (pollAndMine buildPreimage (pollAt 700000)
     (mkResponse active (Some challenge1Harder) "") s).2.

(** Worker 1 waits for its first batch while worker 0 solves the address
    and the difficulty is raised; its batch then holds [0080], which meets
    [00ff] but not [007f]. *)
Definition worker1Round : Round :=
  mkRound (fun s => s) (fun s => difficultyRaised (worker0Solves s))
    (Hashes [("0080"%string, mkHitEnv (inl "0080"%string) (replyWith accepted))])
    None 0 800000.

(** The shared state when worker 1 resumes after its hash call. *)
Definition whenWorker1Resumes : Orchestrator :=
  difficultyRaised
    (worker0Solves (loopHead buildPreimage worker1 (nonceStart 1) twoWorkers).2).

(** The same state when the address had also solved an earlier challenge. *)
Definition earlierSolved : Orchestrator :=
  set_solvedAddressChallenges
    (addSolved "addr1qxy" "**D07C0F" (solvedAddressChallenges whenWorker1Resumes))
    whenWorker1Resumes.


(** Ten addresses as the dev-fee endpoint serves them, and the rotator
    after a successful prefetch. *)
Definition tenAddresses : list DevFee.ApiAddress :=
  map (fun i => DevFee.mkApiAddress ("addr1dev" ++ Js.showNat i) (Z.of_nat i) true)
      (seq 0 10).

Definition stocked : DevFee.Manager :=
  (DevFee.prefetchAddressPool (DevFee.HttpData (Some tenAddresses)) 0 devFee0).2.

(** Worker 1 is flagged in [stoppedWorkers], and the address has a solution
    for [challenge2] already: a transition to [challenge2] finds nothing to
    mine. *)
Definition withStoppedWorker : Orchestrator :=
  set_stoppedWorkers {[1]}
    (set_solvedAddressChallenges {["addr1qxy"%string := {["**D07C11"%string]}]}
       (miningOn challenge1)).


(** A wallet of three addresses, the first of them registered, and a
    registration service that refuses the second. *)
Definition addrB : DerivedAddress := mkDerived 1 "addr1qb" "pk1" false.
Definition addrC : DerivedAddress := mkDerived 2 "addr1qc" "pk2" false.

Definition threeAddresses : Orchestrator :=
  set_addresses [addrA; addrB; addrC] (set_walletManager (Some (mkWallet [])) initial).

Definition refusesB (a : DerivedAddress) : option string :=
  if String.eqb (bech32 a) "addr1qb" then Some "Request failed with status code 500"%string
  else None.

(** Two receipts on disk, one of them of a dev-fee solution, and the
    environment of a start that loads the three addresses. *)
Definition receiptA : ReceiptEntry :=
  mkReceipt "2025-10-31T23:10:00Z" "addr1qxy" 0 "**D07C0F" "00000000000000aa" "0012"
            (Some "receipt"%string) false.

Definition receiptDev : ReceiptEntry :=
  mkReceipt "2025-10-31T23:20:00Z" "addr1dev0" (-1) "**D07C0F" "00000000000000bb" "0034"
            (Some "receipt"%string) true.

Definition withReceipts : Orchestrator := set_receipts [receiptA; receiptDev] initial.

Definition startEnv : StartEnv :=
  mkStartEnv (fun _ => Some [addrA; addrB; addrC]) refusesB
             (DevFee.HttpData (Some tenAddresses)) 1000 3599000.

Definition lockedWallet : StartEnv :=
  mkStartEnv (fun _ => None) refusesB (DevFee.HttpData (Some tenAddresses)) 1000 3599000.

(** The two workers again, after a poll replaced the data of [challenge1]
    by [challenge1Moved]; and a hit whose re-hash against that data is
    refused by the hash service. *)
Definition movedUnderWorkers : Orchestrator :=
  (pollAndMine buildPreimage (pollAt 700000)
     (mkResponse active (Some challenge1Moved) "") twoWorkers).2.

Definition rehashRefused : HitEnv :=
  mkHitEnv (inr "Request failed with status code 408"%string) (replyWith accepted).
End Scenario.

(** * Properties *)

(** ** The dev-fee rotator *)

Section DevFeeProperties.
Import DevFee.

Lemma firstInvalid_None (i : nat) (l : list DevFeeAddress) :
  firstInvalid i l = None -> Forall (fun a => validPrefix (address a) = true) l.
Proof.
  revert i. induction l as [|a l IH]; intros i H; simpl in *.
  - constructor.
  - destruct (validPrefix (address a)) eqn:E; [|discriminate].
    constructor; eauto.
Qed.




Lemma sameChallenge_migrate (c : DevFeeCache) (ch : string) :
  sameChallenge (currentChallengeId (migrate c)) ch
  = sameChallenge (currentChallengeId c) ch.
Proof. destruct c as [? ? ? ? ? ? ? [| |x] ?]; reflexivity. Qed.

Lemma sameChallenge_true (stored : Js.Nullable string) (ch : string) :
  sameChallenge stored ch = true -> stored = Js.value ch.
Proof.
  destruct stored as [| |x]; simpl; try discriminate.
  intros H. apply String.eqb_eq in H. by subst.
Qed.

Lemma pool_index_defined (pool : list DevFeeAddress) (n : Z) :
  List.length pool = 10%nat -> 0 <= n ->
  exists a, pool !! Z.to_nat (n mod 10) = Some a
            /\ Js.index pool (Js.jsRem n 10) = Some a.
Proof.
  intros Hlen Hn.
  assert (Hr : 0 <= n mod 10 < 10) by (apply Z.mod_pos_bound; lia).
  destruct (lookup_lt_is_Some_2 pool (Z.to_nat (n mod 10))) as [a Ha]; [lia|].
  exists a. split; [exact Ha|].
  unfold Js.index, Js.jsRem. rewrite Z.rem_mod_nonneg by lia.
  destruct (n mod 10 <? 0) eqn:E; [apply Z.ltb_lt in E; lia|exact Ha].
Qed.

(** C8: with a valid pool, [getDevFeeAddress c] answers the address of the
    pool entry at index [solutionsThisChallenge mod 10], the counter being
    first reset to 0, and the stored challenge id set to [c], when the stored
    id differs from [c].  The counter counts solutions and is taken not to
    be negative. *)
Theorem getDevFeeAddress_rotates (ch : string) (m : Manager)
    (pool : list DevFeeAddress) :
  addressPool (cache m) = Some pool ->
  List.length pool = 10%nat ->
  let changed := negb (sameChallenge (currentChallengeId (cache m)) ch) in
  let count := if changed then 0 else default 0 (solutionsThisChallenge (cache m)) in
  0 <= count ->
  exists a,
    pool !! Z.to_nat (count mod 10) = Some a
    /\ (getDevFeeAddress ch m).1 = inl (address a)
    /\ currentChallengeId (cache (getDevFeeAddress ch m).2) = Js.value ch
    /\ solutionsThisChallenge (cache (getDevFeeAddress ch m).2) = Some count.
Proof.
  intros Hpool Hlen changed count Hcount.
  destruct (pool_index_defined pool count Hlen Hcount) as [a [Ha Hidx]].
  exists a. split; [exact Ha|].
  unfold getDevFeeAddress, hasValidAddressPool. rewrite Hpool, Hlen.
  rewrite sameChallenge_migrate.
  subst count changed.
  destruct (sameChallenge (currentChallengeId (cache m)) ch) eqn:Same.
  - apply sameChallenge_true in Same. cbn [negb] in Hidx |- *.
    assert (Hc : solutionsThisChallenge (migrate (cache m))
                 = Some (default 0 (solutionsThisChallenge (cache m)))).
    { unfold migrate. simpl. by destruct (solutionsThisChallenge (cache m)). }
    rewrite Hc. cbn [addressPool migrate]. rewrite Hpool, Hidx.
    repeat split; cbn; [by rewrite Same|exact Hc].
  - cbn [negb] in Hidx |- *.
    cbn [solutionsThisChallenge addressPool resetChallenge migrate].
    rewrite Hpool, Hidx. repeat split.
Qed.

(** The counter stays a count under the operations that write it. *)
Lemma recordDevFeeSolution_count (m : Manager) :
  0 <= default 0 (solutionsThisChallenge (cache m)) ->
  0 <= default 0 (solutionsThisChallenge (cache (recordDevFeeSolution m))).
Proof. simpl. destruct (solutionsThisChallenge (cache m)); simpl; lia. Qed.

Lemma getDevFeeAddress_rotates_witness :
  (getDevFeeAddress "**D07C10" (recordDevFeeSolution Scenario.stocked)).1
  = inl "addr1dev0"%string
  /\ (getDevFeeAddress "**D07C10"
        (recordDevFeeSolution
           (getDevFeeAddress "**D07C10" Scenario.stocked).2)).1
     = inl "addr1dev1"%string.
Proof.
  split.
  - destruct (getDevFeeAddress_rotates "**D07C10"
                (recordDevFeeSolution Scenario.stocked)
                (map (toDevFeeAddress 0) Scenario.tenAddresses)
                eq_refl eq_refl ltac:(simpl; lia)) as (a & Ha & Hr & _).
    rewrite Hr. vm_compute in Ha. injection Ha as <-. reflexivity.
  - destruct (getDevFeeAddress_rotates "**D07C10"
                (recordDevFeeSolution
                   (getDevFeeAddress "**D07C10" Scenario.stocked).2)
                (map (toDevFeeAddress 0) Scenario.tenAddresses)
                eq_refl eq_refl ltac:(vm_compute; discriminate)) as (a & Ha & Hr & _).
    rewrite Hr. vm_compute in Ha. injection Ha as <-. reflexivity.
Defined.

End DevFeeProperties.

(** ** Dev-fee cadence, worker grouping, start and challenge transition *)

Section OrchestratorProperties.
Import Mining.

Lemma existsb_false_filter (l : list ReceiptEntry) :
  existsb isDevFee l = false ->
  List.filter (fun r => negb (isDevFee r)) l = l.
Proof.
  induction l as [|r l IH]; simpl; [done|].
  intros H. apply orb_false_iff in H as [Hr Hl]. rewrite Hr. simpl. by rewrite IH.
Qed.

Lemma existsb_false_all (l : list ReceiptEntry) :
  existsb isDevFee l = false <-> (forall r, In r l -> isDevFee r = false).
Proof.
  split.
  - intros H r Hr. destruct (isDevFee r) eqn:E; [|done].
    assert (existsb isDevFee l = true) by (apply existsb_exists; eauto). congruence.
  - intros H. destruct (existsb isDevFee l) eqn:E; [|done].
    apply existsb_exists in E as [r [Hr Hd]]. rewrite (H r Hr) in Hd. discriminate.
Qed.

(** C4: [shouldMineDevFeeNow] is true exactly when the rotator is enabled,
    its pool holds exactly 10 addresses, no dev-fee mining is in progress,
    none of the last [ratio] receipts is a dev-fee receipt and at least
    [ratio - 1] user receipts are among them; a rotator built without a
    ratio uses 17. *)
Theorem shouldMineDevFeeNow_iff :
  (forall loaded file generated,
     DevFee.getRatio (DevFee.construct DevFee.emptyPartial loaded file generated) = 17)
  /\ forall s : Orchestrator,
       let ratio := DevFee.getRatio (devFeeManager s) in
       let lastReceipts := getRecentReceipts ratio (receipts s) in
       shouldMineDevFeeNow s = true <->
         DevFee.isEnabled (devFeeManager s) = true
         /\ (exists pool, DevFee.addressPool (DevFee.cache (devFeeManager s)) = Some pool
                          /\ List.length pool = 10%nat)
         /\ isDevFeeMining s = false
         /\ (forall r, In r lastReceipts -> isDevFee r = false)
         /\ ratio - 1
            <= Z.of_nat (List.length
                           (List.filter (fun r => negb (isDevFee r)) lastReceipts)).
Proof.
  split; [reflexivity|].
  intros s ratio lastReceipts. unfold shouldMineDevFeeNow.
  fold ratio. fold lastReceipts.
  destruct (DevFee.isEnabled (devFeeManager s)) eqn:En; simpl.
  2:{ split; [discriminate|]. intros [H _]. discriminate. }
  unfold DevFee.hasValidAddressPool.
  destruct (DevFee.addressPool (DevFee.cache (devFeeManager s))) as [pool|] eqn:Pool;
    simpl.
  2:{ split; [discriminate|]. intros (_ & (p & Hp & _) & _). discriminate. }
  destruct (Nat.eqb (List.length pool) 10) eqn:Len; simpl.
  2:{ split; [discriminate|]. intros (_ & (p & Hp & Hl) & _).
      injection Hp as <-. apply Nat.eqb_neq in Len. contradiction. }
  apply Nat.eqb_eq in Len.
  destruct (isDevFeeMining s) eqn:Dm.
  { split; [discriminate|]. intros (_ & _ & H & _). discriminate. }
  rewrite andb_true_iff, negb_true_iff, Z.leb_le, existsb_false_all.
  split.
  - intros [Hno Hlen]. repeat split; eauto.
    rewrite existsb_false_filter; [exact Hlen|]. by apply existsb_false_all.
  - intros (_ & _ & _ & Hno & Hcount). split; [exact Hno|].
    rewrite existsb_false_filter in Hcount; [exact Hcount|]. by apply existsb_false_all.
Qed.

(** Sixteen user receipts make the dev fee due; a dev-fee receipt among the
    last seventeen, or a fifteenth receipt still missing, does not. *)
Lemma shouldMineDevFeeNow_iff_witness :
  let user := mkReceipt "t" "addr1qxy" 0 "**D07C10" "00" "0040" None false in
  let fee := mkReceipt "t" "addr1dev0" (-1) "**D07C10" "01" "0041" None true in
  let on (rs : list ReceiptEntry) :=
    set_receipts rs (set_devFeeManager Scenario.stocked (Scenario.miningOn Scenario.challenge1)) in
  shouldMineDevFeeNow (on (repeat user 16)) = true
  /\ shouldMineDevFeeNow (on (repeat user 15)) = false
  /\ shouldMineDevFeeNow (on (fee :: repeat user 16)) = false
  /\ shouldMineDevFeeNow (on (fee :: repeat user 17)) = true.
Proof.
  intros user fee on. split.
  - apply (proj2 shouldMineDevFeeNow_iff (on (repeat user 16))).
    split; [reflexivity|]. split; [eexists; split; reflexivity|].
    split; [reflexivity|]. split; [|vm_compute; discriminate].
    intros r Hr. vm_compute in Hr.
    repeat (destruct Hr as [<-|Hr]; [reflexivity|]). contradiction.
  - repeat split; vm_compute; reflexivity.
Defined.

Lemma idsFrom_app (start : Z) (a b : nat) :
  idsFrom start (a + b) = idsFrom start a ++ idsFrom (start + Z.of_nat a) b.
Proof.
  unfold idsFrom. rewrite seq_app, map_app. f_equal.
  replace (0 + a)%nat with (a + 0)%nat by lia.
  rewrite <- (fmap_add_seq a 0 b).
  change (map ?f (?g <$> ?l)) with (f <$> (g <$> l)).
  rewrite <- list_fmap_compose. apply list_fmap_ext. intros _ k _. simpl. lia.
Qed.

Lemma idsFrom_cons (start : Z) (k : nat) :
  idsFrom start (S k) = start :: idsFrom (start + 1) k.
Proof.
  change (S k) with (1 + k)%nat. rewrite idsFrom_app. simpl.
  unfold idsFrom at 1. simpl. f_equal. lia.
Qed.

Lemma idsFrom_elem (start : Z) (n : nat) (x : Z) :
  x ∈ idsFrom start n <-> start <= x < start + Z.of_nat n.
Proof.
  unfold idsFrom. rewrite list_elem_of_fmap. split.
  - intros (k & -> & Hk). apply elem_of_seq in Hk. lia.
  - intros H. exists (Z.to_nat (x - start)). split; [lia|]. apply elem_of_seq. lia.
Qed.

Lemma groupOffset_succ (base extra i : Z) :
  0 <= i -> 0 <= extra ->
  groupOffset base extra (i + 1) = groupOffset base extra i + groupSize base extra i.
Proof.
  intros Hi He. unfold groupOffset, groupSize.
  destruct (i <? extra) eqn:E; [apply Z.ltb_lt in E|apply Z.ltb_ge in E]; lia.
Qed.

Lemma buildGroups_length addresses base extra remaining i c :
  List.length (buildGroups addresses base extra remaining i c) = remaining.
Proof.
  revert i c. induction remaining as [|r IH]; intros i c; simpl; [done|]. by rewrite IH.
Qed.

Lemma buildGroups_lookup addresses base extra remaining :
  0 <= base -> 0 <= extra ->
  forall i c (k : nat), 0 <= i -> (k < remaining)%nat ->
    buildGroups addresses base extra remaining i c !! k
    = Some (mkGroup (Js.index addresses (i + Z.of_nat k))
              (idsFrom (c + groupOffset base extra (i + Z.of_nat k)
                        - groupOffset base extra i)
                 (Z.to_nat (groupSize base extra (i + Z.of_nat k))))).
Proof.
  intros Hb He. induction remaining as [|r IH]; intros i c k Hi Hk; [lia|].
  destruct k as [|k]; simpl.
  - rewrite Z.add_0_r. do 3 f_equal. lia.
  - rewrite IH by lia.
    replace (i + 1 + Z.of_nat k) with (i + Z.of_nat (S k)) by lia.
    do 3 f_equal. rewrite (groupOffset_succ base extra i) by lia.
    unfold groupSize. destruct (i <? extra); lia.
Qed.

Lemma buildGroups_concat addresses base extra remaining :
  0 <= base -> 0 <= extra ->
  forall i c, 0 <= i ->
    concat (map workerIds (buildGroups addresses base extra remaining i c))
    = idsFrom c (Z.to_nat (groupOffset base extra (i + Z.of_nat remaining)
                           - groupOffset base extra i)).
Proof.
  intros Hb He. induction remaining as [|r IH]; intros i c Hi.
  - simpl. rewrite Z.add_0_r, Z.sub_diag. reflexivity.
  - cbn [buildGroups map concat workerIds]. rewrite IH by lia.
    replace (i + 1 + Z.of_nat r) with (i + Z.of_nat (S r)) by lia.
    rewrite (groupOffset_succ base extra i) by lia.
    fold (groupSize base extra i).
    assert (Hs : 0 <= groupSize base extra i)
      by (unfold groupSize; destruct (i <? extra); lia).
    assert (Hm : groupOffset base extra i + groupSize base extra i
                 <= groupOffset base extra (i + Z.of_nat (S r))).
    { rewrite <- groupOffset_succ by lia. unfold groupOffset. nia. }
    rewrite <- idsFrom_app. f_equal. lia.
Qed.

Lemma auto_min_bounds (W : Z) :
  1 <= W ->
  let m := if W <=? 4 then W else Z.max 3 (Z.min 5 (W / 4)) in
  1 <= m <= W.
Proof.
  intros HW. simpl. destruct (W <=? 4) eqn:E; [lia|]. apply Z.leb_gt in E.
  assert (1 <= W / 4) by (apply Z.div_le_lower_bound; lia). lia.
Qed.

(** C3: in auto mode, for a non-empty address list and [W >= 1] workers,
    [calculateWorkerGroups] uses [m = W] when [W <= 4] and
    [max 3 (min 5 (W / 4))] otherwise, forms
    [g = min (W / m) (number of addresses)] groups, group [i] being on
    address [i] with [W / g] workers plus one for the first [W mod g]
    groups, and hands out the ids [0 .. W-1] contiguously in group order;
    whenever the group count comes out as 0 the result is one group with all
    the workers. *)
Theorem calculateWorkerGroups_auto (s : Orchestrator)
    (addresses : list DerivedAddress) (W : Z) (d : string) :
  workerGroupingMode s = auto ->
  addresses <> [] ->
  1 <= W ->
  let m := if W <=? 4 then W else Z.max 3 (Z.min 5 (W / 4)) in
  let g := Z.min (W / m) (Z.of_nat (List.length addresses)) in
  let base := W / g in
  let extra := W mod g in
  let groups := calculateWorkerGroups s addresses W d in
  getMinWorkersPerAddress s W d = m
  /\ 1 <= g
  /\ Z.of_nat (List.length groups) = g
  /\ (forall i, 0 <= i < g ->
        groups !! Z.to_nat i
        = Some (mkGroup (addresses !! Z.to_nat i)
                  (idsFrom (i * base + Z.min i extra)
                     (Z.to_nat (base + (if i <? extra then 1 else 0))))))
  /\ concat (map workerIds groups) = idsFrom 0 (Z.to_nat W)
  /\ (forall s' addresses' W' d',
        minWith (floorDiv W' (getMinWorkersPerAddress s' W' d'))
                (Z.of_nat (List.length addresses')) = Num 0 ->
        calculateWorkerGroups s' addresses' W' d'
        = [mkGroup (Js.index addresses' 0) (idsFrom 0 (Z.to_nat W'))]).
Proof.
  intros Hmode Hne HW m g base extra groups.
  assert (Hm : getMinWorkersPerAddress s W d = m).
  { unfold getMinWorkersPerAddress. by rewrite Hmode. }
  pose proof (auto_min_bounds W HW) as Hmb. fold m in Hmb. simpl in Hmb.
  assert (Hq : 1 <= W / m) by (apply Z.div_le_lower_bound; lia).
  assert (Hlen : 1 <= Z.of_nat (List.length addresses)).
  { destruct addresses; [done|]. simpl. lia. }
  assert (Hg : 1 <= g) by (subst g; lia).
  assert (Hbase : 0 <= base) by (subst base; apply Z.div_pos; lia).
  assert (Hextra : 0 <= extra < g) by (subst extra; apply Z.mod_pos_bound; lia).
  assert (Hgroups : groups = buildGroups addresses base extra (Z.to_nat g) 0 0).
  { subst groups. unfold calculateWorkerGroups. rewrite Hm.
    unfold floorDiv. destruct (m =? 0) eqn:E; [apply Z.eqb_eq in E; lia|].
    cbn [minWith]. fold g. destruct g as [|p|p] eqn:Eg; try lia.
    unfold Js.jsRem. rewrite Z.rem_mod_nonneg by lia. reflexivity. }
  split; [exact Hm|]. split; [exact Hg|]. split.
  { rewrite Hgroups, buildGroups_length. lia. }
  split.
  { intros i Hi. rewrite Hgroups, buildGroups_lookup by lia.
    rewrite Z.add_0_l, Z2Nat.id by lia.
    unfold Js.index. destruct (i <? 0) eqn:E; [apply Z.ltb_lt in E; lia|].
    do 3 f_equal. unfold groupOffset. lia. }
  split.
  { rewrite Hgroups, buildGroups_concat by lia. f_equal. f_equal.
    rewrite Z.add_0_l, Z2Nat.id by lia. unfold groupOffset.
    pose proof (Z.div_mod W g ltac:(lia)) as Hdm. fold base extra in Hdm. lia. }
  intros s' addresses' W' d' H0. unfold calculateWorkerGroups. by rewrite H0.
Qed.

(** Eleven workers over five addresses: [m = 3], three groups of 4, 4 and 3. *)
Lemma calculateWorkerGroups_auto_witness :
  let five := map (fun i => mkDerived (Z.of_nat i) ("addr1q" ++ Js.showNat i) "" true)
                  (seq 0 5) in
  map workerIds (calculateWorkerGroups Scenario.initial five 11 "00ff")
  = [[0; 1; 2; 3]; [4; 5; 6; 7]; [8; 9; 10]]
  /\ concat (map workerIds (calculateWorkerGroups Scenario.initial five 11 "00ff"))
     = idsFrom 0 11.
Proof.
  intros five. split; [reflexivity|].
  apply (calculateWorkerGroups_auto Scenario.initial five 11 "00ff");
    [reflexivity|discriminate|lia].
Defined.

(** C10: [start] on a running orchestrator returns at once, without an
    exception and with every field, log and recorded effect as before;
    calling it again changes nothing either. *)
Theorem start_idempotent_while_running (password : string) (env : StartEnv)
    (s : Orchestrator) :
  isRunning s = true ->
  start password env s = (Returned, s)
  /\ forall password' env',
       start password' env' (start password env s).2 = (Returned, s).
Proof.
  intros Hrun.
  assert (H : forall p e, start p e s = (Returned, s)).
  { intros p e. unfold start. by rewrite Hrun. }
  split; [apply H|]. intros p e. rewrite H. apply H.
Qed.

Lemma start_idempotent_while_running_witness :
  let env := mkStartEnv (fun _ => Some [Scenario.addrA]) (fun _ => None)
               (DevFee.HttpData (Some Scenario.tenAddresses)) 900000 60000 in
  (* a first [start] does its work ... *)
  isRunning (start "pw" env Scenario.initial).2 = true
  /\ effects (start "pw" env Scenario.initial).2 = [CallPollLoop; Emit "status"]
  (* ... and a second one leaves its result alone *)
  /\ start "pw" env (start "pw" env Scenario.initial).2
     = (Returned, (start "pw" env Scenario.initial).2).
Proof.
  intros env. split; [reflexivity|]. split; [reflexivity|].
  apply (start_idempotent_while_running "pw" env (start "pw" env Scenario.initial).2).
  reflexivity.
Defined.

Lemma waitForRom_effects (n : nat) (s : Orchestrator) :
  waitForRom n s = set_effects (effects s ++ replicate n (Sleep 500)) s.
Proof.
  unfold waitForRom. induction n as [|n IH].
  - cbn. rewrite app_nil_r. by destruct s.
  - rewrite Nat.iter_succ, IH. unfold perform. cbn.
    by rewrite <- app_assoc, <- (replicate_cons_app n (Sleep 500)).
Qed.

(** C9 (amended): on a challenge transition the orchestrator sets
    [isMining] to false, kills the hash-engine workers and clears
    [workerStats], [addressesProcessedCurrentChallenge], [pausedAddresses]
    and [submittingAddresses] while it still holds the old challenge; it
    then (unless the ROM times out) adopts the new challenge and calls
    [startMining].  [stoppedWorkers] is left as it is by the transition. *)
Theorem pollAndMine_transition_clears
    (buildPreimage : string -> string -> Challenge -> string)
    (env : PollEnv) (resp : ChallengeResponse)
    (c held : Challenge) (old : string) (s : Orchestrator) :
  code resp = active ->
  challenge resp = Some c ->
  currentChallengeId s = Some old ->
  old <> ""%string ->
  currentChallenge s = Some held ->
  challenge_id c <> old ->
  let s1 := transitionCleanup s in
  let s2 := if romInitNeeded env held c
            then waitForRom (romWaits env) (perform (InitRom (no_pre_mine c)) s1)
            else s1 in
  (isMining s1 = false
   /\ effects s1 = effects s ++ [KillWorkers; Sleep 1000]
   /\ workerStats s1 = ∅
   /\ addressesProcessedCurrentChallenge s1 = ∅
   /\ pausedAddresses s1 = ∅
   /\ submittingAddresses s1 = ∅
   /\ stoppedWorkers s1 = stoppedWorkers s
   /\ currentChallengeId s1 = Some old
   /\ currentChallenge s1 = Some held)
  /\ pollAndMine buildPreimage env resp s
     = (if romInitNeeded env held c && negb (romReadyAfterInit env)
        then (Ends (Threw "ROM initialization timeout"), s2)
        else handsBack
               (startMining buildPreimage (launch env)
                  (emit "status"
                     (loadChallengeState (challenge_id c) (adoptChallenge c s2)))))
  /\ currentChallengeId (adoptChallenge c s2) = Some (challenge_id c)
  /\ currentChallenge (adoptChallenge c s2) = Some c
  /\ stoppedWorkers (adoptChallenge c s2) = stoppedWorkers s.
Proof.
  intros Hcode Hch Hid Hold Hheld Hnew s1 s2.
  split.
  { subst s1. unfold transitionCleanup, perform. cbn.
    rewrite <- app_assoc. repeat split; auto. }
  split.
  { unfold pollAndMine. rewrite Hcode, Hch, Hid, Hheld.
    rewrite bool_decide_eq_false_2 by (intros [= E]; congruence).
    cbn [negb truthy].
    assert (Ht : negb (String.eqb old "") = true).
    { apply negb_true_iff, String.eqb_neq. exact Hold. }
    rewrite Ht. rewrite bool_decide_eq_true_2 by eauto. cbn [andb].
    fold s1. fold (romInitNeeded env held c).
    subst s2. unfold resumeWith.
    destruct (romInitNeeded env held c); cbn [andb]; [|reflexivity].
    by destruct (romReadyAfterInit env). }
  split; [reflexivity|]. split; [reflexivity|].
  subst s2 s1. destruct (romInitNeeded env held c); [|done].
  by rewrite waitForRom_effects.
Qed.

(** C9, as first stated, fails: a worker flagged in [stoppedWorkers] is
    still flagged when the new challenge is adopted, and also when
    [pollAndMine] has returned (here [startMining] finds every address
    solved and launches no batch). *)
Lemma transition_keeps_stoppedWorkers :
  let r := pollAndMine Mining.buildPreimage (Scenario.pollAt 700000)
             (mkResponse active (Some Scenario.challenge2) "")
             Scenario.withStoppedWorker in
  r.1 = Ends Returned
  /\ currentChallengeId r.2 = Some "**D07C11"%string
  /\ isMining r.2 = false
  /\ stoppedWorkers (adoptChallenge Scenario.challenge2
                       (transitionCleanup Scenario.withStoppedWorker)) = {[1]}
  /\ stoppedWorkers r.2 = {[1]}
  /\ stoppedWorkers r.2 <> ∅.
Proof.
  repeat split. cbn. intros H. apply (f_equal (fun X : gset Z => bool_decide (1 ∈ X))) in H.
  vm_compute in H. discriminate.
Qed.

Lemma pollAndMine_transition_clears_witness :
  let r := pollAndMine Mining.buildPreimage (Scenario.pollAt 700000)
             (mkResponse active (Some Scenario.challenge2) "")
             Scenario.twoWorkers in
  workerStats Scenario.twoWorkers <> ∅
  /\ workerStats (transitionCleanup Scenario.twoWorkers) = ∅
  /\ r.1 = Ends Returned
  /\ currentChallengeId r.2 = Some "**D07C11"%string.
Proof.
  intros r.
  destruct (pollAndMine_transition_clears Mining.buildPreimage (Scenario.pollAt 700000)
              (mkResponse active (Some Scenario.challenge2) "")
              Scenario.challenge2 Scenario.challenge1 "**D07C10" Scenario.twoWorkers
              eq_refl eq_refl eq_refl ltac:(discriminate) eq_refl ltac:(discriminate))
    as ((_ & _ & Hstats & _) & Hrun & _).
  split.
  { intros H. apply (f_equal (fun X : gmap Z WorkerStats => bool_decide (is_Some (X !! 0)))) in H.
    vm_compute in H. discriminate. }
  split; [exact Hstats|]. subst r. rewrite Hrun. split; reflexivity.
Defined.

End OrchestratorProperties.

(** ** Solved pairs, nonce ranges and submission *)

Section WorkerProperties.
Import Mining.

Lemma keepsSolved_refl s : keepsSolved s s.
Proof. by intros a c. Qed.

Lemma keepsSolved_trans s1 s2 s3 :
  keepsSolved s1 s2 -> keepsSolved s2 s3 -> keepsSolved s1 s3.
Proof. intros H12 H23 a c H. by apply H23, H12. Qed.

Lemma keepsSolved_same s s' :
  solvedAddressChallenges s' = solvedAddressChallenges s -> keepsSolved s s'.
Proof. intros E a c. unfold isSolved. by rewrite E. Qed.

Lemma isSolved_addSolved s a c a' c' :
  isSolved s a c = true ->
  isSolved (set_solvedAddressChallenges
              (addSolved a' c' (solvedAddressChallenges s)) s) a c = true.
Proof.
  unfold isSolved, addSolved. cbn.
  destruct (decide (a' = a)) as [->|Hne].
  - rewrite lookup_insert_eq. destruct (solvedAddressChallenges s !! a); [|discriminate].
    simpl. intros H. apply bool_decide_eq_true in H. apply bool_decide_eq_true. set_solver.
  - by rewrite lookup_insert_ne.
Qed.

Lemma keepsSolved_add s s' a' c' :
  solvedAddressChallenges s'
  = addSolved a' c' (solvedAddressChallenges s) -> keepsSolved s s'.
Proof.
  intros E a c H. pose proof (isSolved_addSolved s a c a' c' H) as H'.
  unfold isSolved in *. cbn in H'. by rewrite E.
Qed.

Lemma isSolved_removeSolved_other s a c a' c' :
  (a, c) <> (a', c') ->
  isSolved s a c = true ->
  isSolved (set_solvedAddressChallenges
              (removeSolved a' c' (solvedAddressChallenges s)) s) a c = true.
Proof.
  unfold isSolved, removeSolved. cbn. intros Hne.
  destruct (solvedAddressChallenges s !! a') as [set|] eqn:E'; [|done].
  destruct (decide (a' = a)) as [->|Hna].
  - rewrite lookup_insert_eq, E'. intros H. apply bool_decide_eq_true in H.
    apply bool_decide_eq_true. assert (c <> c') by congruence. set_solver.
  - by rewrite lookup_insert_ne.
Qed.

Ltac same_solved :=
  apply keepsSolved_same;
  repeat (first [ reflexivity | progress cbn | case_match ]).

Lemma recordReceipt_keeps s r : keepsSolved s (recordReceipt s r).
Proof.
  unfold recordReceipt. apply keepsSolved_add with (a' := r_address r) (c' := r_challenge_id r).
  by destruct (String.eqb (r_hash r) "").
Qed.

Lemma fold_keeps {A} (f : Orchestrator -> A -> Orchestrator) (l : list A) :
  (forall s x, keepsSolved s (f s x)) ->
  forall s, keepsSolved s (fold_left f l s).
Proof.
  intros Hf. induction l as [|x l IH]; intros s; simpl.
  - apply keepsSolved_refl.
  - eapply keepsSolved_trans; [apply Hf|apply IH].
Qed.

Lemma loadSubmittedSolutions_keeps s : keepsSolved s (loadSubmittedSolutions s).
Proof.
  unfold loadSubmittedSolutions.
  eapply keepsSolved_trans; [|apply fold_keeps, recordReceipt_keeps].
  eapply keepsSolved_trans; [|apply fold_keeps, recordReceipt_keeps].
  same_solved.
Qed.

Lemma registerAddress_keeps addr failure s :
  keepsSolved s (registerAddress addr failure s).2.
Proof. unfold registerAddress. same_solved. Qed.

Lemma registerOne_keeps outcome s addr : keepsSolved s (registerOne outcome s addr).
Proof.
  unfold registerOne.
  pose proof (registerAddress_keeps addr (outcome addr) (emit "registration_progress" s)) as H.
  destruct (registerAddress _ _ _) as [[] s2]; simpl in H;
    (eapply keepsSolved_trans; [|eapply keepsSolved_trans; [exact H|]]); same_solved.
Qed.

Lemma ensureAddressesRegistered_keeps outcome s :
  keepsSolved s (ensureAddressesRegistered outcome s).
Proof. unfold ensureAddressesRegistered. apply fold_keeps, registerOne_keeps. Qed.

Lemma start_keeps password env s : keepsSolved s (start password env s).2.
Proof.
  unfold start. destruct (isRunning s); [apply keepsSolved_refl|].
  destruct (loadWallet env password) as [loaded|]; [|same_solved].
  cbn [snd].
  set (s2 := set_addresses loaded _).
  eapply keepsSolved_trans with (s2 := s2); [subst s2; same_solved|].
  eapply keepsSolved_trans; [apply loadSubmittedSolutions_keeps|].
  eapply keepsSolved_trans; [apply ensureAddressesRegistered_keeps|].
  same_solved.
Qed.

Lemma stop_keeps s : keepsSolved s (stop s).
Proof. same_solved. Qed.

Lemma loadChallengeState_keeps ch s : keepsSolved s (loadChallengeState ch s).
Proof. same_solved. Qed.

Lemma reinitialize_keeps password env s :
  keepsSolved s (reinitialize password env s).2.
Proof.
  unfold reinitialize.
  eapply keepsSolved_trans; [|apply start_keeps]. same_solved.
Qed.

Lemma updateConfiguration_keeps u s : keepsSolved s (updateConfiguration u s).
Proof. unfold updateConfiguration. same_solved. Qed.

Lemma runWatchdogCheck_keeps s : keepsSolved s (runWatchdogCheck s).
Proof. unfold runWatchdogCheck. same_solved. Qed.

Lemma getDevFeeAddressForBatch_same s :
  solvedAddressChallenges (getDevFeeAddressForBatch s).2 = solvedAddressChallenges s.
Proof.
  unfold getDevFeeAddressForBatch.
  repeat (first [ reflexivity | progress cbn | case_match ]).
Qed.

Lemma prepareBatch_keeps W cid addrs ptr s :
  keepsSolved s (prepareBatch W cid addrs ptr s).2.
Proof.
  unfold prepareBatch. apply keepsSolved_same.
  destruct (negb _); [reflexivity|].
  destruct (List.filter _ addrs); [reflexivity|].
  pose proof (getDevFeeAddressForBatch_same s) as Hd.
  destruct (shouldMineDevFeeNow s).
  - destruct (getDevFeeAddressForBatch s) as [[devAddr|] sd]; simpl in Hd;
      destruct (collectBatch _ _ _ _ _ _) as [b ch];
      destruct (_ && _); try exact Hd; destruct b; cbn; exact Hd.
  - destruct (collectBatch _ _ _ _ _ _) as [b ch];
      destruct (_ && _); try reflexivity; destruct b; reflexivity.
Qed.

Lemma enterWorker_keeps addr devFee workerId maxFailures romReady now s :
  keepsSolved s (enterWorker addr devFee workerId maxFailures romReady now s).2.
Proof. unfold enterWorker. same_solved. Qed.

Lemma acceptSolution_same env addr ch nonce hash devFee r s :
  solvedAddressChallenges (acceptSolution env addr ch nonce hash devFee r s)
  = solvedAddressChallenges s.
Proof. unfold acceptSolution. by destruct devFee. Qed.

Lemma handleSubmitError_keeps isRetry retry env addr ch nonce hash e s :
  (forall s', keepsSolved s' (retry s').2) ->
  keepsSolved s (handleSubmitError isRetry retry env addr ch nonce hash e s).2.
Proof.
  intros Hretry. unfold handleSubmitError.
  destruct (isSolutionAlreadyExists e).
  { cbn [snd]. apply keepsSolved_add with (a' := bech32 addr) (c' := ch). reflexivity. }
  destruct (_ && _).
  { pose proof (registerAddress_keeps addr (registrationFailure env) s) as Hreg.
    destruct (registerAddress _ _ _) as [[] s1]; simpl in Hreg.
    - pose proof (Hretry s1) as Hr. destruct (retry s1) as [[] s2]; simpl in Hr; cbn [snd].
      + eapply keepsSolved_trans; eassumption.
      + eapply keepsSolved_trans; [exact Hreg|].
        eapply keepsSolved_trans; [exact Hr|]. same_solved.
    - cbn [snd]. eapply keepsSolved_trans; [exact Hreg|]. same_solved. }
  destruct (isTimeout e); same_solved.
Qed.

Lemma submitAttempt_keeps isRetry retry raw env addr ch nonce hash devFee s :
  (forall s', keepsSolved s' (retry s').2) ->
  keepsSolved s (submitAttempt isRetry retry raw env addr ch nonce hash devFee s).2.
Proof.
  intros Hretry. unfold submitAttempt.
  destruct (walletManager s); [|apply keepsSolved_refl].
  set (s0 := perform _ s).
  assert (H0 : keepsSolved s s0) by (subst s0; same_solved).
  destruct (axiosPost _ raw) as [r|e].
  - destruct (_ && _); cbn [snd].
    + eapply keepsSolved_trans; [exact H0|].
      apply keepsSolved_same, acceptSolution_same.
    + eapply keepsSolved_trans; [exact H0|]. by apply handleSubmitError_keeps.
  - eapply keepsSolved_trans; [exact H0|]. by apply handleSubmitError_keeps.
Qed.

Lemma submitSolution_keeps env addr ch nonce hash devFee s :
  keepsSolved s (submitSolution env addr ch nonce hash devFee s).2.
Proof.
  unfold submitSolution. apply submitAttempt_keeps. intros s'.
  apply submitAttempt_keeps. intros s''. apply keepsSolved_refl.
Qed.

(** The worker is taken for any difficulty predicate and preimage
    builder. *)
Variable matchesDifficulty : string -> string -> bool.
Variable buildPreimage : string -> string -> Challenge -> string.

Lemma loopHead_keeps w nonce s : keepsSolved s (loopHead buildPreimage w nonce s).2.
Proof.
  unfold loopHead. apply keepsSolved_same.
  repeat (first [ reflexivity | progress cbn | case_match ]).
Qed.

Lemma startWorker_keeps env addr devFee maxFailures s workerId :
  keepsSolved s (startWorker buildPreimage env addr devFee maxFailures s workerId).
Proof.
  unfold startWorker.
  pose proof (enterWorker_keeps addr devFee workerId maxFailures (romReadyAtEntry env)
                (entryNow env workerId) s) as He.
  destruct (enterWorker _ _ _ _ _ _ s) as [[w|] s1]; cbn [snd] in He; [|exact He].
  pose proof (loopHead_keeps w (nonceStart workerId) s1) as Hl.
  destruct (loopHead _ _ _ s1) as [h s2]; cbn [snd] in Hl.
  assert (H2 : keepsSolved s s2) by (eapply keepsSolved_trans; eassumption).
  destruct h; try exact H2;
    (eapply keepsSolved_trans; [exact H2|unfold finishWorker; same_solved]).
Qed.

Lemma launchGroups_keeps env currentId groups s :
  keepsSolved s (launchGroups buildPreimage env currentId groups s).
Proof.
  unfold launchGroups. apply fold_keeps. clear. intros s g. unfold launchGroup.
  destruct (negb _); [apply keepsSolved_refl|].
  destruct (g_address g); [|apply keepsSolved_refl].
  apply fold_keeps. intros. apply startWorker_keeps.
Qed.

Lemma batchLoop_keeps env W currentId addrs ptr s :
  keepsSolved s (batchLoop buildPreimage env W currentId addrs ptr s).2.
Proof.
  unfold batchLoop.
  assert (Hl : forall r : BatchStep * Orchestrator,
            keepsSolved s r.2 ->
            keepsSolved s
              (match r with
               | (Launch groups checked, s1) =>
                   (AwaitsWorkers groups checked,
                    launchGroups buildPreimage env currentId groups s1)
               | (Rewind, s1) => (NeverYields, s1)
               | (_, s1) => (Finished, s1)
               end).2).
  { intros [[] s1] H; cbn [snd] in *; try exact H.
    eapply keepsSolved_trans; [exact H|apply launchGroups_keeps]. }
  pose proof (prepareBatch_keeps W currentId addrs ptr s) as H1.
  destruct (prepareBatch W currentId addrs ptr s) as [step s1]. cbn [snd] in H1.
  assert (Hd : keepsSolved s (beginDevFeeAddress s))
    by (unfold beginDevFeeAddress; same_solved).
  destruct step; try exact H1; destruct (shouldMineDevFeeNow s); try exact Hd.
  - apply Hl. eapply keepsSolved_trans; [exact H1|apply prepareBatch_keeps].
  - apply (Hl (Launch groups checked, s1)). exact H1.
Qed.

Lemma startMining_keeps env s : keepsSolved s (startMining buildPreimage env s).2.
Proof.
  unfold startMining.
  destruct (currentChallenge s); [|apply keepsSolved_refl].
  destruct (currentChallengeId s) as [id|]; [|apply keepsSolved_refl].
  destruct (_ || _); [apply keepsSolved_refl|]. cbv zeta.
  destruct (List.filter _ _); [same_solved|].
  eapply keepsSolved_trans; [|apply batchLoop_keeps]. same_solved.
Qed.

Lemma handsBack_state (r : Started * Orchestrator) : (handsBack r).2 = r.2.
Proof. by destruct r as [[] s]. Qed.

Lemma hourlyRestart_keeps env s : keepsSolved s (hourlyRestart buildPreimage env s).2.
Proof.
  unfold hourlyRestart. destruct (negb (isRunning s)); [apply keepsSolved_refl|].
  cbv zeta. set (s8 := match currentChallenge _ with Some c => _ | None => _ end).
  assert (H8 : keepsSolved s s8).
  { subst s8. destruct (currentChallenge _); [rewrite waitForRom_effects|]; same_solved. }
  assert (H9 : keepsSolved s
                 (if isRunning s8 && bool_decide (is_Some (currentChallenge s8))
                     && truthy (currentChallengeId s8)
                  then handsBack (startMining buildPreimage (restartLaunch env) s8)
                  else (Ends Returned, s8)).2).
  { destruct (_ && _ && _); [|exact H8]. rewrite handsBack_state.
    eapply keepsSolved_trans; [exact H8|apply startMining_keeps]. }
  destruct (if _ && _ && _ then _ else _) as [res s9]. cbn [snd] in H9.
  destruct res; cbn [snd]; [|exact H9].
  eapply keepsSolved_trans; [exact H9|]. same_solved.
Qed.

Lemma watchdogRestart_keeps currentId env s :
  keepsSolved s (watchdogRestart buildPreimage currentId env s).2.
Proof.
  unfold watchdogRestart. destruct (_ && _); [|apply keepsSolved_refl].
  rewrite handsBack_state. apply startMining_keeps.
Qed.

Lemma pollAndMine_keeps env resp s :
  keepsSolved s (pollAndMine buildPreimage env resp s).2.
Proof.
  unfold pollAndMine, resumeWith.
  destruct (code resp); [apply keepsSolved_refl|..|apply stop_keeps].
  destruct (challenge resp) as [c|]; [|apply keepsSolved_refl].
  destruct (negb (bool_decide _)); [|same_solved].
  set (s1 := if _ && _ then transitionCleanup s else s).
  assert (H1 : keepsSolved s s1) by (subst s1; unfold transitionCleanup; same_solved).
  assert (Hr : forall s0, keepsSolved s s0 ->
            keepsSolved s
              (handsBack
                 (startMining buildPreimage (launch env)
                    (emit "status"
                       (loadChallengeState (challenge_id c) (adoptChallenge c s0))))).2).
  { intros s0 H0. rewrite handsBack_state.
    eapply keepsSolved_trans; [exact H0|].
    eapply keepsSolved_trans; [|apply startMining_keeps]. same_solved. }
  destruct (_ || _).
  - assert (H2 : keepsSolved s
                   (waitForRom (romWaits env) (perform (InitRom (no_pre_mine c)) s1))).
    { eapply keepsSolved_trans; [exact H1|]. rewrite waitForRom_effects. same_solved. }
    destruct (romReadyAfterInit env); [by apply Hr|exact H2].
  - by apply Hr.
Qed.

(** Sums and products that stay within [2^53] are exact. *)
Lemma roundDouble_exact (x : Z) :
  Z.abs x <= 9007199254740992 -> Js.roundDouble x = x.
Proof.
  intros H. unfold Js.roundDouble. cbv zeta.
  destruct (Z.abs x <=? 2 ^ 53) eqn:E; [reflexivity|].
  apply Z.leb_gt in E. change (2 ^ 53) with 9007199254740992 in E. lia.
Qed.

Lemma add_exact (a b : Z) : Z.abs (a + b) <= 9007199254740992 -> Js.add a b = a + b.
Proof. apply roundDouble_exact. Qed.

Lemma nonce_range_exact (workerId : Z) :
  0 <= workerId <= 9007198 ->
  nonceStart workerId = workerId * 1000000000
  /\ nonceEnd workerId = (workerId + 1) * 1000000000.
Proof.
  intros H.
  assert (Hs : nonceStart workerId = workerId * 1000000000).
  { unfold nonceStart, Js.mul, NONCE_RANGE_SIZE. apply roundDouble_exact. lia. }
  split; [exact Hs|]. unfold nonceEnd, NONCE_RANGE_SIZE. rewrite Hs.
  rewrite add_exact by lia. lia.
Qed.

Lemma generateBatch_nonces (w : Worker) (s : Orchestrator) (currentNonce : Z) :
  nonceEnd (w_workerId w) <= 9007199254740992 ->
  forall (remaining : nat) (i : Z) (acc items : list BatchItem),
    0 <= currentNonce + i <= nonceEnd (w_workerId w) ->
    generateBatch buildPreimage w s currentNonce remaining i acc = GenBatch items ->
    exists k : nat,
      map b_nonceNum items = map b_nonceNum acc ++ idsFrom (currentNonce + i) k
      /\ (k = 0%nat \/ currentNonce + i + Z.of_nat k <= nonceEnd (w_workerId w)).
Proof.
  intros Hend.
  induction remaining as [|r IH]; intros i acc items Hi H; simpl in H.
  - injection H as <-. exists 0%nat. split; [by rewrite app_nil_r|by left].
  - rewrite add_exact in H by lia.
    destruct (currentNonce + i <? nonceEnd (w_workerId w)) eqn:Hlt; simpl in H.
    2:{ injection H as <-. exists 0%nat. split; [by rewrite app_nil_r|by left]. }
    apply Z.ltb_lt in Hlt.
    destruct (bool_decide (w_workerId w ∈ stoppedWorkers s)); [discriminate|].
    destruct (negb (isRunning s) || negb (isMining s)
              || negb (bool_decide (currentChallengeId s = Some (w_challengeId w)))).
    { injection H as <-. exists 0%nat. split; [by rewrite app_nil_r|by left]. }
    destruct (bool_decide (submissionKey w ∈ pausedAddresses s)).
    { injection H as <-. exists 0%nat. split; [by rewrite app_nil_r|by left]. }
    apply IH in H as (k & Hk & Hb); [|lia]. exists (S k). split.
    + rewrite Hk, map_app, <- app_assoc, idsFrom_cons. simpl.
      by rewrite Z.add_assoc.
    + right. destruct Hb as [->|Hb]; lia.
Qed.

Lemma loopHead_batch (w : Worker) (currentNonce : Z) (s s1 : Orchestrator)
    (items : list BatchItem) (nextNonce : Z) :
  nonceEnd (w_workerId w) <= 9007199254740992 ->
  0 <= currentNonce ->
  loopHead buildPreimage w currentNonce s = (Batch items nextNonce, s1) ->
  exists k : nat,
    map b_nonceNum items = idsFrom currentNonce k
    /\ nextNonce = currentNonce + Z.of_nat k
    /\ currentNonce + Z.of_nat k <= nonceEnd (w_workerId w).
Proof.
  unfold loopHead. intros Hend H0 H.
  destruct (currentNonce <? nonceEnd (w_workerId w)) eqn:Hlt;
    [|by rewrite andb_false_r in H].
  apply Z.ltb_lt in Hlt.
  repeat match type of H with
         | (if ?b then _ else _) = _ => destruct b; try discriminate
         | match ?o with Some _ => _ | None => _ end = _ => destruct o; try discriminate
         end.
  destruct (generateBatch _ _ _ _ _ _ _) as [|[|it its]] eqn:G; try discriminate.
  assert (Hitems : items = it :: its) by congruence.
  assert (Hnext : nextNonce = Js.add currentNonce (Z.of_nat (List.length items)))
    by congruence.
  clear H. rewrite <- Hitems in G.
  apply generateBatch_nonces in G as (k & Hk & Hb); [|exact Hend|lia].
  change (map b_nonceNum [] ++ ?l) with l in Hk.
  rewrite Z.add_0_r in Hk, Hb. exists k.
  assert (Hlen : List.length items = k).
  { apply (f_equal (@List.length Z)) in Hk. rewrite length_map in Hk. rewrite Hk.
    unfold idsFrom. by rewrite length_map, length_seq. }
  assert (Hk' : currentNonce + Z.of_nat k <= nonceEnd (w_workerId w)).
  { destruct Hb as [->|Hb]; [|exact Hb]. rewrite Hitems in Hlen. discriminate Hlen. }
  split; [exact Hk|]. rewrite Hnext, Hlen. split; [apply add_exact; lia|exact Hk'].
Qed.

Lemma mineRounds_enumerated (w : Worker) :
  nonceEnd (w_workerId w) <= 9007199254740992 ->
  forall (rounds : list Round) (currentNonce hashCount : Z) (s : Orchestrator),
    0 <= currentNonce <= nonceEnd (w_workerId w) ->
    exists n : nat,
      enumerated (mineRounds matchesDifficulty buildPreimage w rounds currentNonce hashCount s)
      = idsFrom currentNonce n
      /\ currentNonce + Z.of_nat n <= nonceEnd (w_workerId w).
Proof.
  intros Hend.
  induction rounds as [|r rounds IH]; intros currentNonce hashCount s Hle.
  - exists 0%nat. split; [reflexivity|lia].
  - cbn [mineRounds].
    destruct (loopHead buildPreimage w currentNonce (meanwhile r s)) as [[] s1] eqn:Head;
      try (exists 0%nat; split; [reflexivity|lia]).
    + apply IH. exact Hle.
    + apply loopHead_batch in Head as (k & Hk & -> & Hb); [|exact Hend|lia].
      destruct (afterHash _ _ _ _ _ _ _ _ _) as [[] s2];
        try (exists k; split; [exact Hk|exact Hb]).
      destruct (IH (currentNonce + Z.of_nat k) (hashCount + hashesOf (hashed r)) s2
                  ltac:(lia))
        as (n & Hn & Hbn).
      exists (k + n)%nat. cbn [enumerated]. rewrite Hk, Hn, idsFrom_app.
      split; [reflexivity|lia].
Qed.

Lemma ranges_disjoint (i j x : Z) :
  i <> j ->
  i * NONCE_RANGE_SIZE <= x < (i + 1) * NONCE_RANGE_SIZE ->
  j * NONCE_RANGE_SIZE <= x < (j + 1) * NONCE_RANGE_SIZE ->
  False.
Proof. unfold NONCE_RANGE_SIZE. intros Hne Hi Hj. lia. Qed.

Lemma mineForAddress_in_range (w : Worker) (rounds : list Round) (s : Orchestrator) :
  0 <= w_workerId w <= 9007198 ->
  exists n : nat,
    enumerated (mineForAddress matchesDifficulty buildPreimage w rounds s)
    = idsFrom (w_workerId w * 1000000000) n
    /\ Z.of_nat n <= 1000000000.
Proof.
  intros Hid. destruct (nonce_range_exact _ Hid) as (Hs & He).
  destruct (mineRounds_enumerated w ltac:(lia) rounds (nonceStart (w_workerId w)) 0 s)
    as (n & Hn & Hb); [lia|].
  exists n. unfold mineForAddress. rewrite Hn, Hs. split; [reflexivity|lia].
Qed.

(** C6 (amended): for a worker id up to [9007198], whose range ends within
    [2^53], the mining loop puts into its batches consecutive nonces
    starting at [workerId * 10^9], all of them inside
    [[workerId * 10^9, (workerId + 1) * 10^9)]; the nonces of two such
    workers with different ids never meet; and once the nonce counter has
    reached the end of the range the next pass leaves the loop.  This holds
    whatever the rest of the program does to the shared state between the
    passes. *)
Theorem worker_nonces_sequential_and_disjoint (wi wj : Worker)
    (roundsI roundsJ : list Round) (si sj : Orchestrator) :
  0 <= w_workerId wi <= 9007198 ->
  0 <= w_workerId wj <= 9007198 ->
  w_workerId wi <> w_workerId wj ->
  let run w rounds s :=
    enumerated (mineForAddress matchesDifficulty buildPreimage w rounds s) in
  (exists n : nat,
     run wi roundsI si = idsFrom (w_workerId wi * 1000000000) n
     /\ Z.of_nat n <= 1000000000)
  /\ (forall x, x ∈ run wi roundsI si ->
        w_workerId wi * 1000000000 <= x < (w_workerId wi + 1) * 1000000000)
  /\ (forall x, x ∈ run wi roundsI si -> x ∉ run wj roundsJ sj)
  /\ (forall r rounds currentNonce hashCount s,
        nonceEnd (w_workerId wi) <= currentNonce ->
        let res := mineRounds matchesDifficulty buildPreimage wi (r :: rounds)
                     currentNonce hashCount s in
        enumerated res = [] /\ exited res = true).
Proof.
  intros Hi Hj Hne run.
  destruct (mineForAddress_in_range wi roundsI si Hi) as (n & Hn & Hb).
  destruct (mineForAddress_in_range wj roundsJ sj Hj) as (n' & Hn' & Hb').
  assert (Hin : forall x, x ∈ run wi roundsI si ->
                  w_workerId wi * 1000000000 <= x < (w_workerId wi + 1) * 1000000000).
  { intros x Hx. unfold run in Hx. rewrite Hn in Hx. apply idsFrom_elem in Hx. lia. }
  split; [exists n; split; assumption|]. split; [exact Hin|]. split.
  - intros x Hx Hx'. apply Hin in Hx. unfold run in Hx'. rewrite Hn' in Hx'.
    apply idsFrom_elem in Hx'.
    apply (ranges_disjoint (w_workerId wi) (w_workerId wj) x Hne);
      unfold NONCE_RANGE_SIZE; lia.
  - intros r rounds currentNonce hashCount s Hend res. subst res.
    cbn [mineRounds]. unfold loopHead.
    assert (Hc : (currentNonce <? nonceEnd (w_workerId wi)) = false)
      by (apply Z.ltb_ge; exact Hend).
    rewrite Hc, andb_false_r. cbn. split; reflexivity.
Qed.

Lemma settleSubmission_keeps w hash res s :
  keepsSolved s (settleSubmission w hash res s).2.
Proof.
  unfold settleSubmission. destruct res; cbn [snd]; [|same_solved].
  apply keepsSolved_add with (a' := bech32 (w_addr w)) (c' := w_challengeId w).
  reflexivity.
Qed.

Lemma checkDifficulty_keeps w hash vc s :
  (checkDifficulty matchesDifficulty w hash vc s).1 <> DiscardedDifficulty ->
  keepsSolved s (checkDifficulty matchesDifficulty w hash vc s).2.
Proof.
  unfold checkDifficulty. destruct (_ && _); cbn; [done|]. intros _. apply keepsSolved_refl.
Qed.

Lemma validateSolution_keeps w hash serverHashHex s :
  (validateSolution matchesDifficulty w hash serverHashHex s).1 <> DiscardedDifficulty ->
  keepsSolved s (validateSolution matchesDifficulty w hash serverHashHex s).2.
Proof.
  unfold validateSolution.
  destruct (currentChallenge s) as [vc|]; [|intros _; apply keepsSolved_refl].
  destruct (dataChanged _ _); [|apply checkDifficulty_keeps].
  destruct serverHashHex as [h|msg]; [|intros _; apply keepsSolved_refl].
  destruct (negb _); [intros _; same_solved|apply checkDifficulty_keeps].
Qed.

Lemma validateSolution_removes_only w hash serverHashHex s a c :
  (a, c) <> (bech32 (w_addr w), w_challengeId w) ->
  isSolved s a c = true ->
  isSolved (validateSolution matchesDifficulty w hash serverHashHex s).2 a c = true.
Proof.
  intros Hne Hs.
  assert (Hcd : forall vc, isSolved (checkDifficulty matchesDifficulty w hash vc s).2 a c = true).
  { intros vc. unfold checkDifficulty. destruct (_ && _); cbn [snd]; [|exact Hs].
    apply (isSolved_removeSolved_other (releaseLocks (submissionKey w) s)); [exact Hne|].
    exact Hs. }
  unfold validateSolution.
  destruct (currentChallenge s) as [vc|]; [|exact Hs].
  destruct (dataChanged _ _); [|apply Hcd].
  destruct serverHashHex as [h|msg]; [|exact Hs].
  destruct (negb _); [exact Hs|apply Hcd].
Qed.

Lemma reportProgress_keeps w hc hr now s : keepsSolved s (reportProgress w hc hr now s).
Proof. unfold reportProgress. same_solved. Qed.

(** C2 (amended): a pair in [solvedAddressChallenges] stays there under
    every operation of the orchestrator except one: the discard, in
    [mineForAddress], of a found hash that no longer meets the changed
    current difficulty, which deletes the worker's own challenge id from the
    set of the worker's own address and no other pair. *)
Theorem solved_kept_by_other_operations (o : Op) (s : Orchestrator) (addr ch : string) :
  isSolved s addr ch = true ->
  (isDifficultyDiscard matchesDifficulty o s = false ->
   isSolved (run matchesDifficulty buildPreimage o s) addr ch = true)
  /\ (forall w hash serverHashHex,
        o = OpValidateSolution w hash serverHashHex ->
        (addr, ch) <> (bech32 (w_addr w), w_challengeId w) ->
        isSolved (run matchesDifficulty buildPreimage o s) addr ch = true).
Proof.
  intros Hs. split.
  - intros Hnot. revert addr ch Hs. change (keepsSolved s (run matchesDifficulty buildPreimage o s)).
    destruct o; cbn [run].
    + apply start_keeps.
    + apply stop_keeps.
    + apply reinitialize_keeps.
    + apply updateConfiguration_keeps.
    + apply hourlyRestart_keeps.
    + apply runWatchdogCheck_keeps.
    + apply watchdogRestart_keeps.
    + apply pollAndMine_keeps.
    + apply startMining_keeps.
    + apply prepareBatch_keeps.
    + apply loadSubmittedSolutions_keeps.
    + apply loadChallengeState_keeps.
    + apply ensureAddressesRegistered_keeps.
    + apply registerAddress_keeps.
    + apply enterWorker_keeps.
    + apply loopHead_keeps.
    + unfold claimSubmission, stopSiblings. same_solved.
    + same_solved.
    + apply validateSolution_keeps. cbn [isDifficultyDiscard] in Hnot.
      intros E. rewrite E in Hnot. discriminate.
    + apply submitSolution_keeps.
    + apply settleSubmission_keeps.
    + unfold onBatchError. same_solved.
    + apply reportProgress_keeps.
    + same_solved.
  - intros w hash serverHashHex -> Hne. cbn [run].
    by apply validateSolution_removes_only.
Qed.


(** A whole hit, and a whole scan, keep every pair but the worker's own. *)
Lemma onSolutionFound_keeps_others (w : Worker) (item : BatchItem) (hash : string)
    (env : HitEnv) (s : Orchestrator) (a c : string) :
  (a, c) <> (bech32 (w_addr w), w_challengeId w) ->
  isSolved s a c = true ->
  isSolved (onSolutionFound matchesDifficulty w item hash env s).2 a c = true.
Proof.
  intros Hne Hs. unfold onSolutionFound.
  destruct (bool_decide (hash ∈ submittedSolutions s)); [exact Hs|].
  destruct (bool_decide (submissionKey w ∈ submittingAddresses s)); [exact Hs|].
  assert (Hc : isSolved (claimSubmission w hash s) a c = true) by exact Hs.
  destruct (negb _); [exact Hc|].
  pose proof (validateSolution_removes_only w hash (serverHash env) _ a c Hne Hc) as Hv.
  destruct (validateSolution _ _ _ _ _) as [[] s2]; cbn [snd] in Hv |- *; try exact Hv.
  pose proof (submitSolution_keeps (submitEnv env) (w_addr w) (w_challengeId w)
                (b_nonce item) hash (w_isDevFee w) s2 a c Hv) as Hsub.
  destruct (submitSolution _ _ _ _ _ _ _) as [res s3]; cbn [snd] in Hsub.
  by apply settleSubmission_keeps.
Qed.

Lemma scanBatch_keeps_others (w : Worker) (a c : string) :
  (a, c) <> (bech32 (w_addr w), w_challengeId w) ->
  forall (found : list (BatchItem * string * HitEnv)) (s : Orchestrator),
    isSolved s a c = true ->
    isSolved (scanBatch matchesDifficulty w found s).2 a c = true.
Proof.
  intros Hne. induction found as [|[[item hash] env] rest IH]; intros s Hs; [exact Hs|].
  cbn [scanBatch]. destruct (matchesDifficulty hash (w_difficulty w)); [|by apply IH].
  pose proof (onSolutionFound_keeps_others w item hash env s a c Hne Hs) as Hf.
  destruct (onSolutionFound _ _ _ _ _ _) as [[] s']; cbn [snd] in Hf |- *;
    [by apply IH|exact Hf|exact Hf].
Qed.

(** What the two discards of [onSolutionFound] do: the locks are released,
    the failure counter and the error log are untouched, the scan goes on,
    and the hash stays in [submittedSolutions]. *)
Lemma validation_discard_effects (w : Worker) (item : BatchItem) (hash : string)
    (env : HitEnv) (s : Orchestrator) :
  hash ∉ submittedSolutions s ->
  submissionKey w ∉ submittingAddresses s ->
  currentChallengeId s = Some (w_challengeId w) ->
  (let v := (validateSolution matchesDifficulty w hash (serverHash env)
               (claimSubmission w hash s)).1 in
   v = DiscardedRecomputed \/ v = DiscardedDifficulty) ->
  let r := onSolutionFound matchesDifficulty w item hash env s in
  r.1 = Continue
  /\ (submissionKey w ∉ submittingAddresses (r.2))
  /\ (submissionKey w ∉ pausedAddresses (r.2))
  /\ addressSubmissionFailures (r.2) = addressSubmissionFailures s
  /\ errors (r.2) = errors s
  /\ hash ∈ submittedSolutions (r.2).
Proof.
  intros Hnew Hfree Hvalid Hdiscard. unfold onSolutionFound.
  rewrite bool_decide_eq_false_2 by exact Hnew.
  rewrite bool_decide_eq_false_2 by exact Hfree.
  assert (Hid : currentChallengeId (claimSubmission w hash s) = Some (w_challengeId w))
    by exact Hvalid.
  rewrite Hid, bool_decide_eq_true_2 by reflexivity. cbn [negb].
  revert Hdiscard. cbv zeta. unfold validateSolution, checkDifficulty.
  destruct (currentChallenge (claimSubmission w hash s)) as [vc|];
    [|intros [H|H]; inversion H].
  destruct (dataChanged (w_challenge w) vc).
  - destruct (serverHash env) as [h|msg]; [|intros [H|H]; inversion H].
    destruct (negb (matchesDifficulty h (difficulty vc))).
    + intros _. cbn. repeat split;
        first [ reflexivity
              | intros Hin; apply elem_of_difference in Hin as [_ Hn];
                apply Hn, elem_of_singleton; reflexivity
              | apply elem_of_union_l, elem_of_singleton; reflexivity ].
    + destruct (_ && _).
      * intros _. cbn. repeat split;
        first [ reflexivity
              | intros Hin; apply elem_of_difference in Hin as [_ Hn];
                apply Hn, elem_of_singleton; reflexivity
              | apply elem_of_union_l, elem_of_singleton; reflexivity ].
      * intros [H|H]; inversion H.
  - destruct (_ && _).
    + intros _. cbn. repeat split;
        first [ reflexivity
              | intros Hin; apply elem_of_difference in Hin as [_ Hn];
                apply Hn, elem_of_singleton; reflexivity
              | apply elem_of_union_l, elem_of_singleton; reflexivity ].
    + intros [H|H]; inversion H.
Qed.

(** The error path that does treat a duplicate as solved: an exception
    whose message, read as the [catch] block reads it, names one. *)
Lemma duplicate_error_is_benign (env : SubmitEnv) (addr : DerivedAddress)
    (ch nonce hash : string) (devFee : bool) (e : JsError) (s : Orchestrator) :
  is_Some (walletManager s) ->
  axiosPost (fun st => st <? 500) (firstPost env) = Rejected e ->
  isSolutionAlreadyExists e = true ->
  let r := submitSolution env addr ch nonce hash devFee s in
  r.1 = Returned
  /\ isSolved r.2 (bech32 addr) ch = true
  /\ errors r.2
     = errors s
       ++ [mkErrorEntry (submitTs env) (bech32 addr) (index addr) ch nonce hash
             "Duplicate submission - solution already exists (another worker succeeded)"].
Proof.
  intros [wm Hwm] Hpost Hdup. unfold submitSolution, submitAttempt.
  rewrite Hwm, Hpost. unfold handleSubmitError. rewrite Hdup. cbn.
  repeat split. unfold isSolved, addSolved. cbn. rewrite lookup_insert_eq.
  apply bool_decide_eq_true. set_solver.
Qed.

End WorkerProperties.

(** ** Runs of the worker on concrete inputs *)

Section Runs.
Import Mining Scenario.

(** C1, evaluated where it fails: worker 0 finds [0080] under the captured
    mask [00ff].  Whether the current challenge now carries the mask [007f],
    or carries a new [latest_submission] under which the re-hash is [ff00],
    the solution is discarded: the scan goes on, both locks are released,
    the failure counter and the error log stay empty, and the hash is still
    in [submittedSolutions]. *)
Theorem discarded_hash_stays_submitted :
  let found (current : Challenge) :=
    onSolutionFound matchesDifficulty worker0 (item 0) "0080"
      (mkHitEnv (inl "ff00"%string) (replyWith accepted)) (miningOn current) in
  let discarded (r : Flow * Orchestrator) :=
    r.1 = Continue
    /\ (submissionKey worker0 ∉ submittingAddresses (r.2))
    /\ (submissionKey worker0 ∉ pausedAddresses (r.2))
    /\ addressSubmissionFailures (r.2) = ∅
    /\ errors (r.2) = []
    /\ effects (r.2) = [Emit "solution_submit"]
    /\ "0080"%string ∈ submittedSolutions (r.2) in
  matchesDifficulty "0080" (w_difficulty worker0) = true
  /\ discarded (found challenge1Harder)
  /\ discarded (found challenge1Moved).
Proof.
  cbv zeta. split; [reflexivity|].
  split; (split; [reflexivity|]);
    (split; [apply (bool_decide_eq_false _); vm_compute; reflexivity|]);
    (split; [apply (bool_decide_eq_false _); vm_compute; reflexivity|]);
    (split; [reflexivity|]); (split; [reflexivity|]); (split; [reflexivity|]);
    apply (bool_decide_eq_true _); vm_compute; reflexivity.
Qed.

(** C5, evaluated where it fails: the service answers 400 with the body
    [{ error: "solution already exists" }].  [submitSolution] throws
    "Server rejected solution: 400 Bad Request", the pair is not marked
    solved and the error log holds that rejection; the worker counts a
    failure and, with one failure allowed, gives the address up. *)
Theorem duplicate_reply_400_is_rethrown :
  let r := submitSolution (replyWith duplicateReply) addrA "**D07C10" (nonceHex 5)
             "0040" false (miningOn challenge1) in
  let f := onSolutionFound matchesDifficulty worker0 (item 5) "0040"
             (mkHitEnv (inl "0040"%string) (replyWith duplicateReply))
             (miningOn challenge1) in
  r.1 = Threw "Server rejected solution: 400 Bad Request"
  /\ isSolved (r.2) "addr1qxy" "**D07C10" = false
  /\ map e_error (errors (r.2)) = ["Server rejected solution: 400 Bad Request"%string]
  /\ f.1 = Continue
  /\ isSolved (f.2) "addr1qxy" "**D07C10" = false
  /\ addressSubmissionFailures (f.2) !! submissionKey worker0 = Some 1
  /\ (loopHead buildPreimage worker0 1 (f.2)).1 = MaxFailuresReached.
Proof. cbv zeta. repeat split; vm_compute; reflexivity. Qed.

(** C2, as first stated, fails: worker 0 has its solution accepted while
    worker 1 waits for its hashes, the difficulty is raised, and worker 1
    then discards a hash of its own: the pair worker 0 solved is gone. *)
Lemma solved_pair_removed_by_discard :
  let r := mineForAddress matchesDifficulty buildPreimage worker1 [worker1Round]
             twoWorkers in
  isSolved twoWorkers "addr1qxy" "**D07C10" = false
  /\ isSolved whenWorker1Resumes "addr1qxy" "**D07C10" = true
  /\ map r_hash (receipts whenWorker1Resumes) = ["0040"%string]
  /\ isSolved (final r) "addr1qxy" "**D07C10" = false
  /\ isDifficultyDiscard matchesDifficulty
       (OpValidateSolution worker1 "0080" (inl "0080"%string))
       (claimSubmission worker1 "0080" whenWorker1Resumes) = true.
Proof. cbv zeta. repeat split; vm_compute; reflexivity. Qed.

Lemma solved_kept_by_other_operations_witness :
  isSolved (run matchesDifficulty buildPreimage
              (OpPollAndMine (Scenario.pollAt 900000)
                 (mkResponse active (Some challenge2) ""))
              whenWorker1Resumes) "addr1qxy" "**D07C10" = true
  /\ isSolved (run matchesDifficulty buildPreimage
                 (OpValidateSolution worker1 "0080" (inl "0080"%string))
                 (claimSubmission worker1 "0080" earlierSolved))
       "addr1qxy" "**D07C0F" = true
  /\ isSolved (run matchesDifficulty buildPreimage
                 (OpValidateSolution worker1 "0080" (inl "0080"%string))
                 (claimSubmission worker1 "0080" earlierSolved))
       "addr1qxy" "**D07C10" = false.
Proof.
  split.
  - apply (proj1 (solved_kept_by_other_operations matchesDifficulty buildPreimage
                    (OpPollAndMine (Scenario.pollAt 900000)
                       (mkResponse active (Some challenge2) ""))
                    whenWorker1Resumes "addr1qxy" "**D07C10" eq_refl)).
    reflexivity.
  - split; [|reflexivity].
    apply (proj2 (solved_kept_by_other_operations matchesDifficulty buildPreimage
                    (OpValidateSolution worker1 "0080" (inl "0080"%string))
                    (claimSubmission worker1 "0080" earlierSolved)
                    "addr1qxy" "**D07C0F" eq_refl) worker1 "0080"
                 (inl "0080"%string) eq_refl).
    discriminate.
Defined.

(** C6, as first stated, fails for worker 9007200, whose range starts
    beyond [2^53]: there [currentNonce + i] is rounded to an even number,
    and the first batch of four holds one nonce twice and passes over the
    two odd ones. *)
Lemma nonces_repeat_beyond_exact_range :
  let run := enumerated (mineForAddress matchesDifficulty buildPreimage farWorker
                           [mkRound (fun s => s) (fun s => s) (Hashes []) None 0 0]
                           fourAtATime) in
  (enterWorker addrA false 9007200 1 true 0 fourAtATime).1 = Some farWorker
  /\ run = [9007200000000000; 9007200000000000; 9007200000000002; 9007200000000004]
  /\ ~ (exists n : nat, run = idsFrom (9007200 * 1000000000) n)
  /\ ~ NoDup run.
Proof.
  cbv zeta.
  assert (E : enumerated (mineForAddress matchesDifficulty buildPreimage farWorker
                            [mkRound (fun s => s) (fun s => s) (Hashes []) None 0 0]
                            fourAtATime)
              = [9007200000000000; 9007200000000000; 9007200000000002;
                 9007200000000004]) by (vm_compute; reflexivity).
  rewrite E. split; [reflexivity|]. split; [reflexivity|]. split.
  - intros [[|[|n]] H]; [discriminate|discriminate|].
    unfold idsFrom in H. cbn [seq map] in H. injection H as H _. lia.
  - intros H. apply NoDup_cons in H as [H _]. apply H, elem_of_cons. by left.
Qed.

Lemma worker_nonces_sequential_and_disjoint_witness :
  let run1 := enumerated (mineForAddress matchesDifficulty buildPreimage worker1
                            [worker1Round] twoWorkers) in
  let run0 := enumerated (mineForAddress matchesDifficulty buildPreimage worker0
                            [mkRound (fun s => s) (fun s => s) (HashFailed "408") None 0 0;
                             mkRound (fun s => s) (fun s => s) (Hashes []) None 0 0]
                            twoWorkers) in
  run1 = [1000000000]
  /\ run0 = [0; 1]
  /\ forall x, x ∈ run1 -> x ∉ run0.
Proof.
  cbv zeta. split; [reflexivity|]. split; [reflexivity|].
  apply (worker_nonces_sequential_and_disjoint matchesDifficulty buildPreimage
           worker1 worker0 [worker1Round] _ twoWorkers twoWorkers);
    simpl; lia.
Defined.

End Runs.

(** * Further properties *)

#[local] Set Warnings "-clear-no-such-hyp".

(** ** Fields an operation leaves alone *)

Ltac unchanged :=
  repeat (first [ done | progress cbn | progress simplify_eq | case_match ]).

Lemma fold_left_unchanged {A B : Type} (f : Mining.Orchestrator -> A -> Mining.Orchestrator)
    (proj : Mining.Orchestrator -> B) (l : list A) :
  (forall s x, proj (f s x) = proj s) ->
  forall s, proj (fold_left f l s) = proj s.
Proof.
  intros Hf. induction l as [|x l IH]; intros s; cbn [fold_left]; [done|].
  by rewrite IH, Hf.
Qed.

(** ** The dev-fee rotator: prefetch, rotation, persistence *)

Section DevFeeFurther.
Import DevFee.

Lemma firstInvalid_valid (i : nat) (l : list DevFeeAddress) :
  Forall (fun a => validPrefix (address a) = true) l -> firstInvalid i l = None.
Proof.
  intros H. revert i. induction H as [|a l Ha _ IH]; intros i; simpl; [done|].
  by rewrite Ha.
Qed.

(** [prefetchAddressPool] succeeds exactly when the rotator is enabled and
    the reply lists exactly ten addresses that all start with [tnight1] or
    [addr1]; it then stores them in reply order, stamps the fetch time,
    clears the last fetch error and leaves the configuration and the
    counters alone. *)
Theorem prefetchAddressPool_succeeds_iff (http : HttpOutcome) (now : Z) (m : Manager) :
  let r := prefetchAddressPool http now m in
  (r.1 = true <->
     isEnabled m = true
     /\ exists l, http = HttpData (Some l)
          /\ List.length l = 10%nat
          /\ Forall (fun a => validPrefix (devAddress a) = true) l)
  /\ (r.1 = true ->
        config r.2 = config m
        /\ map address (getAddressPool r.2) = map devAddress (default [] match http with HttpData d => d | _ => None end)
        /\ poolFetchedAt (cache r.2) = Some now
        /\ lastFetchError (cache r.2) = None
        /\ totalDevFeeSolutions (cache r.2) = totalDevFeeSolutions (cache m)
        /\ solutionsThisChallenge (cache r.2) = solutionsThisChallenge (cache m)
        /\ currentChallengeId (cache r.2) = currentChallengeId (cache m)).
Proof.
  unfold prefetchAddressPool. destruct (isEnabled m) eqn:En; cbn [negb].
  2:{ split; [split; [discriminate|intros [H _]; discriminate]|discriminate]. }
  destruct http as [[l|]|msg]; cbn [fst snd].
  - destruct (Nat.eqb (List.length l) 10) eqn:Len.
    + apply Nat.eqb_eq in Len.
      destruct (firstInvalid 0 (map (toDevFeeAddress now) l)) eqn:Fi; cbn [fst snd].
      * split; [|discriminate]. split; [discriminate|].
        intros (_ & l' & [= <-] & _ & Hall). exfalso.
        rewrite firstInvalid_valid in Fi; [discriminate|].
        apply Forall_map. exact Hall.
      * split.
        { split; [|done]. intros _. split; [done|]. exists l. split; [done|].
          split; [done|]. apply firstInvalid_None in Fi.
          rewrite Forall_map in Fi. exact Fi. }
        intros _. unfold getAddressPool. cbn. rewrite map_map. repeat split.
    + apply Nat.eqb_neq in Len. split; [|discriminate]. split; [discriminate|].
      intros (_ & l' & [= <-] & Hl & _). contradiction.
  - split; [|discriminate]. split; [discriminate|].
    intros (_ & l' & H & _). discriminate.
  - split; [|discriminate]. split; [discriminate|].
    intros (_ & l' & H & _). discriminate.
Qed.

Lemma iter_record_cache (n : nat) (m : Manager) :
  let m' := Nat.iter n recordDevFeeSolution m in
  config m' = config m
  /\ addressPool (cache m') = addressPool (cache m)
  /\ currentChallengeId (cache m') = currentChallengeId (cache m)
  /\ totalDevFeeSolutions (cache m') = totalDevFeeSolutions (cache m) + Z.of_nat n
  /\ default 0 (solutionsThisChallenge (cache m'))
     = default 0 (solutionsThisChallenge (cache m)) + Z.of_nat n.
Proof.
  cbv zeta. induction n as [|n IH].
  - cbn. split; [done|]. split; [done|]. split; [done|]. split; lia.
  - destruct IH as (Hc & Hp & Hid & Ht & Hs).
    change (Nat.iter (S n) recordDevFeeSolution m)
      with (recordDevFeeSolution (Nat.iter n recordDevFeeSolution m)).
    generalize dependent (Nat.iter n recordDevFeeSolution m). intros m' Hc Hp Hid Ht Hs.
    split; [exact Hc|]. split; [exact Hp|]. split; [exact Hid|].
    cbn [recordDevFeeSolution cache withCache totalDevFeeSolutions
         solutionsThisChallenge].
    split; [lia|].
    change (default 0 (solutionsThisChallenge (cache m')) + 1
            = default 0 (solutionsThisChallenge (cache m)) + Z.of_nat (S n)).
    lia.
Qed.

(** Rotation through the pool: within one challenge, after [n] recorded
    dev-fee solutions [getDevFeeAddress] answers the pool entry [n] places
    further on, wrapping around after the tenth; the total counter has grown
    by [n]. *)
Theorem getDevFeeAddress_after_solutions (ch : string) (m : Manager)
    (pool : list DevFeeAddress) (n : nat) :
  addressPool (cache m) = Some pool ->
  List.length pool = 10%nat ->
  currentChallengeId (cache m) = Js.value ch ->
  0 <= default 0 (solutionsThisChallenge (cache m)) ->
  let start := default 0 (solutionsThisChallenge (cache m)) in
  let m' := Nat.iter n recordDevFeeSolution m in
  exists a,
    pool !! Z.to_nat ((start + Z.of_nat n) mod 10) = Some a
    /\ (getDevFeeAddress ch m').1 = inl (address a)
    /\ totalDevFeeSolutions (cache m') = totalDevFeeSolutions (cache m) + Z.of_nat n.
Proof.
  intros Hpool Hlen Hid Hstart start m'.
  destruct (iter_record_cache n m) as (_ & Hp & Hc & Ht & Hs). fold m' in Hp, Hc, Ht, Hs.
  destruct (pool_index_defined pool (start + Z.of_nat n) Hlen ltac:(lia)) as (a & Ha & Hidx).
  exists a. split; [exact Ha|]. split; [|exact Ht].
  assert (Hcount : default 0 (solutionsThisChallenge (cache m')) = start + Z.of_nat n)
    by exact Hs.
  unfold getDevFeeAddress, hasValidAddressPool. rewrite Hp, Hpool, Hlen.
  rewrite sameChallenge_migrate, Hc, Hid. cbn [sameChallenge negb Nat.eqb].
  rewrite String.eqb_refl.
  assert (Hm : solutionsThisChallenge (migrate (cache m'))
               = Some (start + Z.of_nat n)).
  { unfold migrate. cbn. rewrite <- Hcount.
    by destruct (solutionsThisChallenge (cache m')). }
  rewrite Hm. cbn [addressPool migrate]. rewrite Hp, Hpool, Hidx. reflexivity.
Qed.

Lemma getDevFeeAddress_after_solutions_witness :
  let m := (getDevFeeAddress "**D07C10" Scenario.stocked).2 in
  (getDevFeeAddress "**D07C10" (Nat.iter 13 recordDevFeeSolution m)).1
  = inl "addr1dev3"%string.
Proof.
  intros m.
  destruct (getDevFeeAddress_after_solutions "**D07C10" m
              (map (toDevFeeAddress 0) Scenario.tenAddresses) 13
              eq_refl eq_refl eq_refl ltac:(vm_compute; discriminate))
    as (a & Ha & Hr & _).
  rewrite Hr. vm_compute in Ha. injection Ha as <-. reflexivity.
Defined.

(** The user's switch survives a restart: a manager rebuilt, without
    explicit configuration, from the cache that [setEnabled b] saved is
    enabled exactly when [b] is, and keeps the client id and the cache. *)
Theorem setEnabled_survives_restart (b : bool) (m : Manager) (id file generated : string) :
  cachedClientId (cache m) = Some id ->
  id <> ""%string ->
  let saved := cache (setEnabled b m) in
  let m' := construct emptyPartial saved file generated in
  enabled (config m') = b
  /\ isEnabled m' = b
  /\ clientId (config m') = id
  /\ cache m' = saved
  /\ addressPool (cache m') = addressPool (cache m)
  /\ totalDevFeeSolutions (cache m') = totalDevFeeSolutions (cache m).
Proof.
  intros Hid Hne saved m'.
  assert (Hb : String.eqb id "" = false) by (by apply String.eqb_neq).
  subst m' saved. unfold construct, isEnabled.
  destruct b; cbn; rewrite Hid, Hb; cbn; repeat split.
Qed.

Lemma setEnabled_survives_restart_witness :
  let m' := construct emptyPartial (cache (setEnabled false Scenario.stocked))
              "secure/.devfee_cache.json" "desktop-ff" in
  isEnabled Scenario.stocked = true
  /\ isEnabled m' = false
  /\ clientId (config m') = "desktop-00"%string.
Proof.
  intros m'. split; [reflexivity|].
  destruct (setEnabled_survives_restart false Scenario.stocked "desktop-00"
              "secure/.devfee_cache.json" "desktop-ff" eq_refl ltac:(discriminate))
    as (_ & He & Hc & _).
  split; [exact He|exact Hc].
Defined.

(** The legacy fetch never answers when the rotator is disabled; when it
    answers, the address is the one the cache then holds as
    [currentAddress], either fresh with a valid prefix and a use count of 0
    or the one cached before; when it throws although enabled, no address
    was cached and the error is recorded in [lastFetchError]. *)
Theorem fetchDevFeeAddress_outcomes (http : HttpOutcome) (now : Z) (m : Manager) :
  let r := fetchDevFeeAddress http now m in
  (isEnabled m = false -> exists msg, r = (inr msg, m))
  /\ (forall a, r.1 = inl a ->
        exists cur, currentAddress (cache r.2) = Some cur /\ address cur = a
          /\ ((validPrefix a = true /\ usedCount cur = 0 /\ fetchedAt cur = now
               /\ lastFetchError (cache r.2) = None)
              \/ (currentAddress (cache m) = Some cur
                  /\ is_Some (lastFetchError (cache r.2)))))
  /\ (forall msg, isEnabled m = true -> r.1 = inr msg ->
        currentAddress (cache m) = None
        /\ currentAddress (cache r.2) = None
        /\ is_Some (lastFetchError (cache r.2)))
  /\ addressPool (cache r.2) = addressPool (cache m).
Proof.
  unfold fetchDevFeeAddress. destruct (isEnabled m) eqn:En; cbn [negb].
  2:{ split; [eauto|]. split; [discriminate|]. split; [discriminate|done]. }
  split; [discriminate|].
  assert (Hfailed : forall errorMsg,
    let r := match currentAddress (cache m) with
             | Some cached =>
                 (inl (address cached),
                  withCache m (withCurrentAddress (currentAddress (cache m))
                                 (Some errorMsg) (cache m)))
             | None =>
                 (inr ("Failed to fetch dev fee address: " ++ errorMsg)%string,
                  withCache m (withCurrentAddress (currentAddress (cache m))
                                 (Some errorMsg) (cache m)))
             end : (string + string) * Manager in
    (forall a, r.1 = inl a ->
        exists cur, currentAddress (cache r.2) = Some cur /\ address cur = a
          /\ ((validPrefix a = true /\ usedCount cur = 0 /\ fetchedAt cur = now
               /\ lastFetchError (cache r.2) = None)
              \/ (currentAddress (cache m) = Some cur
                  /\ is_Some (lastFetchError (cache r.2)))))
    /\ (forall msg, true = true -> r.1 = inr msg ->
          currentAddress (cache m) = None
          /\ currentAddress (cache r.2) = None
          /\ is_Some (lastFetchError (cache r.2)))
    /\ addressPool (cache r.2) = addressPool (cache m)).
  { intros errorMsg. destruct (currentAddress (cache m)) as [cached|] eqn:Cur; cbn.
    - split; [|split; [discriminate|done]].
      intros a [= <-]. exists cached. eauto 10.
    - split; [discriminate|]. split; [|done]. intros msg _ _. eauto. }
  destruct http as [[[|firstAddress rest]|]|msg]; try apply Hfailed.
  destruct (validPrefix (devAddress firstAddress)) eqn:V; [|apply Hfailed].
  cbn. split; [|split; [discriminate|done]].
  intros a [= <-]. eexists. split; [reflexivity|]. split; [reflexivity|].
  left. auto.
Qed.

End DevFeeFurther.

(** ** Start-up: recovery from the receipts, registration, start and restart *)

Section RecoveryFurther.
Import Mining.

Lemma isSolved_recordReceipt (s : Orchestrator) (r : ReceiptEntry) (a c : string) :
  isSolved (recordReceipt s r) a c = true
  <-> isSolved s a c = true \/ (r_address r = a /\ r_challenge_id r = c).
Proof.
  unfold recordReceipt, isSolved, addSolved.
  assert (E : solvedAddressChallenges
                (if String.eqb (r_hash r) "" then s
                 else set_submittedSolutions ({[r_hash r]} ∪ submittedSolutions s) s)
              = solvedAddressChallenges s) by (by destruct (String.eqb _ _)).
  cbn. rewrite E. clear E.
  destruct (decide (r_address r = a)) as [<-|Hne].
  - rewrite lookup_insert_eq, bool_decide_eq_true.
    destruct (solvedAddressChallenges s !! r_address r) as [set|]; cbn.
    + rewrite bool_decide_eq_true, elem_of_union, elem_of_singleton. naive_solver.
    + rewrite elem_of_union, elem_of_singleton. split.
      * intros [->|H]; [by right|]. by apply elem_of_empty in H.
      * intros [H|[_ ->]]; [discriminate|by left].
  - rewrite lookup_insert_ne by exact Hne. naive_solver.
Qed.

Lemma submitted_recordReceipt (s : Orchestrator) (r : ReceiptEntry) (h : string) :
  h ∈ submittedSolutions (recordReceipt s r)
  <-> h ∈ submittedSolutions s \/ (r_hash r = h /\ h <> ""%string).
Proof.
  unfold recordReceipt. destruct (String.eqb (r_hash r) "") eqn:E; cbn.
  - apply String.eqb_eq in E. split; [by left|]. intros [H|[<- H]]; [exact H|done].
  - apply String.eqb_neq in E. rewrite elem_of_union, elem_of_singleton. split.
    + intros [->|H]; [by right|by left].
    + intros [H|[<- _]]; [by right|by left].
Qed.

Lemma recordReceipt_frame (s : Orchestrator) (r : ReceiptEntry) :
  let s' := recordReceipt s r in
  userSolutionsCount s' = userSolutionsCount s
  /\ devFeeManager s' = devFeeManager s
  /\ receipts s' = receipts s
  /\ addresses s' = addresses s
  /\ walletManager s' = walletManager s
  /\ effects s' = effects s
  /\ isRunning s' = isRunning s.
Proof. unfold recordReceipt. by destruct (String.eqb (r_hash r) ""). Qed.

Lemma fold_recordReceipt (l : list ReceiptEntry) :
  forall s : Orchestrator,
    let s' := fold_left recordReceipt l s in
    (forall a c, isSolved s' a c = true
       <-> isSolved s a c = true
           \/ exists r, r ∈ l /\ r_address r = a /\ r_challenge_id r = c)
    /\ (forall h, h ∈ submittedSolutions s'
          <-> h ∈ submittedSolutions s
              \/ exists r, r ∈ l /\ r_hash r = h /\ h <> ""%string)
    /\ userSolutionsCount s' = userSolutionsCount s
    /\ devFeeManager s' = devFeeManager s
    /\ receipts s' = receipts s
    /\ addresses s' = addresses s
    /\ walletManager s' = walletManager s
    /\ effects s' = effects s
    /\ isRunning s' = isRunning s.
Proof.
  induction l as [|r l IH]; intros s; cbn [fold_left].
  - split; [|split]; [| |done].
    + intros a c. split; [by left|]. intros [H|(r & Hr & _)]; [exact H|].
      by apply elem_of_nil in Hr.
    + intros h. split; [by left|]. intros [H|(r & Hr & _)]; [exact H|].
      by apply elem_of_nil in Hr.
  - destruct (IH (recordReceipt s r)) as (Hs & Hh & Hu & Hd & Hr & Ha & Hw & He & Hrun).
    destruct (recordReceipt_frame s r) as (Hu0 & Hd0 & Hr0 & Ha0 & Hw0 & He0 & Hrun0).
    split; [|split]; [| |by rewrite Hu, Hd, Hr, Ha, Hw, He, Hrun].
    + intros a c. rewrite Hs, isSolved_recordReceipt. split.
      * intros [[H|H]|(r' & Hin & H)]; [by left| |].
        -- right. exists r. split; [apply elem_of_cons; by left|exact H].
        -- right. exists r'. split; [apply elem_of_cons; by right|exact H].
      * intros [H|(r' & Hin & H)]; [by left; left|].
        apply elem_of_cons in Hin as [->|Hin]; [by left; right|].
        right. by exists r'.
    + intros h. rewrite Hh, submitted_recordReceipt. split.
      * intros [[H|H]|(r' & Hin & H)]; [by left| |].
        -- right. exists r. split; [apply elem_of_cons; by left|exact H].
        -- right. exists r'. split; [apply elem_of_cons; by right|exact H].
      * intros [H|(r' & Hin & H)]; [by left; left|].
        apply elem_of_cons in Hin as [->|Hin]; [by left; right|].
        right. by exists r'.
Qed.

Lemma or_exists_split {T : Type} (A : Prop) (U D P : T -> Prop) :
  ((A \/ exists r, U r /\ P r) \/ (exists r, D r /\ P r))
  <-> (A \/ exists r, (U r \/ D r) /\ P r).
Proof.
  split.
  - intros [[H|(r & Hu & Hp)]|(r & Hd & Hp)]; [by left|right; exists r; tauto..].
  - intros [H|(r & [Hu|Hd] & Hp)]; [by left; left|left; right; by exists r|right; by exists r].
Qed.

(** What [loadSubmittedSolutions] rebuilds from the receipts: a pair is
    solved afterwards exactly when it was before or some receipt, dev-fee
    receipts included, carries it; a hash is in [submittedSolutions] exactly
    when it was before or is the non-empty hash of a receipt; the user
    counter is the number of user receipts and the dev-fee rotator's total
    the number of dev-fee receipts, whatever the cache said. *)
Theorem loadSubmittedSolutions_recovers (s : Orchestrator) :
  let s' := loadSubmittedSolutions s in
  (forall a c, isSolved s' a c = true
     <-> isSolved s a c = true
         \/ exists r, r ∈ receipts s /\ r_address r = a /\ r_challenge_id r = c)
  /\ (forall h, h ∈ submittedSolutions s'
        <-> h ∈ submittedSolutions s
            \/ exists r, r ∈ receipts s /\ r_hash r = h /\ h <> ""%string)
  /\ userSolutionsCount s'
     = Z.of_nat (List.length (List.filter (fun r => negb (isDevFee r)) (receipts s)))
  /\ DevFee.getTotalDevFeeSolutions (devFeeManager s')
     = Z.of_nat (List.length (List.filter isDevFee (receipts s)))
  /\ DevFee.addressPool (DevFee.cache (devFeeManager s'))
     = DevFee.addressPool (DevFee.cache (devFeeManager s))
  /\ receipts s' = receipts s.
Proof.
  unfold loadSubmittedSolutions. cbv zeta.
  set (users := List.filter (fun r => negb (isDevFee r)) (receipts s)).
  set (devs := List.filter isDevFee (receipts s)).
  set (s2 := if _ =? _ then _ else _).
  assert (Hsplit : forall r, r ∈ receipts s <-> r ∈ users \/ r ∈ devs).
  { intros r. subst users devs. rewrite !list_elem_of_In, !filter_In, <- !list_elem_of_In.
    destruct (isDevFee r); naive_solver. }
  assert (H2 : solvedAddressChallenges s2 = solvedAddressChallenges s
               /\ submittedSolutions s2 = submittedSolutions s
               /\ userSolutionsCount s2 = Z.of_nat (List.length users)
               /\ DevFee.getTotalDevFeeSolutions (devFeeManager s2)
                  = Z.of_nat (List.length devs)
               /\ DevFee.addressPool (DevFee.cache (devFeeManager s2))
                  = DevFee.addressPool (DevFee.cache (devFeeManager s))
               /\ receipts s2 = receipts s).
  { subst s2. cbn.
    destruct (_ =? _) eqn:E; cbn; [apply Z.eqb_eq in E|]; repeat split; exact E. }
  destruct H2 as (Hm2 & Hh2 & Hu2 & Hd2 & Hp2 & Hr2).
  destruct (fold_recordReceipt users s2) as (Hs & Hh & Hu & Hd & Hr & _).
  destruct (fold_recordReceipt devs (fold_left recordReceipt users s2))
    as (Hs' & Hh' & Hu' & Hd' & Hr' & _).
  cbv zeta in *.
  split; [|split; [|split; [|split; [|split]]]].
  - intros a c. rewrite Hs', Hs.
    assert (E : isSolved s2 a c = isSolved s a c) by (unfold isSolved; by rewrite Hm2).
    rewrite E. setoid_rewrite Hsplit. apply or_exists_split.
  - intros h. rewrite Hh', Hh, Hh2. setoid_rewrite Hsplit. apply or_exists_split.
  - by rewrite Hu', Hu.
  - by rewrite Hd', Hd.
  - by rewrite Hd', Hd.
  - by rewrite Hr', Hr.
Qed.

End RecoveryFurther.

(** ** The per-challenge state restored from the receipts *)

Section ChallengeStateFurther.
Import Mining.

Lemma findIndex_iff (target : string) (l : list DerivedAddress) :
  forall i k : Z,
    0 <= i ->
    (findIndex target l i = k /\ k <> -1)
    <-> (i <= k
         /\ exists a, l !! Z.to_nat (k - i) = Some a /\ bech32 a = target
              /\ forall (j : nat) a', (j < Z.to_nat (k - i))%nat ->
                   l !! j = Some a' -> bech32 a' <> target).
Proof.
  induction l as [|a l IH]; intros i k Hi; cbn [findIndex].
  - split; [intros [<- H]; done|]. intros (_ & a & H & _). discriminate.
  - destruct (String.eqb (bech32 a) target) eqn:E.
    + apply String.eqb_eq in E. split.
      * intros [<- _]. split; [lia|]. exists a. rewrite Z.sub_diag. split; [done|].
        split; [done|]. intros j a' Hj. simpl in Hj. lia.
      * intros (Hik & a0 & Ha0 & Ht & Hfirst).
        destruct (decide (k = i)) as [->|Hne]; [split; [done|lia]|].
        exfalso. apply (Hfirst 0%nat a); [lia|done|exact E].
    + apply String.eqb_neq in E. rewrite (IH (i + 1) k) by lia. split.
      * intros (Hik & a0 & Ha0 & Ht & Hfirst). split; [lia|]. exists a0.
        replace (Z.to_nat (k - i)) with (S (Z.to_nat (k - (i + 1)))) by lia.
        split; [exact Ha0|]. split; [exact Ht|].
        intros [|j] a' Hj Hl; [by injection Hl as <-|].
        apply (Hfirst j a'); [lia|exact Hl].
      * intros (Hik & a0 & Ha0 & Ht & Hfirst).
        destruct (decide (k = i)) as [->|Hne].
        { rewrite Z.sub_diag in Ha0. injection Ha0 as <-. contradiction. }
        split; [lia|]. exists a0.
        replace (Z.to_nat (k - i)) with (S (Z.to_nat (k - (i + 1)))) in Ha0, Hfirst by lia.
        split; [exact Ha0|]. split; [exact Ht|].
        intros j a' Hj Hl. apply (Hfirst (S j) a'); [lia|exact Hl].
Qed.

Lemma processed_fold (addrs : list DerivedAddress) (l : list ReceiptEntry) :
  forall (acc : gset Z) (k : Z),
    k ∈ fold_left
          (fun (acc : gset Z) r =>
             let addressIndex := findIndex (r_address r) addrs 0 in
             if addressIndex =? -1 then acc else {[addressIndex]} ∪ acc) l acc
    <-> k ∈ acc \/ exists r, r ∈ l /\ findIndex (r_address r) addrs 0 = k /\ k <> -1.
Proof.
  induction l as [|r l IH]; intros acc k; cbn [fold_left].
  - split; [by left|]. intros [H|(r & Hr & _)]; [exact H|]. by apply elem_of_nil in Hr.
  - rewrite IH. cbv zeta. destruct (findIndex (r_address r) addrs 0 =? -1) eqn:E.
    + apply Z.eqb_eq in E. split.
      * intros [H|(r' & Hin & H)]; [by left|]. right. exists r'.
        split; [apply elem_of_cons; by right|exact H].
      * intros [H|(r' & Hin & Hk & Hne)]; [by left|].
        apply elem_of_cons in Hin as [->|Hin]; [congruence|]. right. by exists r'.
    + apply Z.eqb_neq in E. rewrite elem_of_union, elem_of_singleton. split.
      * intros [[->|H]|(r' & Hin & H)]; [|by left|].
        -- right. exists r. split; [apply elem_of_cons; by left|done].
        -- right. exists r'. split; [apply elem_of_cons; by right|exact H].
      * intros [H|(r' & Hin & Hk & Hne)]; [by left; right|].
        apply elem_of_cons in Hin as [->|Hin]; [by left; left|]. right. by exists r'.
Qed.

(** [loadChallengeState] counts every receipt of the challenge, dev-fee
    receipts included, into [solutionsFound], and rebuilds
    [addressesProcessedCurrentChallenge] from nothing: a number is in it
    afterwards exactly when it is the position, in [addresses], of the first
    address whose [bech32] is the address of some user receipt of the
    challenge.  Receipts of addresses the wallet does not hold, and
    whatever the set held before, leave no trace. *)
Theorem loadChallengeState_restores (challengeId : string) (s : Orchestrator) :
  let s' := loadChallengeState challengeId s in
  solutionsFound s'
  = Z.of_nat (List.length
                (List.filter (fun r => String.eqb (r_challenge_id r) challengeId) (receipts s)))
  /\ (forall k : Z,
        k ∈ addressesProcessedCurrentChallenge s'
        <-> 0 <= k
            /\ exists r a,
                 r ∈ receipts s /\ r_challenge_id r = challengeId /\ isDevFee r = false
                 /\ addresses s !! Z.to_nat k = Some a /\ bech32 a = r_address r
                 /\ forall (j : nat) a', (j < Z.to_nat k)%nat ->
                      addresses s !! j = Some a' -> bech32 a' <> r_address r)
  /\ solvedAddressChallenges s' = solvedAddressChallenges s
  /\ submittedSolutions s' = submittedSolutions s
  /\ effects s' = effects s ++ [Emit "stats"].
Proof.
  unfold loadChallengeState. cbv zeta. cbn.
  split; [reflexivity|]. split; [|done].
  intros k. rewrite processed_fold. split.
  - intros [H|(r & Hin & Hk)]; [by apply elem_of_empty in H|].
    apply (findIndex_iff (r_address r) (addresses s) 0 k) in Hk as (H0 & a & Ha & Hb & Hfirst);
      [|lia].
    rewrite Z.sub_0_r in Ha, Hfirst. split; [exact H0|]. exists r, a.
    apply list_elem_of_In, filter_In in Hin as [Hin Hu].
    apply filter_In in Hin as [Hin Hc]. apply String.eqb_eq in Hc.
    apply negb_true_iff in Hu. apply list_elem_of_In in Hin. done.
  - intros (H0 & r & a & Hin & Hc & Hu & Ha & Hb & Hfirst). right. exists r. split.
    + apply list_elem_of_In, filter_In. split.
      * apply filter_In. split; [by apply list_elem_of_In|by apply String.eqb_eq].
      * by rewrite Hu.
    + apply (findIndex_iff (r_address r) (addresses s) 0 k); [lia|].
      rewrite Z.sub_0_r. split; [exact H0|]. by exists a.
Qed.

End ChallengeStateFurther.

(** ** Registration, start and restart *)

Section StartupFurther.
Import Mining.

Lemma registerOne_spec (outcome : DerivedAddress -> option string) (s : Orchestrator)
    (addr : DerivedAddress) (wm : WalletManager) :
  walletManager s = Some wm ->
  let s' := registerOne outcome s addr in
  let ok := bool_decide (outcome addr = None) in
  walletManager s'
  = Some (mkWallet (markedRegistered wm ++ (if ok then [index addr] else [])))
  /\ addresses s' = (if ok then markRegistered (index addr) (addresses s) else addresses s)
  /\ effects s'
     = effects s ++ Emit "registration_progress" :: RegisterAddress (bech32 addr)
         :: Emit "registration_progress" :: (if ok then [Sleep 1500] else []).
Proof.
  intros Hwm.
  assert (Hwm' : walletManager (emit "registration_progress" s) = Some wm) by exact Hwm.
  unfold registerOne, registerAddress. rewrite Hwm'.
  destruct (outcome addr) as [msg|]; cbn.
  - split; [rewrite app_nil_r; by destruct wm|]. split; [done|]. by rewrite <- !app_assoc.
  - split; [done|]. split; [done|]. by rewrite <- !app_assoc.
Qed.

Lemma registerOne_frame (outcome : DerivedAddress -> option string) (s : Orchestrator)
    (addr : DerivedAddress) :
  let s' := registerOne outcome s addr in
  devFeeManager s' = devFeeManager s
  /\ receipts s' = receipts s
  /\ currentChallenge s' = currentChallenge s
  /\ currentChallengeId s' = currentChallengeId s
  /\ isMining s' = isMining s
  /\ isRunning s' = isRunning s
  /\ submittedSolutions s' = submittedSolutions s
  /\ userSolutionsCount s' = userSolutionsCount s
  /\ stoppedWorkers s' = stoppedWorkers s.
Proof.
  unfold registerOne, registerAddress.
  repeat (first [ done | progress cbn | progress simplify_eq | case_match ]).
Qed.

Lemma ensure_fold (outcome : DerivedAddress -> option string) (l : list DerivedAddress) :
  forall (s : Orchestrator) (wm : WalletManager),
    walletManager s = Some wm ->
    let s' := fold_left (registerOne outcome) l s in
    let done := List.filter (fun a => bool_decide (outcome a = None)) l in
    walletManager s' = Some (mkWallet (markedRegistered wm ++ map index done))
    /\ addresses s' = fold_left (fun acc a => markRegistered (index a) acc) done (addresses s)
    /\ map (fun e => match e with RegisterAddress a => Some a | _ => None end) (effects s')
       = map (fun e => match e with RegisterAddress a => Some a | _ => None end) (effects s)
         ++ flat_map (fun a => [None; Some (bech32 a); None]
                                 ++ (if bool_decide (outcome a = None) then [None] else [])) l.
Proof.
  induction l as [|a l IH]; intros s wm Hwm; cbn [fold_left List.filter flat_map].
  - cbn. rewrite !app_nil_r. by destruct wm.
  - destruct (registerOne_spec outcome s a wm Hwm) as (Hw & Ha & He). cbv zeta in Hw, Ha, He.
    destruct (IH _ _ Hw) as (Hw' & Ha' & He'). cbv zeta in Hw', Ha', He'.
    rewrite Hw', Ha', He', Ha, He. clear.
    destruct (bool_decide (outcome a = None)); cbn [map fold_left markedRegistered];
      rewrite ?app_nil_r, ?map_app, <- ?app_assoc; cbn [map app]; done.
Qed.

Lemma ensure_fold_frame (outcome : DerivedAddress -> option string) (l : list DerivedAddress) :
  forall s : Orchestrator,
    let s' := fold_left (registerOne outcome) l s in
    devFeeManager s' = devFeeManager s
    /\ receipts s' = receipts s
    /\ currentChallenge s' = currentChallenge s
    /\ currentChallengeId s' = currentChallengeId s
    /\ isMining s' = isMining s
    /\ isRunning s' = isRunning s
    /\ submittedSolutions s' = submittedSolutions s
    /\ userSolutionsCount s' = userSolutionsCount s
    /\ stoppedWorkers s' = stoppedWorkers s.
Proof.
  induction l as [|a l IH]; intros s; cbn [fold_left]; [done|].
  destruct (IH (registerOne outcome s a)) as (H1 & H2 & H3 & H4 & H5 & H6 & H7 & H8 & H9).
  destruct (registerOne_frame outcome s a) as (G1 & G2 & G3 & G4 & G5 & G6 & G7 & G8 & G9).
  cbv zeta in *.
  by rewrite H1, H2, H3, H4, H5, H6, H7, H8, H9.
Qed.

Lemma markRegistered_fold (marks : list DerivedAddress) :
  forall addrs : list DerivedAddress,
    fold_left (fun acc a => markRegistered (index a) acc) marks addrs
    = map (fun a => if bool_decide (index a ∈ map index marks)
                    then mkDerived (index a) (bech32 a) (publicKeyHex a) true
                    else a) addrs.
Proof.
  induction marks as [|m marks IH]; intros addrs; cbn [fold_left map].
  - induction addrs as [|a addrs IHa]; [done|]. cbn [map]. rewrite <- IHa.
    rewrite bool_decide_eq_false_2; [done|]. apply not_elem_of_nil.
  - rewrite IH. unfold markRegistered. rewrite map_map. apply map_ext. intros a.
    destruct (index a =? index m) eqn:E; [apply Z.eqb_eq in E|apply Z.eqb_neq in E]; cbn.
    + rewrite (bool_decide_eq_true_2 (index a ∈ index m :: map index marks))
        by (rewrite E; apply elem_of_cons; by left).
      by destruct (bool_decide _).
    + destruct (decide (index a ∈ map index marks)) as [Hin|Hin].
      * rewrite !bool_decide_eq_true_2; [done| |exact Hin]. apply elem_of_cons. by right.
      * rewrite !bool_decide_eq_false_2; [done| |exact Hin].
        intros H. apply elem_of_cons in H as [H|H]; done.
Qed.

(** [ensureAddressesRegistered] tries every unregistered address once, in
    wallet order, and a failure does not stop the loop: with a wallet
    manager in place and wallet indexes that are pairwise different, an
    address is registered afterwards exactly when it was before or its own
    registration went through; the wallet manager is told the indexes that
    went through, in order; the addresses and the rest of their data are
    unchanged. *)
Theorem ensureAddressesRegistered_outcome (outcome : DerivedAddress -> option string)
    (s : Orchestrator) (wm : WalletManager) :
  walletManager s = Some wm ->
  NoDup (map index (addresses s)) ->
  let s' := ensureAddressesRegistered outcome s in
  let went (a : DerivedAddress) := negb (registered a) && bool_decide (outcome a = None) in
  addresses s'
  = map (fun a => mkDerived (index a) (bech32 a) (publicKeyHex a) (registered a || went a))
        (addresses s)
  /\ walletManager s'
     = Some (mkWallet (markedRegistered wm ++ map index (List.filter went (addresses s))))
  /\ omap (fun e => match e with RegisterAddress a => Some a | _ => None end) (effects s')
     = omap (fun e => match e with RegisterAddress a => Some a | _ => None end) (effects s)
       ++ map bech32 (List.filter (fun a => negb (registered a)) (addresses s)).
Proof.
  intros Hwm Hnd s' went. subst s'. unfold ensureAddressesRegistered.
  set (unregistered := List.filter (fun a => negb (registered a)) (addresses s)).
  destruct (ensure_fold outcome unregistered s wm Hwm) as (Hw & Ha & He).
  cbv zeta in Hw, Ha, He.
  assert (Hdone : List.filter (fun a => bool_decide (outcome a = None)) unregistered
                  = List.filter went (addresses s)).
  { subst unregistered went. clear. induction (addresses s) as [|a l IH]; [done|].
    cbn [List.filter]. destruct (registered a); cbn [negb andb List.filter].
    - exact IH.
    - destruct (bool_decide (outcome a = None)); by rewrite IH. }
  rewrite Hdone in Hw, Ha. split; [|split; [exact Hw|]].
  - rewrite Ha, markRegistered_fold. apply map_ext_in. intros a Hin.
    destruct (decide (index a ∈ map index (List.filter went (addresses s)))) as [Hidx|Hidx].
    + rewrite bool_decide_eq_true_2 by exact Hidx.
      apply list_elem_of_fmap in Hidx as (b & Hb & Hbin).
      apply list_elem_of_In, filter_In in Hbin as [Hbin Hwent].
      assert (b = a) as ->.
      { apply list_elem_of_In in Hin, Hbin.
        apply list_elem_of_lookup in Hin as (i & Hi). apply list_elem_of_lookup in Hbin as (j & Hj).
        assert (i = j) as ->; [|congruence].
        apply (NoDup_lookup _ i j (index a) Hnd);
          rewrite list_lookup_fmap; [rewrite Hi|rewrite Hj]; cbn; congruence. }
      rewrite Hwent. by rewrite orb_true_r.
    + rewrite bool_decide_eq_false_2 by exact Hidx.
      assert (Hw' : went a = false).
      { destruct (went a) eqn:E; [|done]. exfalso. apply Hidx.
        apply list_elem_of_fmap. exists a. split; [done|].
        apply list_elem_of_In, filter_In. by split. }
      rewrite Hw', orb_false_r. by destruct a.
  - clear Hw Ha Hdone.
    assert (Homap : forall l : list Effect,
               omap (fun e => match e with RegisterAddress a => Some a | _ => None end) l
               = omap id (map (fun e => match e with RegisterAddress a => Some a | _ => None end) l)).
    { induction l as [|e l IH]; [done|]. cbn. rewrite <- IH. by destruct e. }
    rewrite !Homap, He, omap_app. f_equal. clear.
    induction unregistered as [|a l IH]; [done|].
    cbn [flat_map map]. rewrite omap_app, IH.
    by destruct (bool_decide (outcome a = None)).
Qed.

Lemma ensureAddressesRegistered_outcome_witness :
  map registered
      (addresses (ensureAddressesRegistered Scenario.refusesB Scenario.threeAddresses))
  = [true; false; true].
Proof.
  destruct (ensureAddressesRegistered_outcome Scenario.refusesB Scenario.threeAddresses
              (mkWallet []) eq_refl
              ltac:(apply (bool_decide_unpack _); vm_compute; exact I))
    as (H & _).
  rewrite H. reflexivity.
Defined.

Lemma prefetch_pool_valid (http : DevFee.HttpOutcome) (now : Z) (m : DevFee.Manager) :
  DevFee.hasValidAddressPool m = false ->
  DevFee.hasValidAddressPool (DevFee.prefetchAddressPool http now m).2
  = (DevFee.prefetchAddressPool http now m).1.
Proof.
  intros Hm. unfold DevFee.prefetchAddressPool.
  destruct (negb (DevFee.isEnabled m)); [exact Hm|].
  destruct http as [[l|]|msg]; [|done|done].
  destruct (Nat.eqb (List.length l) 10) eqn:Len; [|done].
  destruct (DevFee.firstInvalid 0 _); [done|].
  unfold DevFee.hasValidAddressPool. cbn. by rewrite length_map.
Qed.

Lemma prefetch_ignores_counters (http : DevFee.HttpOutcome) (now n : Z) (m : DevFee.Manager) :
  (DevFee.prefetchAddressPool http now (DevFee.syncWithReceipts n m)).1
  = (DevFee.prefetchAddressPool http now m).1.
Proof.
  unfold DevFee.prefetchAddressPool, DevFee.syncWithReceipts, DevFee.isEnabled. cbn.
  unchanged.
Qed.

Lemma loadSubmittedSolutions_devFee (s : Orchestrator) :
  devFeeManager (loadSubmittedSolutions s) = devFeeManager s
  \/ exists n, devFeeManager (loadSubmittedSolutions s)
               = DevFee.syncWithReceipts n (devFeeManager s).
Proof.
  unfold loadSubmittedSolutions. cbv zeta.
  rewrite !(fold_left_unchanged recordReceipt devFeeManager)
    by (intros; unfold recordReceipt; unchanged).
  destruct (_ =? _); [by left|right]. eexists. reflexivity.
Qed.

Lemma loadSubmittedSolutions_unchanged {B : Type} (proj : Orchestrator -> B) (s : Orchestrator) :
  (forall v s', proj (set_userSolutionsCount v s') = proj s') ->
  (forall v s', proj (set_devFeeManager v s') = proj s') ->
  (forall v s', proj (set_submittedSolutions v s') = proj s') ->
  (forall v s', proj (set_solvedAddressChallenges v s') = proj s') ->
  proj (loadSubmittedSolutions s) = proj s.
Proof.
  intros Hu Hd Hh Hm. unfold loadSubmittedSolutions. cbv zeta.
  rewrite !(fold_left_unchanged recordReceipt proj).
  - destruct (_ =? _); by rewrite ?Hd, Hu.
  - intros s' r. unfold recordReceipt. rewrite Hm. destruct (String.eqb _ _); by rewrite ?Hh.
  - intros s' r. unfold recordReceipt. rewrite Hm. destruct (String.eqb _ _); by rewrite ?Hh.
Qed.

Lemma ensureAddressesRegistered_unchanged {B : Type} (proj : Orchestrator -> B)
    (outcome : DerivedAddress -> option string) (s : Orchestrator) :
  (forall v s', proj (set_effects v s') = proj s') ->
  (forall v s', proj (set_addresses v s') = proj s') ->
  (forall v s', proj (set_walletManager v s') = proj s') ->
  proj (ensureAddressesRegistered outcome s) = proj s.
Proof.
  intros He Ha Hw. unfold ensureAddressesRegistered.
  apply fold_left_unchanged. intros s' a.
  unfold registerOne, registerAddress, emit, perform.
  repeat (first [ progress rewrite ?He, ?Ha, ?Hw | done | progress simplify_eq | case_match ]).
Qed.

Lemma loadSubmittedSolutions_solves_receipts (s : Orchestrator) (rc : ReceiptEntry) :
  rc ∈ receipts s ->
  isSolved (loadSubmittedSolutions s) (r_address rc) (r_challenge_id rc) = true.
Proof.
  intros Hin. unfold loadSubmittedSolutions. cbv zeta.
  set (s2 := if _ =? _ then _ else _).
  destruct (fold_recordReceipt (List.filter isDevFee (receipts s))
              (fold_left recordReceipt
                 (List.filter (fun r => negb (isDevFee r)) (receipts s)) s2)) as (Hd & _).
  destruct (fold_recordReceipt (List.filter (fun r => negb (isDevFee r)) (receipts s)) s2)
    as (Hu & _).
  cbv zeta in Hd, Hu. apply Hd.
  destruct (isDevFee rc) eqn:E.
  - right. exists rc. split; [|done]. apply list_elem_of_In, filter_In.
    split; [by apply list_elem_of_In|exact E].
  - left. apply Hu. right. exists rc. split; [|done]. apply list_elem_of_In, filter_In.
    split; [by apply list_elem_of_In|by rewrite E].
Qed.

Lemma loadSubmittedSolutions_userCount (s : Orchestrator) :
  userSolutionsCount (loadSubmittedSolutions s)
  = Z.of_nat (List.length (List.filter (fun r => negb (isDevFee r)) (receipts s))).
Proof.
  unfold loadSubmittedSolutions. cbv zeta.
  rewrite !(fold_left_unchanged recordReceipt userSolutionsCount)
    by (intros; unfold recordReceipt; unchanged).
  by destruct (_ =? _).
Qed.

Lemma registerOne_fold_effects (outcome : DerivedAddress -> option string)
    (l : list DerivedAddress) :
  forall s, exists es, effects (fold_left (registerOne outcome) l s) = effects s ++ es.
Proof.
  induction l as [|a l IH]; intros s; cbn [fold_left].
  - exists []. by rewrite app_nil_r.
  - destruct (IH (registerOne outcome s a)) as (es & ->).
    assert (H1 : exists es1, effects (registerOne outcome s a) = effects s ++ es1).
    { unfold registerOne, registerAddress, emit, perform.
      repeat case_match; simplify_eq; cbn; rewrite <- ?app_assoc; eexists; reflexivity. }
    destruct H1 as (es1 & ->). exists (es1 ++ es). by rewrite app_assoc.
Qed.

Lemma start_when_stopped (password : string) (env : StartEnv) (s : Orchestrator)
    (loaded : list DerivedAddress) :
  isRunning s = false ->
  loadWallet env password = Some loaded ->
  let r := start password env s in
  r.1 = Returned
  /\ isRunning r.2 = true
  /\ startTime r.2 = Some (startNow env)
  /\ solutionsFound r.2 = 0
  /\ hourlyRestartTimer r.2 = Some (msUntilNextHour env)
  /\ watchdogTimer r.2 = Some 30000
  /\ currentChallenge r.2 = currentChallenge s
  /\ currentChallengeId r.2 = currentChallengeId s
  /\ isMining r.2 = isMining s
  /\ addressesProcessedCurrentChallenge r.2 = addressesProcessedCurrentChallenge s
  /\ stoppedWorkers r.2 = stoppedWorkers s
  /\ receipts r.2 = receipts s
  /\ map bech32 (addresses r.2) = map bech32 loaded
  /\ userSolutionsCount r.2
     = Z.of_nat (List.length (List.filter (fun rc => negb (isDevFee rc)) (receipts s)))
  /\ (forall rc, rc ∈ receipts s ->
        isSolved r.2 (r_address rc) (r_challenge_id rc) = true)
  /\ DevFee.hasValidAddressPool (devFeeManager r.2)
     = DevFee.hasValidAddressPool (devFeeManager s)
       || (DevFee.prefetchAddressPool (devFeeHttp env) (startNow env) (devFeeManager s)).1
  /\ exists es, effects r.2 = effects s ++ es ++ [CallPollLoop; Emit "status"].
Proof.
  intros Hrun Hload. unfold start. rewrite Hrun, Hload. cbv zeta.
  set (s2 := set_addresses loaded (set_walletManager (Some (mkWallet [])) s)).
  set (s3 := loadSubmittedSolutions s2).
  set (s4 := ensureAddressesRegistered (registration env) s3).
  set (s5 := if DevFee.hasValidAddressPool (devFeeManager s4) then s4 else _).
  assert (F3 : forall {B} (proj : Orchestrator -> B),
             (forall v s', proj (set_userSolutionsCount v s') = proj s') ->
             (forall v s', proj (set_devFeeManager v s') = proj s') ->
             (forall v s', proj (set_submittedSolutions v s') = proj s') ->
             (forall v s', proj (set_solvedAddressChallenges v s') = proj s') ->
             proj s3 = proj s2)
    by (intros; by apply loadSubmittedSolutions_unchanged).
  assert (F4 : forall {B} (proj : Orchestrator -> B),
             (forall v s', proj (set_effects v s') = proj s') ->
             (forall v s', proj (set_addresses v s') = proj s') ->
             (forall v s', proj (set_walletManager v s') = proj s') ->
             proj s4 = proj s3)
    by (intros; by apply ensureAddressesRegistered_unchanged).
  assert (F5 : forall {B} (proj : Orchestrator -> B),
             (forall v s', proj (set_devFeeManager v s') = proj s') ->
             proj s5 = proj s4)
    by (intros B proj H; subst s5; destruct (DevFee.hasValidAddressPool _); by rewrite ?H).
  cbn [fst snd].
  split; [done|]. split; [done|]. split; [done|]. split; [done|]. split; [done|].
  split; [done|].
  assert (F : forall {B} (proj : Orchestrator -> B),
             (forall v s', proj (set_userSolutionsCount v s') = proj s') ->
             (forall v s', proj (set_devFeeManager v s') = proj s') ->
             (forall v s', proj (set_submittedSolutions v s') = proj s') ->
             (forall v s', proj (set_solvedAddressChallenges v s') = proj s') ->
             (forall v s', proj (set_effects v s') = proj s') ->
             (forall v s', proj (set_addresses v s') = proj s') ->
             (forall v s', proj (set_walletManager v s') = proj s') ->
             proj s5 = proj s)
    by (intros B proj ? ? ? ? ? Ha Hw; rewrite F5, F4, F3 by done; subst s2;
        by rewrite Ha, Hw).
  split; [exact (F _ currentChallenge ltac:(done) ltac:(done) ltac:(done) ltac:(done)
                   ltac:(done) ltac:(done) ltac:(done))|].
  split; [exact (F _ currentChallengeId ltac:(done) ltac:(done) ltac:(done) ltac:(done)
                   ltac:(done) ltac:(done) ltac:(done))|].
  split; [exact (F _ isMining ltac:(done) ltac:(done) ltac:(done) ltac:(done)
                   ltac:(done) ltac:(done) ltac:(done))|].
  split; [exact (F _ addressesProcessedCurrentChallenge ltac:(done) ltac:(done) ltac:(done)
                   ltac:(done) ltac:(done) ltac:(done) ltac:(done))|].
  split; [exact (F _ stoppedWorkers ltac:(done) ltac:(done) ltac:(done) ltac:(done)
                   ltac:(done) ltac:(done) ltac:(done))|].
  split; [exact (F _ receipts ltac:(done) ltac:(done) ltac:(done) ltac:(done)
                   ltac:(done) ltac:(done) ltac:(done))|].
  assert (Hw3 : walletManager s3 = Some (mkWallet []))
    by (etrans; [apply (F3 _ walletManager); done|done]).
  assert (Ha3 : addresses s3 = loaded)
    by (etrans; [apply (F3 _ addresses); done|done]).
  split.
  { change (map bech32 (addresses s5) = map bech32 loaded).
    assert (E5 : addresses s5 = addresses s4) by (apply (F5 _ addresses); done).
    rewrite E5. subst s4. unfold ensureAddressesRegistered.
    destruct (ensure_fold (registration env)
                (List.filter (fun a => negb (registered a)) (addresses s3)) s3 _ Hw3)
      as (_ & Ha & _).
    cbv zeta in Ha. rewrite Ha, markRegistered_fold, Ha3, map_map.
    apply map_ext. intros a. by destruct (bool_decide _). }
  split.
  { change (userSolutionsCount s5
            = Z.of_nat (List.length (List.filter (fun rc => negb (isDevFee rc)) (receipts s)))).
    assert (E5 : userSolutionsCount s5 = userSolutionsCount s4)
      by (apply (F5 _ userSolutionsCount); done).
    assert (E4 : userSolutionsCount s4 = userSolutionsCount s3)
      by (apply (F4 _ userSolutionsCount); done).
    rewrite E5, E4. subst s3. by rewrite loadSubmittedSolutions_userCount. }
  split.
  { intros rc Hin.
    assert (H3 : isSolved s3 (r_address rc) (r_challenge_id rc) = true)
      by (by apply loadSubmittedSolutions_solves_receipts).
    apply (ensureAddressesRegistered_keeps (registration env)) in H3. fold s4 in H3.
    change (isSolved s5 (r_address rc) (r_challenge_id rc) = true).
    assert (E5 : solvedAddressChallenges s5 = solvedAddressChallenges s4)
      by (apply (F5 _ solvedAddressChallenges); done).
    unfold isSolved in *. by rewrite E5. }
  split.
  { change (DevFee.hasValidAddressPool (devFeeManager s5)
            = DevFee.hasValidAddressPool (devFeeManager s)
              || (DevFee.prefetchAddressPool (devFeeHttp env) (startNow env)
                    (devFeeManager s)).1).
    assert (Hd4 : devFeeManager s4 = devFeeManager s3)
      by (apply (F4 _ devFeeManager); done).
    assert (Hd3 : devFeeManager s3 = devFeeManager s
                  \/ exists n, devFeeManager s3
                               = DevFee.syncWithReceipts n (devFeeManager s))
      by (subst s3; apply (loadSubmittedSolutions_devFee s2)).
    assert (Hv : DevFee.hasValidAddressPool (devFeeManager s4)
                 = DevFee.hasValidAddressPool (devFeeManager s))
      by (rewrite Hd4; destruct Hd3 as [->|(n & ->)]; done).
    assert (Hp : (DevFee.prefetchAddressPool (devFeeHttp env) (startNow env)
                    (devFeeManager s4)).1
                 = (DevFee.prefetchAddressPool (devFeeHttp env) (startNow env)
                      (devFeeManager s)).1).
    { rewrite Hd4. destruct Hd3 as [->|(n & ->)]; [done|].
      apply prefetch_ignores_counters. }
    subst s5. rewrite <- Hv, <- Hp.
    destruct (DevFee.hasValidAddressPool (devFeeManager s4)) eqn:E; [done|].
    cbn. by apply prefetch_pool_valid. }
  assert (He5 : effects s5 = effects s4) by (apply (F5 _ effects); done).
  assert (He : exists es, effects s4 = effects s ++ es).
  { assert (H3 : effects s3 = effects s)
      by (etrans; [apply (F3 _ effects); done|done]).
    rewrite <- H3. subst s4. unfold ensureAddressesRegistered.
    apply registerOne_fold_effects. }
  destruct He as (es & He). exists es. cbn. rewrite <- !app_assoc.
  change (effects s5 ++ [CallPollLoop] ++ [Emit "status"]
          = effects s ++ es ++ [CallPollLoop; Emit "status"]).
  by rewrite He5, He, <- app_assoc.
Qed.

(** A [start] on a stopped orchestrator.  If the wallet cannot be loaded it
    throws and stays stopped.  Otherwise it returns with the orchestrator
    running, the session counter at zero, both timers armed and the poll
    loop called last before the [status] event; the wallet's addresses are
    in place, every pair that a receipt carries is solved, the user counter
    is the number of user receipts, and the dev-fee pool is valid exactly
    when it was before or the prefetch succeeds.  The challenge held, the
    mining flag, the processed indexes and [stoppedWorkers] are not reset. *)
Theorem start_outcome (password : string) (env : StartEnv) (s : Orchestrator) :
  isRunning s = false ->
  let r := start password env s in
  match loadWallet env password with
  | None =>
      (exists msg, r.1 = Threw msg) /\ isRunning r.2 = false
      /\ effects r.2 = effects s /\ receipts r.2 = receipts s
  | Some loaded =>
      r.1 = Returned
      /\ isRunning r.2 = true
      /\ startTime r.2 = Some (startNow env)
      /\ solutionsFound r.2 = 0
      /\ hourlyRestartTimer r.2 = Some (msUntilNextHour env)
      /\ watchdogTimer r.2 = Some 30000
      /\ currentChallenge r.2 = currentChallenge s
      /\ currentChallengeId r.2 = currentChallengeId s
      /\ isMining r.2 = isMining s
      /\ addressesProcessedCurrentChallenge r.2 = addressesProcessedCurrentChallenge s
      /\ stoppedWorkers r.2 = stoppedWorkers s
      /\ receipts r.2 = receipts s
      /\ map bech32 (addresses r.2) = map bech32 loaded
      /\ userSolutionsCount r.2
         = Z.of_nat (List.length (List.filter (fun rc => negb (isDevFee rc)) (receipts s)))
      /\ (forall rc, rc ∈ receipts s ->
            isSolved r.2 (r_address rc) (r_challenge_id rc) = true)
      /\ DevFee.hasValidAddressPool (devFeeManager r.2)
         = DevFee.hasValidAddressPool (devFeeManager s)
           || (DevFee.prefetchAddressPool (devFeeHttp env) (startNow env)
                 (devFeeManager s)).1
      /\ exists es, effects r.2 = effects s ++ es ++ [CallPollLoop; Emit "status"]
  end.
Proof.
  intros Hrun r. destruct (loadWallet env password) as [loaded|] eqn:Hload.
  - by apply start_when_stopped.
  - subst r. unfold start. rewrite Hrun, Hload. cbn. split; [by eexists|done].
Qed.

Lemma start_outcome_witness :
  let s' := (start "password" Scenario.startEnv Scenario.withReceipts).2 in
  isRunning s' = true
  /\ userSolutionsCount s' = 1
  /\ isSolved s' "addr1dev0" "**D07C0F" = true
  /\ DevFee.hasValidAddressPool (devFeeManager s') = true.
Proof.
  pose proof (start_outcome "password" Scenario.startEnv Scenario.withReceipts eq_refl) as H.
  cbv zeta in H. cbn [loadWallet Scenario.startEnv] in H.
  destruct H as (_ & Hrun & _ & _ & _ & _ & _ & _ & _ & _ & _ & _ & _ & Hu & Hs & Hp & _).
  split; [exact Hrun|]. split; [exact Hu|]. split; [|exact Hp].
  apply (Hs Scenario.receiptDev). apply elem_of_cons. right. apply elem_of_cons. by left.
Defined.

(** [reinitialize] never takes the early return of [start]: whether the
    orchestrator was running or not, it ends up freshly started with no
    challenge held, not mining and no processed index, so that the next poll
    takes up the current challenge anew; the solved pairs survive and
    [stoppedWorkers] is not cleared.  If the wallet cannot be loaded it
    throws and leaves the orchestrator stopped, even one that was running. *)
Theorem reinitialize_restarts (password : string) (env : StartEnv) (s : Orchestrator) :
  let r := reinitialize password env s in
  currentChallenge r.2 = None
  /\ currentChallengeId r.2 = None
  /\ isMining r.2 = false
  /\ addressesProcessedCurrentChallenge r.2 = ∅
  /\ stoppedWorkers r.2 = stoppedWorkers s
  /\ keepsSolved s r.2
  /\ match loadWallet env password with
     | None => (exists msg, r.1 = Threw msg) /\ isRunning r.2 = false
     | Some loaded =>
         r.1 = Returned
         /\ isRunning r.2 = true
         /\ solutionsFound r.2 = 0
         /\ hourlyRestartTimer r.2 = Some (msUntilNextHour env)
         /\ watchdogTimer r.2 = Some 30000
         /\ exists es,
              effects r.2
              = effects s
                ++ (if isRunning s then [Emit "status"; Sleep 1000] else [])
                ++ es ++ [CallPollLoop; Emit "status"]
     end.
Proof.
  intros r. subst r. unfold reinitialize.
  set (s1 := if isRunning s then perform (Sleep 1000) (stop s) else s).
  set (s2 := set_addressesProcessedCurrentChallenge ∅ _).
  assert (Hrun : isRunning s2 = false) by (subst s2 s1; by destruct (isRunning s) eqn:E).
  assert (Hst : stoppedWorkers s2 = stoppedWorkers s)
    by (subst s2 s1; by destruct (isRunning s)).
  assert (He : effects s2
               = effects s ++ (if isRunning s then [Emit "status"; Sleep 1000] else [])).
  { subst s2 s1. destruct (isRunning s); cbn; [by rewrite <- app_assoc|by rewrite app_nil_r]. }
  assert (Hk : keepsSolved s s2)
    by (apply keepsSolved_same; subst s2 s1; by destruct (isRunning s)).
  destruct (loadWallet env password) as [loaded|] eqn:Hload.
  - destruct (start_when_stopped password env s2 loaded Hrun Hload)
      as (H1 & H2 & _ & H4 & H5 & H6 & H7 & H8 & H9 & H10 & H11 & _ & _ & _ & _ & _ & es & H17).
    split; [by rewrite H7|]. split; [by rewrite H8|]. split; [by rewrite H9|].
    split; [by rewrite H10|]. split; [by rewrite H11|].
    split; [eapply keepsSolved_trans; [exact Hk|apply start_keeps]|].
    split; [exact H1|]. split; [exact H2|]. split; [exact H4|]. split; [exact H5|].
    split; [exact H6|]. exists es. by rewrite H17, He, <- app_assoc.
  - unfold start. rewrite Hrun, Hload. cbn [fst snd].
    split; [done|]. split; [done|]. split; [done|]. split; [done|].
    split; [exact Hst|]. split; [exact Hk|]. split; [by eexists|exact Hrun].
Qed.

End StartupFurther.

(** ** Stopping, polling, challenge transitions and the timers *)

Section ControlFurther.
Import Mining.

Variable matchesDifficulty : string -> string -> bool.
Variable buildPreimage : string -> string -> Challenge -> string.

Lemma filter_nil_existsb {A : Type} (f : A -> bool) (l : list A) :
  List.filter f l = [] <-> existsb f l = false.
Proof.
  induction l as [|x l IH]; cbn; [done|]. destruct (f x); cbn; [|exact IH].
  split; discriminate.
Qed.

(** After [stop] nothing goes on by itself: the three timers are cleared,
    every worker finds its loop condition false, the batch loop of
    [startMining] exits, and the callbacks that may still be pending (the
    hourly restart, the watchdog check and its delayed restart, a scheduled
    poll) leave the state as it is. *)
Theorem stop_quiesces (s : Orchestrator) :
  let s' := stop s in
  isRunning s' = false /\ isMining s' = false
  /\ pollTimer s' = None /\ hourlyRestartTimer s' = None /\ watchdogTimer s' = None
  /\ (forall w nonce, loopHead buildPreimage w nonce s' = (WhileExit, s'))
  /\ (forall availableWorkers id addressesToMine pointer,
        prepareBatch availableWorkers id addressesToMine pointer s' = (LoopExit, s'))
  /\ (forall env availableWorkers id addressesToMine pointer,
        batchLoop buildPreimage env availableWorkers id addressesToMine pointer s'
        = (Finished, s'))
  /\ (forall env, hourlyRestart buildPreimage env s' = (Ends Returned, s'))
  /\ runWatchdogCheck s' = s'
  /\ (forall id env, watchdogRestart buildPreimage id env s' = (Ends Returned, s'))
  /\ (forall env fetched, pollLoop buildPreimage env fetched s' = (Ends Returned, s')).
Proof.
  cbv zeta. repeat split.
  unfold runWatchdogCheck. change (currentChallengeId (stop s)) with (currentChallengeId s).
  by destruct (currentChallengeId s).
Qed.

(** The poll that learns that the mining period is over stops the
    orchestrator, but [pollLoop] then schedules the next poll all the same:
    the poll timer is armed again after [stop] cleared it.  That next poll,
    and every later one, returns at once. *)
Theorem pollLoop_period_over (env : PollEnv) (resp : ChallengeResponse) (s : Orchestrator) :
  isRunning s = true ->
  code resp = after ->
  let r := pollLoop buildPreimage env (inl resp) s in
  r.1 = Ends Returned
  /\ isRunning r.2 = false /\ isMining r.2 = false
  /\ hourlyRestartTimer r.2 = None /\ watchdogTimer r.2 = None
  /\ pollTimer r.2 = Some pollInterval
  /\ effects r.2 = effects s ++ [Emit "status"]
  /\ (forall env' fetched, pollLoop buildPreimage env' fetched r.2 = (Ends Returned, r.2)).
Proof.
  intros Hrun Hcode. unfold pollLoop at 1. rewrite Hrun. unfold pollAndMine. rewrite Hcode.
  cbn. done.
Qed.

Lemma existsb_map_to_list (f : WorkerStats -> bool) (m : gmap Z WorkerStats) :
  existsb (fun p : Z * WorkerStats => f p.2) (map_to_list m) = true
  <-> exists k st, m !! k = Some st /\ f st = true.
Proof.
  rewrite existsb_exists. split.
  - intros ([k st] & Hin & Hf). exists k, st. split; [|exact Hf].
    by apply elem_of_map_to_list, list_elem_of_In.
  - intros (k & st & Hl & Hf). exists (k, st). split; [|exact Hf].
    by apply list_elem_of_In, elem_of_map_to_list.
Qed.

(** The watchdog, while the orchestrator is running and mining on a
    challenge, switches mining off exactly when the worker table holds a
    worker whose status is [idle], or one that is [mining], on a wallet
    position that exists, an address already solved for the challenge.  It
    changes nothing else; and a worker that has gone round its loop after a
    sibling stopped it is such an idle worker. *)
Theorem runWatchdogCheck_trips (s : Orchestrator) (id : string) :
  isRunning s = true ->
  isMining s = true ->
  currentChallengeId s = Some id ->
  id <> ""%string ->
  let s' := runWatchdogCheck s in
  (isMining s' = false
   <-> exists k st,
         workerStats s !! k = Some st
         /\ (ws_status st = idle
             \/ (ws_status st = mining /\ 0 <= ws_addressIndex st
                 /\ exists a, addresses s !! Z.to_nat (ws_addressIndex st) = Some a
                      /\ isSolved s (bech32 a) id = true)))
  /\ s' = set_isMining (isMining s') s
  /\ (forall w nonce,
        (loopHead buildPreimage w nonce s).1 = StoppedBySibling ->
        is_Some (workerStats s !! w_workerId w) ->
        isMining (runWatchdogCheck (loopHead buildPreimage w nonce s).2) = false).
Proof.
  intros Hrun Hmine Hid Hne.
  assert (Hissue : forall s0 st, addresses s0 = addresses s ->
             solvedAddressChallenges s0 = solvedAddressChallenges s ->
             workerIssue s0 id st = true
             <-> ws_status st = idle
                 \/ (ws_status st = mining /\ 0 <= ws_addressIndex st
                     /\ exists a, addresses s !! Z.to_nat (ws_addressIndex st) = Some a
                          /\ isSolved s (bech32 a) id = true)).
  { intros s0 st Ha Hs. unfold workerIssue, Js.index, isSolved. rewrite Ha, Hs.
    rewrite orb_true_iff, !andb_true_iff, !bool_decide_eq_true, Z.leb_le.
    split.
    - intros [H|[[H1 H2] H3]]; [by left|right]. split; [exact H1|]. split; [exact H2|].
      destruct (ws_addressIndex st <? 0); [discriminate|].
      destruct (addresses s !! Z.to_nat (ws_addressIndex st)) as [a|]; [|discriminate].
      by exists a.
    - intros [H|(H1 & H2 & a & Ha' & H3)]; [by left|right]. split; [done|].
      destruct (ws_addressIndex st <? 0) eqn:E; [apply Z.ltb_lt in E; lia|].
      by rewrite Ha'. }
  assert (Hcheck : forall s0, isRunning s0 = true -> isMining s0 = true ->
             currentChallengeId s0 = Some id ->
             runWatchdogCheck s0
             = set_isMining
                 (negb (existsb (fun p : Z * WorkerStats => workerIssue s0 id p.2)
                          (map_to_list (workerStats s0)))) s0).
  { intros s0 H1 H2 H3. unfold runWatchdogCheck. rewrite H1, H2, H3.
    apply String.eqb_neq in Hne. rewrite Hne. cbn [negb orb].
    destruct (existsb _ _); [done|]. cbn [negb]. rewrite <- H2. by destruct s0. }
  cbv zeta. split; [|split].
  - rewrite (Hcheck s Hrun Hmine Hid). cbn. rewrite negb_false_iff, existsb_map_to_list.
    split.
    + intros (k & st & Hl & Hf). exists k, st. split; [exact Hl|]. by apply (Hissue s).
    + intros (k & st & Hl & Hf). exists k, st. split; [exact Hl|]. by apply (Hissue s).
  - rewrite (Hcheck s Hrun Hmine Hid). done.
  - intros w nonce Hhead [st Hst]. revert Hhead. unfold loopHead.
    destruct (negb _); [discriminate|].
    destruct (_ <=? _); [discriminate|].
    destruct (isSolved _ _ _); [discriminate|].
    destruct (bool_decide (w_workerId w ∈ stoppedWorkers s)).
    2:{ destruct (bool_decide _); [discriminate|].
        by destruct (generateBatch _ _ _ _ _ _ _) as [|[|? ?]]. }
    rewrite Hst. cbn [fst snd]. intros _.
    set (s1 := emit "worker_update" _).
    rewrite (Hcheck s1) by done. cbn. rewrite negb_false_iff, existsb_map_to_list.
    exists (w_workerId w), (withStatus idle st). split.
    + subst s1. cbn. by rewrite lookup_alter_eq, Hst.
    + apply (Hissue s1); [done|done|by left].
Qed.

End ControlFurther.

(** ** Submission of a solution *)

Section SubmitFurther.
Import Mining.

Lemma isSolved_add_same (s : Orchestrator) (a c : string) :
  isSolved (set_solvedAddressChallenges (addSolved a c (solvedAddressChallenges s)) s) a c
  = true.
Proof.
  unfold isSolved, addSolved. cbn. rewrite lookup_insert_eq.
  apply bool_decide_eq_true, elem_of_union_l, elem_of_singleton. reflexivity.
Qed.

Lemma errors_logged (s s' : Orchestrator) (entry : ErrorEntry) :
  errors s' = errors s ++ [entry] ->
  (List.length (errors s) < List.length (errors s'))%nat.
Proof. intros ->. rewrite length_app. cbn. lia. Qed.

Lemma errors_logged_after (s s2 s' : Orchestrator) (entry : ErrorEntry) :
  (List.length (errors s) < List.length (errors s2))%nat ->
  errors s' = errors s2 ++ [entry] ->
  (List.length (errors s) < List.length (errors s'))%nat.
Proof. intros H ->. rewrite length_app. cbn. lia. Qed.

Ltac logged :=
  unfold Failed, TakenAsDuplicate;
  repeat (split; [first [ reflexivity | apply isSolved_add_same ]|]);
  eapply errors_logged; reflexivity.

Lemma acceptSolution_accepted (env : SubmitEnv) (addr : DerivedAddress)
    (challengeId nonce hash : string) (devFee : bool) (r : HttpResponse) (s : Orchestrator) :
  Accepted env addr challengeId nonce hash devFee s
    (acceptSolution env addr challengeId nonce hash devFee r s)
  /\ coordinationUntouched s (acceptSolution env addr challengeId nonce hash devFee r s).
Proof.
  unfold Accepted, coordinationUntouched, acceptSolution.
  destruct devFee; cbn; (split; [split; [by eexists|]|]); repeat split;
    first [ reflexivity | symmetry; apply Z.add_0_r ].
Qed.

(** The [catch] block when no retry can follow. *)
Lemma handleSubmitError_final (retry : Orchestrator -> Completion * Orchestrator)
    (env : SubmitEnv) (addr : DerivedAddress) (challengeId nonce hash : string)
    (e : JsError) (s : Orchestrator) :
  let r := handleSubmitError true retry env addr challengeId nonce hash e s in
  (r.1 = Returned -> TakenAsDuplicate addr challengeId s r.2)
  /\ (forall msg, r.1 = Threw msg -> Failed s r.2)
  /\ coordinationUntouched s r.2
  /\ exists es, effects r.2 = effects s ++ es
       /\ List.filter isPost es = [] /\ List.filter isRegistration es = [].
Proof.
  cbv zeta. unfold handleSubmitError. destruct (isSolutionAlreadyExists e).
  { cbn [fst snd]. split; [intros _|split; [discriminate|split]].
    - logged.
    - done.
    - exists []. by rewrite app_nil_r. }
  rewrite andb_false_r.
  destruct (isTimeout e); cbn [fst snd].
  - split; [discriminate|]. split; [intros msg _|split; [done|]].
    + logged.
    + exists []. by rewrite app_nil_r.
  - split; [discriminate|]. split; [intros msg _|split; [done|]].
    + logged.
    + by exists [Emit "solution_result"].
Qed.

Lemma submitAttempt_final (retry : Orchestrator -> Completion * Orchestrator)
    (raw : RawOutcome) (env : SubmitEnv) (addr : DerivedAddress)
    (challengeId nonce hash : string) (devFee : bool) (s : Orchestrator) :
  is_Some (walletManager s) ->
  let r := submitAttempt true retry raw env addr challengeId nonce hash devFee s in
  (r.1 = Returned ->
     Accepted env addr challengeId nonce hash devFee s r.2
     \/ TakenAsDuplicate addr challengeId s r.2)
  /\ (forall msg, r.1 = Threw msg -> Failed s r.2)
  /\ coordinationUntouched s r.2
  /\ exists es, effects r.2 = effects s ++ PostSolution (bech32 addr) challengeId nonce :: es
       /\ List.filter isPost es = [] /\ List.filter isRegistration es = [].
Proof.
  intros [wm Hwm]. cbv zeta. unfold submitAttempt. rewrite Hwm.
  set (s0 := perform _ s).
  assert (Herr : forall e,
            let r := handleSubmitError true retry env addr challengeId nonce hash e s0 in
            (r.1 = Returned ->
               Accepted env addr challengeId nonce hash devFee s r.2
               \/ TakenAsDuplicate addr challengeId s r.2)
            /\ (forall msg, r.1 = Threw msg -> Failed s r.2)
            /\ coordinationUntouched s r.2
            /\ exists es, effects r.2
                          = effects s ++ PostSolution (bech32 addr) challengeId nonce :: es
                 /\ List.filter isPost es = [] /\ List.filter isRegistration es = []).
  { intros e.
    destruct (handleSubmitError_final retry env addr challengeId nonce hash e s0)
      as (H1 & H2 & H3 & es & H4 & H5 & H6).
    cbv zeta. split; [intros H; right; exact (H1 H)|]. split; [exact H2|].
    split; [exact H3|]. exists es. split; [|done].
    rewrite H4. subst s0. cbn. by rewrite <- app_assoc. }
  destruct (axiosPost _ raw) as [r|e]; [|apply Herr].
  destruct (_ && _); [|apply Herr]. cbn [fst snd].
  destruct (acceptSolution_accepted env addr challengeId nonce hash devFee r s0) as (Ha & Hc).
  split; [intros _; left; exact Ha|]. split; [discriminate|]. split; [exact Hc|].
  exists [Emit "solution_result"; Emit "solution"]. split; [|done].
  unfold acceptSolution. destruct devFee; cbn; by rewrite <- !app_assoc.
Qed.

Lemma submitSolution_cases (env : SubmitEnv) (addr : DerivedAddress)
    (challengeId nonce hash : string) (devFee : bool) (s : Orchestrator) :
  let r := submitSolution env addr challengeId nonce hash devFee s in
  (walletManager s = None -> r = (Returned, s))
  /\ (is_Some (walletManager s) -> r.1 = Returned ->
        Accepted env addr challengeId nonce hash devFee s r.2
        \/ TakenAsDuplicate addr challengeId s r.2)
  /\ (forall msg, r.1 = Threw msg -> Failed s r.2)
  /\ coordinationUntouched s r.2
  /\ exists es, effects r.2 = effects s ++ es
       /\ (List.length (List.filter isPost es) <= 2)%nat
       /\ (List.length (List.filter isRegistration es) <= 1)%nat
       /\ (List.length (List.filter isPost es) = 2%nat ->
           List.length (List.filter isRegistration es) = 1%nat).
Proof.
  cbv zeta. unfold submitSolution.
  set (retry := submitAttempt true _ (retryPost env) env addr challengeId nonce hash devFee).
  destruct (walletManager s) as [wm|] eqn:Hwm.
  2:{ unfold submitAttempt. rewrite Hwm. cbn [fst snd].
      split; [done|]. split; [intros [? ?]; discriminate|]. split; [discriminate|].
      split; [done|]. exists []. rewrite app_nil_r. cbn. split; [done|]. split; lia. }
  split; [discriminate|].
  unfold submitAttempt. rewrite Hwm.
  set (s0 := perform _ s).
  assert (Herr : forall e,
            let r := handleSubmitError false retry env addr challengeId nonce hash e s0 in
            (r.1 = Returned ->
               Accepted env addr challengeId nonce hash devFee s r.2
               \/ TakenAsDuplicate addr challengeId s r.2)
            /\ (forall msg, r.1 = Threw msg -> Failed s r.2)
            /\ coordinationUntouched s r.2
            /\ exists es, effects r.2
                          = effects s ++ PostSolution (bech32 addr) challengeId nonce :: es
                 /\ (List.length (List.filter isPost es) <= 1)%nat
                 /\ (List.length (List.filter isRegistration es) <= 1)%nat
                 /\ (List.length (List.filter isPost es) = 1%nat ->
                     List.length (List.filter isRegistration es) = 1%nat)).
  { intros e. cbv zeta. unfold handleSubmitError.
    destruct (isSolutionAlreadyExists e) eqn:Hdup.
    { cbn [fst snd]. split; [intros _; right|split; [discriminate|split]].
      - logged.
      - done.
      - exists []. cbn. repeat split; lia. }
    destruct (isNotRegisteredError e && negb false) eqn:Hreg.
    2:{ destruct (isTimeout e); cbn [fst snd].
        - split; [discriminate|]. split; [intros msg _|split; [done|]].
          + logged.
          + exists []. cbn. repeat split; lia.
        - split; [discriminate|]. split; [intros msg _|split; [done|]].
          + logged.
          + exists [Emit "solution_result"]. cbn. rewrite <- app_assoc.
            repeat split; lia. }
    unfold registerAddress.
    assert (Hwm0 : walletManager s0 = Some wm) by exact Hwm. rewrite Hwm0.
    destruct (registrationFailure env) as [msg|].
    { cbn [fst snd]. split; [discriminate|]. split; [intros m _|split; [done|]].
      - logged.
      - exists [RegisterAddress (bech32 addr); Emit "solution_result"]. cbn.
        rewrite <- !app_assoc. repeat split; lia. }
    set (s1 := set_addresses _ _).
    assert (Hwm1 : is_Some (walletManager s1)) by (by eexists).
    destruct (submitAttempt_final (fun s' => (Returned, s')) (retryPost env) env addr
                challengeId nonce hash devFee s1 Hwm1) as (R1 & R2 & R3 & es & R4 & R5 & R6).
    fold retry in R1, R2, R3, R4.
    destruct (retry s1) as [[|msg] s2]; cbn [fst snd] in *.
    - split; [intros _; exact (R1 eq_refl)|]. split; [discriminate|]. split; [exact R3|].
      exists (RegisterAddress (bech32 addr) :: PostSolution (bech32 addr) challengeId nonce :: es).
      split; [rewrite R4; subst s1 s0; cbn; by rewrite <- !app_assoc|].
      cbn. rewrite R5, R6. cbn. repeat split; lia.
    - split; [discriminate|]. split; [intros m _|split].
      + destruct (R2 msg eq_refl) as (F1 & F2 & F3 & F4 & F5 & F6).
        unfold Failed. repeat (split; [assumption|]).
        eapply errors_logged_after; [exact F6|reflexivity].
      + exact R3.
      + exists (RegisterAddress (bech32 addr) :: PostSolution (bech32 addr) challengeId nonce
                  :: es ++ [Emit "solution_result"]).
        split.
        * etrans; [exact (f_equal (fun l => l ++ [Emit "solution_result"]) R4)|].
          subst s1 s0. cbn. by rewrite <- !app_assoc.
        * cbn. rewrite !List.filter_app, R5, R6. cbn. repeat split; lia. }
  assert (Hfin : forall r : Completion * Orchestrator,
            (exists es, effects r.2
                        = effects s ++ PostSolution (bech32 addr) challengeId nonce :: es
               /\ (List.length (List.filter isPost es) <= 1)%nat
               /\ (List.length (List.filter isRegistration es) <= 1)%nat
               /\ (List.length (List.filter isPost es) = 1%nat ->
                   List.length (List.filter isRegistration es) = 1%nat)) ->
            exists es, effects r.2 = effects s ++ es
               /\ (List.length (List.filter isPost es) <= 2)%nat
               /\ (List.length (List.filter isRegistration es) <= 1)%nat
               /\ (List.length (List.filter isPost es) = 2%nat ->
                   List.length (List.filter isRegistration es) = 1%nat)).
  { intros r (es & H1 & H2 & H3 & H4).
    exists (PostSolution (bech32 addr) challengeId nonce :: es). split; [exact H1|].
    cbn. split; [lia|]. split; [exact H3|]. intros H. apply H4. lia. }
  destruct (axiosPost _ (firstPost env)) as [r|e].
  - destruct (_ && _).
    + cbn [fst snd].
      destruct (acceptSolution_accepted env addr challengeId nonce hash devFee r s0)
        as (Ha & Hc).
      split; [intros _ _; left; exact Ha|]. split; [discriminate|]. split; [exact Hc|].
      exists [PostSolution (bech32 addr) challengeId nonce;
              Emit "solution_result"; Emit "solution"].
      split; [|cbn; repeat split; lia].
      unfold acceptSolution. destruct devFee; cbn; by rewrite <- !app_assoc.
    + destruct (Herr (mkError ("Server rejected solution: " ++ showZ (status r)
                                 ++ " " ++ statusText r) None None)) as (H1 & H2 & H3 & H4).
      split; [intros _; exact H1|]. split; [exact H2|]. split; [exact H3|].
      by apply Hfin.
  - destruct (Herr e) as (H1 & H2 & H3 & H4).
    split; [intros _; exact H1|]. split; [exact H2|]. split; [exact H3|]. by apply Hfin.
Qed.

(** How a call of [submitSolution] can end.  Without a wallet manager it
    returns and does nothing.  Otherwise, when it returns, either the
    solution was accepted (one receipt with the caller's dev-fee flag, the
    counters moved, nothing logged as an error) or the service called it a
    duplicate (no receipt, the pair marked solved, an error logged); when
    it throws, there is no receipt, nothing is marked solved and at least
    one error is logged.  In every case the locks, the stop flags, the
    failure counters and the set of submitted hashes are left to the
    caller, and the service is posted to at most twice, the second time
    only after one registration of the address. *)
Theorem submitSolution_outcomes (env : SubmitEnv) (addr : DerivedAddress)
    (challengeId nonce hash : string) (devFee : bool) (s : Orchestrator) :
  let r := submitSolution env addr challengeId nonce hash devFee s in
  (walletManager s = None -> r = (Returned, s))
  /\ (is_Some (walletManager s) -> r.1 = Returned ->
        Accepted env addr challengeId nonce hash devFee s r.2
        \/ TakenAsDuplicate addr challengeId s r.2)
  /\ (forall msg, r.1 = Threw msg -> Failed s r.2)
  /\ coordinationUntouched s r.2
  /\ exists es, effects r.2 = effects s ++ es
       /\ (List.length (List.filter isPost es) <= 2)%nat
       /\ (List.length (List.filter isRegistration es) <= 1)%nat
       /\ (List.length (List.filter isPost es) = 2%nat ->
           List.length (List.filter isRegistration es) = 1%nat).
Proof. apply submitSolution_cases. Qed.

End SubmitFurther.

(** ** The worker: batches, locks, siblings and failures *)

Section WorkerFurther.
Import Mining.

Variable matchesDifficulty : string -> string -> bool.
Variable buildPreimage : string -> string -> Challenge -> string.

(** While nothing stops or pauses the worker, and as long as its range ends
    within [2^53], the batch holds one item per nonce, up to the batch size
    and the end of the range. *)
Lemma generateBatch_full (w : Worker) (s : Orchestrator) (currentNonce : Z) :
  w_workerId w ∉ stoppedWorkers s ->
  isRunning s = true -> isMining s = true ->
  currentChallengeId s = Some (w_challengeId w) ->
  submissionKey w ∉ pausedAddresses s ->
  nonceEnd (w_workerId w) <= 9007199254740992 ->
  forall (remaining : nat) (i : Z) (acc : list BatchItem),
    0 <= currentNonce + i <= nonceEnd (w_workerId w) ->
    generateBatch buildPreimage w s currentNonce remaining i acc
    = GenBatch
        (acc ++ map (fun n => mkItem n (nonceHex n)
                                (buildPreimage (nonceHex n) (bech32 (w_addr w))
                                   (w_challenge w)))
                    (idsFrom (currentNonce + i)
                       (Nat.min remaining
                          (Z.to_nat (nonceEnd (w_workerId w) - (currentNonce + i)))))).
Proof.
  intros Hstop Hrun Hmine Hid Hpause Hend.
  induction remaining as [|r IH]; intros i acc Hi; cbn [generateBatch].
  - cbn. by rewrite app_nil_r.
  - rewrite (add_exact currentNonce i) by lia.
    destruct (currentNonce + i <? nonceEnd (w_workerId w)) eqn:Hlt; cbn [negb].
    2:{ apply Z.ltb_ge in Hlt.
        replace (Z.to_nat (nonceEnd (w_workerId w) - (currentNonce + i))) with 0%nat by lia.
        rewrite Nat.min_0_r. cbn. by rewrite app_nil_r. }
    apply Z.ltb_lt in Hlt.
    rewrite (bool_decide_eq_false_2 _ Hstop), Hrun, Hmine, Hid.
    rewrite bool_decide_eq_true_2 by done. cbn [negb orb].
    rewrite (bool_decide_eq_false_2 _ Hpause). rewrite IH by lia.
    rewrite <- app_assoc. do 2 f_equal.
    replace (Z.to_nat (nonceEnd (w_workerId w) - (currentNonce + i)))
      with (S (Z.to_nat (nonceEnd (w_workerId w) - (currentNonce + (i + 1))))) by lia.
    rewrite <- Nat.succ_min_distr, idsFrom_cons. cbn [map app].
    by rewrite Z.add_assoc.
Qed.

Lemma generateBatch_reads (w : Worker) (s s' : Orchestrator) (currentNonce : Z) :
  isRunning s' = isRunning s -> isMining s' = isMining s ->
  currentChallengeId s' = currentChallengeId s ->
  stoppedWorkers s' = stoppedWorkers s ->
  pausedAddresses s' = pausedAddresses s ->
  forall remaining i acc,
    generateBatch buildPreimage w s' currentNonce remaining i acc
    = generateBatch buildPreimage w s currentNonce remaining i acc.
Proof.
  intros H1 H2 H3 H4 H5.
  induction remaining as [|r IH]; intros i acc; [reflexivity|].
  cbn [generateBatch]. rewrite H1, H2, H3, H4, H5.
  by repeat case_match.
Qed.

Lemma loopHead_reads (w : Worker) (currentNonce : Z) (s s' : Orchestrator) :
  isRunning s' = isRunning s -> isMining s' = isMining s ->
  currentChallengeId s' = currentChallengeId s ->
  addressSubmissionFailures s' = addressSubmissionFailures s ->
  solvedAddressChallenges s' = solvedAddressChallenges s ->
  stoppedWorkers s' = stoppedWorkers s ->
  workerStats s' = workerStats s ->
  pausedAddresses s' = pausedAddresses s ->
  (loopHead buildPreimage w currentNonce s').1 = (loopHead buildPreimage w currentNonce s).1.
Proof.
  intros H1 H2 H3 H4 H5 H6 H7 H8. unfold loopHead, isSolved.
  rewrite H1, H2, H3, H4, H5, H6, H7, H8.
  rewrite (generateBatch_reads w s s' currentNonce H1 H2 H3 H6 H8).
  by repeat case_match.
Qed.

Lemma loopHead_ignores_configuration (w : Worker) (currentNonce : Z) (s : Orchestrator)
    (u : ConfigUpdate) :
  (loopHead buildPreimage w currentNonce (updateConfiguration u s)).1
  = (loopHead buildPreimage w currentNonce s).1.
Proof.
  apply loopHead_reads; by destruct u as [[t|] [b|] [m|] [p|]].
Qed.

(** When a pass of the worker's loop gets as far as hashing, every guard
    held at that moment: the orchestrator is running and mining on the
    worker's challenge, the address is neither solved nor paused, the
    worker is not stopped and the failure budget is not used up.  For a
    worker id up to [9007198] the batch then holds the next
    [min (batch size) (nonces left in the range)] nonces, each printed as
    sixteen hex digits and put into a preimage with the challenge data the
    worker captured on entry, and the state is untouched.  The batch size
    is the one the worker read when it entered: a change of the
    configuration since then does not change the batch. *)
Theorem loopHead_batch_guards (w : Worker) (currentNonce : Z) (s s1 : Orchestrator)
    (items : list BatchItem) (nextNonce : Z) :
  0 <= w_workerId w <= 9007198 ->
  0 <= currentNonce ->
  loopHead buildPreimage w currentNonce s = (Batch items nextNonce, s1) ->
  s1 = s
  /\ isRunning s = true /\ isMining s = true
  /\ currentChallengeId s = Some (w_challengeId w)
  /\ currentNonce < nonceEnd (w_workerId w)
  /\ nonceEnd (w_workerId w) = (w_workerId w + 1) * 1000000000
  /\ default 0 (addressSubmissionFailures s !! submissionKey w) < w_maxFailures w
  /\ isSolved s (bech32 (w_addr w)) (w_challengeId w) = false
  /\ (w_workerId w ∉ stoppedWorkers s)
  /\ (submissionKey w ∉ pausedAddresses s)
  /\ items
     = map (fun n => mkItem n (nonceHex n)
                       (buildPreimage (nonceHex n) (bech32 (w_addr w)) (w_challenge w)))
           (idsFrom currentNonce
              (Nat.min (Z.to_nat (w_batchSize w))
                 (Z.to_nat (nonceEnd (w_workerId w) - currentNonce))))
  /\ items <> []
  /\ nextNonce = currentNonce + Z.of_nat (List.length items)
  /\ nextNonce <= nonceEnd (w_workerId w)
  /\ (forall u, (loopHead buildPreimage w currentNonce (updateConfiguration u s)).1
                = Batch items nextNonce)
  /\ (forall addr devFee maxFailures romReady now s0 s0',
        enterWorker addr devFee (w_workerId w) maxFailures romReady now s0 = (Some w, s0') ->
        w_batchSize w = getBatchSize s0).
Proof.
  intros Hw Hn0 H.
  destruct (nonce_range_exact _ Hw) as (_ & Hend).
  assert (Hend' : nonceEnd (w_workerId w) <= 9007199254740992) by lia.
  assert (Hcfg : forall u, (loopHead buildPreimage w currentNonce
                              (updateConfiguration u s)).1 = Batch items nextNonce)
    by (intros u; by rewrite loopHead_ignores_configuration, H).
  assert (Hentry : forall addr devFee maxFailures romReady now s0 s0',
            enterWorker addr devFee (w_workerId w) maxFailures romReady now s0
            = (Some w, s0') -> w_batchSize w = getBatchSize s0).
  { intros addr devFee maxFailures romReady now s0 s0'. unfold enterWorker.
    destruct (currentChallenge s0); [|discriminate].
    destruct (currentChallengeId s0) as [cid|]; [|discriminate].
    destruct (String.eqb cid ""); [discriminate|].
    destruct (negb romReady); [discriminate|]. cbv zeta. intros E.
    injection E as <- _. reflexivity. }
  unfold loopHead in H.
  destruct (isRunning s) eqn:Hrun; [|discriminate].
  destruct (isMining s) eqn:Hmine; [|discriminate].
  destruct (bool_decide (currentChallengeId s = Some (w_challengeId w))) eqn:Hid;
    [|discriminate].
  destruct (currentNonce <? nonceEnd (w_workerId w)) eqn:Hlt; [|discriminate].
  cbn [andb negb] in H.
  destruct (w_maxFailures w <=? _) eqn:Hmax; [discriminate|].
  destruct (isSolved s _ _) eqn:Hsolved; [discriminate|].
  destruct (bool_decide (w_workerId w ∈ stoppedWorkers s)) eqn:Hstop.
  { by destruct (workerStats s !! w_workerId w). }
  destruct (bool_decide (submissionKey w ∈ pausedAddresses s)) eqn:Hpause; [discriminate|].
  apply bool_decide_eq_true in Hid. apply bool_decide_eq_false in Hstop, Hpause.
  apply Z.ltb_lt in Hlt. apply Z.leb_gt in Hmax.
  rewrite (generateBatch_full w s currentNonce Hstop Hrun Hmine Hid Hpause Hend') in H
    by lia.
  rewrite Z.add_0_r in H. cbn [app] in H.
  set (k := Nat.min _ _) in H |- *.
  set (l := map _ (idsFrom currentNonce k)) in H |- *.
  assert (Hlen : List.length l = k)
    by (subst l; unfold idsFrom; by rewrite !length_map, length_seq).
  assert (Hk : currentNonce + Z.of_nat k <= nonceEnd (w_workerId w)) by (subst k; lia).
  assert (Hitems : items = l
                   /\ nextNonce = Js.add currentNonce (Z.of_nat (List.length l))
                   /\ s1 = s /\ l <> []).
  { destruct l as [|it its]; [discriminate|]. by injection H as <- <- <-. }
  destruct Hitems as (-> & Hnext & -> & Hne).
  rewrite Hlen in Hnext |- *.
  assert (Hexact : Js.add currentNonce (Z.of_nat k) = currentNonce + Z.of_nat k)
    by (apply add_exact; lia).
  rewrite Hexact in Hnext.
  repeat split; try done; lia.
Qed.

Lemma loopHead_no_batch (w : Worker) (nonce : Z) (s : Orchestrator) :
  w_workerId w ∈ stoppedWorkers s
  \/ submissionKey w ∈ pausedAddresses s
  \/ isSolved s (bech32 (w_addr w)) (w_challengeId w) = true
  \/ w_maxFailures w <= default 0 (addressSubmissionFailures s !! submissionKey w) ->
  forall items nextNonce s1,
    loopHead buildPreimage w nonce s <> (Batch items nextNonce, s1).
Proof.
  intros H items nextNonce s1. unfold loopHead.
  destruct (negb _); [discriminate|].
  destruct (w_maxFailures w <=? _) eqn:Hmax; [discriminate|]. apply Z.leb_gt in Hmax.
  destruct (isSolved s _ _) eqn:Hsolved; [discriminate|].
  destruct (bool_decide (w_workerId w ∈ stoppedWorkers s)) eqn:Hstop.
  { by destruct (workerStats s !! w_workerId w). }
  destruct (bool_decide (submissionKey w ∈ pausedAddresses s)) eqn:Hpause; [discriminate|].
  apply bool_decide_eq_false in Hstop, Hpause.
  destruct H as [H|[H|[H|H]]]; [done|done|discriminate|lia].
Qed.

(** The claim a worker makes on finding a hash: afterwards the stopped
    workers are those stopped before and every other worker whose entry in
    the worker table is [mining] on the same address index, and no others;
    the address is locked and paused, the hash is on record, the claimant's
    own entry says [submitting] with one solution more, and no stopped
    worker and no worker of the paused address gets to hash another batch
    in this state. *)
Theorem claimSubmission_effects (w : Worker) (hash : string) (s : Orchestrator) :
  let s' := claimSubmission w hash s in
  (forall k : Z,
     k ∈ stoppedWorkers s'
     <-> k ∈ stoppedWorkers s
         \/ (k <> w_workerId w
             /\ exists st, workerStats s !! k = Some st
                  /\ ws_addressIndex st = index (w_addr w) /\ ws_status st = mining))
  /\ submissionKey w ∈ submittingAddresses s'
  /\ submissionKey w ∈ pausedAddresses s'
  /\ hash ∈ submittedSolutions s'
  /\ workerStats s' !! w_workerId w = markSubmitting <$> workerStats s !! w_workerId w
  /\ (forall k, k <> w_workerId w -> workerStats s' !! k = workerStats s !! k)
  /\ (forall w' nonce items nextNonce s1,
        w_workerId w' ∈ stoppedWorkers s' \/ submissionKey w' = submissionKey w ->
        loopHead buildPreimage w' nonce s' <> (Batch items nextNonce, s1)).
Proof.
  cbv zeta.
  assert (Hkey : submissionKey w ∈ pausedAddresses (claimSubmission w hash s))
    by (apply elem_of_union_l, elem_of_singleton; reflexivity).
  split; [|split; [|split; [exact Hkey|split; [|split; [|split]]]]].
  - intros k. unfold claimSubmission, stopSiblings. cbn.
    rewrite elem_of_union, elem_of_dom. apply or_iff_compat_l. split.
    + intros [st Hst]. apply map_lookup_filter_Some in Hst as (Hst & Hne & Hidx & Hm).
      split; [exact Hne|]. by exists st.
    + intros (Hne & st & Hst & Hidx & Hm). exists st.
      apply map_lookup_filter_Some. done.
  - apply elem_of_union_l, elem_of_singleton. reflexivity.
  - apply elem_of_union_l, elem_of_singleton. reflexivity.
  - unfold claimSubmission. cbn. apply lookup_alter_eq.
  - intros k Hk. unfold claimSubmission. cbn. by apply lookup_alter_ne.
  - intros w' nonce items nextNonce s1 [H|H]; apply loopHead_no_batch; [by left|].
    right. left. by rewrite H.
Qed.

(** A failed submission: the failure counter of the address and challenge
    goes up by one, the locks are released, the hash is forgotten and every
    stop flag is cleared, nothing is marked solved.  Once the counter has
    reached a worker's budget, that worker never hashes for the pair again:
    its loop ends at the budget check or before. *)
Theorem settleSubmission_failure (w : Worker) (hash msg : string) (s : Orchestrator) :
  let r := settleSubmission w hash (Threw msg) s in
  let failures := default 0 (addressSubmissionFailures s !! submissionKey w) in
  r.1 = Continue
  /\ addressSubmissionFailures r.2 !! submissionKey w = Some (failures + 1)
  /\ stoppedWorkers r.2 = ∅
  /\ (hash ∉ submittedSolutions r.2)
  /\ (submissionKey w ∉ submittingAddresses r.2)
  /\ (submissionKey w ∉ pausedAddresses r.2)
  /\ solvedAddressChallenges r.2 = solvedAddressChallenges s
  /\ (forall w' nonce,
        submissionKey w' = submissionKey w ->
        w_maxFailures w' <= failures + 1 ->
        (loopHead buildPreimage w' nonce r.2).1 = WhileExit
        \/ (loopHead buildPreimage w' nonce r.2).1 = MaxFailuresReached).
Proof.
  cbv zeta. unfold settleSubmission. cbn [fst snd].
  split; [done|]. split; [cbn; apply lookup_insert_eq|]. split; [done|].
  split; [cbn; intros H; apply elem_of_difference in H as [_ H];
          apply H, elem_of_singleton; reflexivity|].
  split; [cbn; intros H; apply elem_of_difference in H as [_ H];
          apply H, elem_of_singleton; reflexivity|].
  split; [cbn; intros H; apply elem_of_difference in H as [_ H];
          apply H, elem_of_singleton; reflexivity|].
  split; [done|].
  intros w' nonce Hkey Hmax. unfold loopHead.
  destruct (negb _); [by left|]. right.
  set (s' := set_stoppedWorkers _ _).
  assert (Hf : addressSubmissionFailures s' !! submissionKey w'
               = Some (default 0 (addressSubmissionFailures s !! submissionKey w) + 1))
    by (rewrite Hkey; apply lookup_insert_eq).
  rewrite Hf. change (default 0 (Some ?x)) with x. apply Z.leb_le in Hmax. by rewrite Hmax.
Qed.

(** A submission that returned: the pair is solved, the locks are released,
    the failure counter is dropped and the worker's entry says [completed];
    every worker of the pair then leaves its loop without hashing. *)
Theorem settleSubmission_success (w : Worker) (hash : string) (s : Orchestrator) :
  let r := settleSubmission w hash Returned s in
  r.1 = Return
  /\ isSolved r.2 (bech32 (w_addr w)) (w_challengeId w) = true
  /\ addressSubmissionFailures r.2 !! submissionKey w = None
  /\ (submissionKey w ∉ submittingAddresses r.2)
  /\ (submissionKey w ∉ pausedAddresses r.2)
  /\ submittedSolutions r.2 = submittedSolutions s
  /\ stoppedWorkers r.2 = stoppedWorkers s
  /\ workerStats r.2 !! w_workerId w = withStatus completed <$> workerStats s !! w_workerId w
  /\ (forall w' nonce items nextNonce s1,
        bech32 (w_addr w') = bech32 (w_addr w) -> w_challengeId w' = w_challengeId w ->
        loopHead buildPreimage w' nonce r.2 <> (Batch items nextNonce, s1)).
Proof.
  cbv zeta. unfold settleSubmission. cbn [fst snd].
  assert (Hs : isSolved
                 (set_solvedAddressChallenges
                    (addSolved (bech32 (w_addr w)) (w_challengeId w)
                       (solvedAddressChallenges s)) s)
                 (bech32 (w_addr w)) (w_challengeId w) = true).
  { unfold isSolved, addSolved. cbn. rewrite lookup_insert_eq.
    apply bool_decide_eq_true, elem_of_union_l, elem_of_singleton. reflexivity. }
  split; [done|]. split; [exact Hs|]. split; [cbn; apply lookup_delete_eq|].
  split; [cbn; intros H; apply elem_of_difference in H as [_ H];
          apply H, elem_of_singleton; reflexivity|].
  split; [cbn; intros H; apply elem_of_difference in H as [_ H];
          apply H, elem_of_singleton; reflexivity|].
  split; [done|]. split; [done|]. split; [cbn; apply lookup_alter_eq|].
  intros w' nonce items nextNonce s1 Ha Hc. apply loopHead_no_batch.
  right. right. left. rewrite Ha, Hc. exact Hs.
Qed.

Lemma released_sets (X : gset string) (key : string) :
  (key ∉ ({[key]} ∪ X) ∖ {[key]})
  /\ forall k, k <> key -> (k ∈ ({[key]} ∪ X) ∖ {[key]} <-> k ∈ X).
Proof. split; [set_solver|]. intros k Hk. set_solver. Qed.

Lemma validateSolution_cases (w : Worker) (hash : string) (sh : string + string)
    (s : Orchestrator) :
  let v := validateSolution matchesDifficulty w hash sh s in
  v = (Validated, s)
  \/ (exists msg, v = (RehashFailed msg, s) /\ sh = inr msg)
  \/ ((v.1 = DiscardedRecomputed \/ v.1 = DiscardedDifficulty)
      /\ submittingAddresses v.2 = submittingAddresses s ∖ {[submissionKey w]}
      /\ pausedAddresses v.2 = pausedAddresses s ∖ {[submissionKey w]}
      /\ receipts v.2 = receipts s).
Proof.
  cbv zeta.
  assert (Hcd : forall vc,
            let v := checkDifficulty matchesDifficulty w hash vc s in
            v = (Validated, s)
            \/ (v.1 = DiscardedDifficulty
                /\ submittingAddresses v.2 = submittingAddresses s ∖ {[submissionKey w]}
                /\ pausedAddresses v.2 = pausedAddresses s ∖ {[submissionKey w]}
                /\ receipts v.2 = receipts s)).
  { intros vc. cbv zeta. unfold checkDifficulty. destruct (_ && _); [right|by left]. done. }
  unfold validateSolution. destruct (currentChallenge s) as [vc|]; [|by left].
  destruct (dataChanged _ _).
  - destruct sh as [h|msg]; [|right; left; by exists msg].
    destruct (negb _); [right; right; split; [by left|done]|].
    destruct (Hcd vc) as [->|(H1 & H2)]; [by left|right; right]. split; [by right|done].
  - destruct (Hcd vc) as [->|(H1 & H2)]; [by left|right; right]. split; [by right|done].
Qed.

Lemma onSolutionFound_cases (w : Worker) (item : BatchItem) (hash : string)
    (env : HitEnv) (s : Orchestrator) :
  hash ∉ submittedSolutions s ->
  submissionKey w ∉ submittingAddresses s ->
  let r := onSolutionFound matchesDifficulty w item hash env s in
  let key := submissionKey w in
  (* the re-hash threw: the claim stands *)
  (exists msg, r = (Raise msg, claimSubmission w hash s)
     /\ serverHash env = inr msg
     /\ currentChallengeId s = Some (w_challengeId w))
  (* every other way out *)
  \/ ((forall msg, r.1 <> Raise msg)
      /\ submittingAddresses r.2 = ({[key]} ∪ submittingAddresses s) ∖ {[key]}
      /\ pausedAddresses r.2 = ({[key]} ∪ pausedAddresses s) ∖ {[key]}
      /\ (receipts r.2 = receipts s
          \/ (r.1 = Return
              /\ isSolved r.2 (bech32 (w_addr w)) (w_challengeId w) = true
              /\ exists cr,
                   receipts r.2
                   = receipts s
                     ++ [mkReceipt (submitTs (submitEnv env)) (bech32 (w_addr w))
                           (index (w_addr w)) (w_challengeId w) (b_nonce item) hash cr
                           (w_isDevFee w)]))).
Proof.
  intros Hnew Hfree. cbv zeta. unfold onSolutionFound.
  rewrite (bool_decide_eq_false_2 _ Hnew), (bool_decide_eq_false_2 _ Hfree).
  set (s1 := claimSubmission w hash s).
  assert (Hsub1 : submittingAddresses s1 = {[submissionKey w]} ∪ submittingAddresses s)
    by done.
  assert (Hp1 : pausedAddresses s1 = {[submissionKey w]} ∪ pausedAddresses s) by done.
  assert (Hr1 : receipts s1 = receipts s) by done.
  assert (Hid1 : currentChallengeId s1 = currentChallengeId s) by done.
  destruct (bool_decide (currentChallengeId s1 = Some (w_challengeId w))) eqn:Hid;
    cbn [negb].
  2:{ right. cbn [fst snd]. split; [done|]. split; [done|]. split; [done|]. by left. }
  apply bool_decide_eq_true in Hid. rewrite Hid1 in Hid.
  destruct (validateSolution_cases w hash (serverHash env) s1)
    as [Hv|[(msg & Hv & Hsh)|(Hv & Hvs & Hvp & Hvr)]].
  - rewrite Hv. right.
    destruct (submitSolution_cases (submitEnv env) (w_addr w) (w_challengeId w)
                (b_nonce item) hash (w_isDevFee w) s1)
      as (Hnone & Hret & Hthrew & Hco & _).
    destruct Hco as (_ & Hcs & Hcp & _).
    destruct (submitSolution _ _ _ _ _ _ s1) as [[|msg] s3] eqn:Hsubmit;
      cbn [fst snd] in *; unfold settleSubmission; cbn [fst snd].
    + split; [done|].
      split; [transitivity (submittingAddresses s3 ∖ {[submissionKey w]});
              [reflexivity|by rewrite Hcs, Hsub1]|].
      split; [transitivity (pausedAddresses s3 ∖ {[submissionKey w]});
              [reflexivity|by rewrite Hcp, Hp1]|].
      assert (Hsolved : isSolved
                (set_solvedAddressChallenges
                   (addSolved (bech32 (w_addr w)) (w_challengeId w)
                      (solvedAddressChallenges s3)) s3)
                (bech32 (w_addr w)) (w_challengeId w) = true).
      { unfold isSolved, addSolved. cbn. rewrite lookup_insert_eq.
        apply bool_decide_eq_true, elem_of_union_l, elem_of_singleton. reflexivity. }
      destruct (walletManager s1) as [wm|] eqn:Hwm.
      * destruct (Hret ltac:(by eexists) eq_refl) as [Hacc|Hdup].
        -- right. split; [done|]. split; [exact Hsolved|].
           destruct Hacc as ((cr & Hcr) & _). exists cr. exact Hcr.
        -- left. destruct Hdup as (Hrc & _). exact Hrc.
      * left. pose proof (Hnone eq_refl) as E. by injection E as <-.
    + split; [done|].
      split; [transitivity (submittingAddresses s3 ∖ {[submissionKey w]});
              [reflexivity|by rewrite Hcs, Hsub1]|].
      split; [transitivity (pausedAddresses s3 ∖ {[submissionKey w]});
              [reflexivity|by rewrite Hcp, Hp1]|].
      left. destruct (Hthrew msg eq_refl) as (Hrc & _). exact Hrc.
  - rewrite Hv. left. exists msg. done.
  - right.
    destruct (validateSolution _ _ _ _ s1) as [v s2]; cbn [fst snd] in *.
    assert (Hflow : (match v with
                     | Validated =>
                         let '(res, s3) :=
                           submitSolution (submitEnv env) (w_addr w) (w_challengeId w)
                             (b_nonce item) hash (w_isDevFee w) s2 in
                         settleSubmission w hash res s3
                     | RehashFailed msg => (Raise msg, s2)
                     | _ => (Continue, s2)
                     end) = (Continue, s2))
      by (destruct Hv as [->| ->]; done).
    rewrite Hflow. cbn [fst snd]. split; [done|].
    split; [by rewrite Hvs, Hsub1|]. split; [by rewrite Hvp, Hp1|]. left. by rewrite Hvr.
Qed.

(** The locks of a found hash.  A worker that takes the claim always gives
    the submission lock and the pause of its address back, whichever way
    the hit ends, with one exception: when the re-hash against the changed
    challenge data throws, the exception leaves the claim in place, the
    address stays locked and paused and the hash on record, and no worker
    of that address hashes another batch in that state.  The locks of other
    addresses are never touched. *)
Theorem onSolutionFound_locks (w : Worker) (item : BatchItem) (hash : string)
    (env : HitEnv) (s : Orchestrator) :
  hash ∉ submittedSolutions s ->
  submissionKey w ∉ submittingAddresses s ->
  let r := onSolutionFound matchesDifficulty w item hash env s in
  let key := submissionKey w in
  (forall k, k <> key ->
     (k ∈ submittingAddresses r.2 <-> k ∈ submittingAddresses s)
     /\ (k ∈ pausedAddresses r.2 <-> k ∈ pausedAddresses s))
  /\ match r.1 with
     | Raise msg =>
         serverHash env = inr msg
         /\ key ∈ submittingAddresses r.2 /\ key ∈ pausedAddresses r.2
         /\ hash ∈ submittedSolutions r.2
         /\ forall w' nonce items nextNonce s1,
              submissionKey w' = key ->
              loopHead buildPreimage w' nonce r.2 <> (Batch items nextNonce, s1)
     | _ => (key ∉ submittingAddresses r.2) /\ (key ∉ pausedAddresses r.2)
     end.
Proof.
  intros Hnew Hfree r key.
  destruct (onSolutionFound_cases w item hash env s Hnew Hfree)
    as [(msg & Hr & Hsh & _)|(Hflow & Hs & Hp & _)]; fold r in Hr || fold r in Hflow, Hs, Hp.
  - rewrite Hr. cbn [fst snd]. split.
    + intros k Hk. unfold claimSubmission. cbn.
      rewrite !elem_of_union, !elem_of_singleton. tauto.
    + split; [exact Hsh|].
      split; [apply elem_of_union_l, elem_of_singleton; reflexivity|].
      split; [apply elem_of_union_l, elem_of_singleton; reflexivity|].
      split; [apply elem_of_union_l, elem_of_singleton; reflexivity|].
      intros w' nonce items nextNonce s1 Hkey. apply loopHead_no_batch.
      right. left. rewrite Hkey.
      apply elem_of_union_l, elem_of_singleton. reflexivity.
  - destruct (released_sets (submittingAddresses s) key) as (Hs1 & Hs2).
    destruct (released_sets (pausedAddresses s) key) as (Hp1 & Hp2).
    rewrite Hs, Hp. split; [intros k Hk; split; [by apply Hs2|by apply Hp2]|].
    destruct r.1 as [| |msg] eqn:E; [done|done|]. by destruct (Hflow msg).
Qed.

Lemma onSolutionFound_receipts (w : Worker) (item : BatchItem) (hash : string)
    (env : HitEnv) (s : Orchestrator) :
  let r := onSolutionFound matchesDifficulty w item hash env s in
  receipts r.2 = receipts s
  \/ (r.1 = Return
      /\ isSolved r.2 (bech32 (w_addr w)) (w_challengeId w) = true
      /\ exists cr,
           receipts r.2
           = receipts s
             ++ [mkReceipt (submitTs (submitEnv env)) (bech32 (w_addr w))
                   (index (w_addr w)) (w_challengeId w) (b_nonce item) hash cr
                   (w_isDevFee w)]).
Proof.
  cbv zeta.
  destruct (decide (hash ∈ submittedSolutions s)) as [Hin|Hnew].
  { left. unfold onSolutionFound. by rewrite (bool_decide_eq_true_2 _ Hin). }
  destruct (decide (submissionKey w ∈ submittingAddresses s)) as [Hin|Hfree].
  { left. unfold onSolutionFound.
    by rewrite (bool_decide_eq_false_2 _ Hnew), (bool_decide_eq_true_2 _ Hin). }
  destruct (onSolutionFound_cases w item hash env s Hnew Hfree)
    as [(msg & -> & _)|(_ & _ & _ & H)]; [by left|exact H].
Qed.

(** One scan of a batch of hashes writes at most one receipt.  If it writes
    one, the receipt is for a hash of the batch that met the difficulty the
    worker captured, it carries the worker's address, challenge id and
    dev-fee flag and the nonce of that hash, the pair is then solved and the
    scan has ended with a [return]: the hashes after it are not looked at. *)
Theorem scanBatch_one_receipt (w : Worker) (found : list (BatchItem * string * HitEnv))
    (s : Orchestrator) :
  let r := scanBatch matchesDifficulty w found s in
  receipts r.2 = receipts s
  \/ (r.1 = Return
      /\ isSolved r.2 (bech32 (w_addr w)) (w_challengeId w) = true
      /\ exists item hash env cr,
           (item, hash, env) ∈ found
           /\ matchesDifficulty hash (w_difficulty w) = true
           /\ receipts r.2
              = receipts s
                ++ [mkReceipt (submitTs (submitEnv env)) (bech32 (w_addr w))
                      (index (w_addr w)) (w_challengeId w) (b_nonce item) hash cr
                      (w_isDevFee w)]).
Proof.
  cbv zeta. revert s. induction found as [|[[item hash] env] rest IH]; intros s.
  - by left.
  - cbn [scanBatch].
    assert (Hrest : forall s', receipts s' = receipts s ->
              receipts (scanBatch matchesDifficulty w rest s').2 = receipts s
              \/ ((scanBatch matchesDifficulty w rest s').1 = Return
                  /\ isSolved (scanBatch matchesDifficulty w rest s').2
                       (bech32 (w_addr w)) (w_challengeId w) = true
                  /\ exists item0 hash0 env0 cr,
                       (item0, hash0, env0) ∈ (item, hash, env) :: rest
                       /\ matchesDifficulty hash0 (w_difficulty w) = true
                       /\ receipts (scanBatch matchesDifficulty w rest s').2
                          = receipts s
                            ++ [mkReceipt (submitTs (submitEnv env0)) (bech32 (w_addr w))
                                  (index (w_addr w)) (w_challengeId w) (b_nonce item0)
                                  hash0 cr (w_isDevFee w)])).
    { intros s' Hs'. destruct (IH s') as [H|(H1 & H2 & i0 & h0 & e0 & cr & Hin & Hm & Hr)].
      - left. by rewrite H.
      - right. split; [exact H1|]. split; [exact H2|]. exists i0, h0, e0, cr.
        split; [apply elem_of_cons; by right|]. split; [exact Hm|]. by rewrite Hr, Hs'. }
    destruct (matchesDifficulty hash (w_difficulty w)) eqn:Hmd; [|by apply Hrest].
    destruct (onSolutionFound_receipts w item hash env s) as [H|(H1 & H2 & cr & Hr)].
    + destruct (onSolutionFound _ _ _ _ _ s) as [[| |msg] s'];
        cbn [fst snd] in *; [by apply Hrest|by left|by left].
    + destruct (onSolutionFound _ _ _ _ _ s) as [flow s']; cbn [fst snd] in *.
      subst flow. right. split; [done|]. split; [exact H2|]. exists item, hash, env, cr.
      split; [apply elem_of_cons; by left|]. split; [exact Hmd|exact Hr].
Qed.

End WorkerFurther.

(** ** Worker groups and the batch loop *)

Section GroupsFurther.
Import Mining.

Lemma minWorkers_positive (s : Orchestrator) (W : Z) (d : string) :
  1 <= W ->
  (workerGroupingMode s = grouped -> 1 <= workersPerAddress s) ->
  1 <= getMinWorkersPerAddress s W d.
Proof.
  intros HW Hg. unfold getMinWorkersPerAddress.
  destruct (workerGroupingMode s); [|lia|by apply Hg].
  pose proof (auto_min_bounds W HW) as H. cbv zeta in H. lia.
Qed.

Lemma calculateWorkerGroups_general (s : Orchestrator) (addresses : list DerivedAddress)
    (W : Z) (d : string) :
  addresses <> [] ->
  1 <= W ->
  1 <= getMinWorkersPerAddress s W d ->
  let m := getMinWorkersPerAddress s W d in
  let g := Z.max 1 (Z.min (W / m) (Z.of_nat (List.length addresses))) in
  let groups := calculateWorkerGroups s addresses W d in
  Z.of_nat (List.length groups) = g
  /\ concat (map workerIds groups) = idsFrom 0 (Z.to_nat W)
  /\ (forall (i : nat) grp,
        groups !! i = Some grp ->
        g_address grp = addresses !! i /\ is_Some (addresses !! i)
        /\ Z.min m W <= Z.of_nat (List.length (workerIds grp))).
Proof.
  intros Hne HW Hm m g groups. fold m in Hm.
  assert (Hlen : 1 <= Z.of_nat (List.length addresses)).
  { destruct addresses; [done|]. simpl. lia. }
  assert (Hq : 0 <= W / m) by (apply Z.div_pos; lia).
  assert (Hfd : floorDiv W m = Num (W / m)).
  { unfold floorDiv. destruct (m =? 0) eqn:E; [apply Z.eqb_eq in E; lia|done]. }
  destruct (decide (W / m = 0)) as [H0|Hq1].
  - (* fewer workers than the minimum: everything on the first address *)
    assert (Hg : g = 1) by (subst g; lia).
    assert (HWm : W < m).
    { destruct (Z.lt_ge_cases W m) as [|Hge]; [done|].
      assert (1 <= W / m) by (apply Z.div_le_lower_bound; lia). lia. }
    assert (Hgroups : groups = [mkGroup (Js.index addresses 0) (idsFrom 0 (Z.to_nat W))]).
    { subst groups. unfold calculateWorkerGroups. fold m. rewrite Hfd, H0. cbn [minWith].
      by rewrite Z.min_l by lia. }
    rewrite Hgroups, Hg. split; [done|]. split; [cbn; by rewrite app_nil_r|].
    intros [|i] grp Hl; [|done]. injection Hl as <-. cbn.
    split; [done|]. split; [destruct addresses; [done|by eexists]|].
    unfold idsFrom. rewrite length_map, length_seq. lia.
  - assert (Hg : g = Z.min (W / m) (Z.of_nat (List.length addresses))) by (subst g; lia).
    assert (Hg1 : 1 <= g) by lia.
    set (base := W / g). set (extra := W mod g).
    assert (Hbase : m <= base).
    { subst base. apply Z.div_le_lower_bound; [lia|].
      assert (m * (W / m) <= W) by (apply Z.mul_div_le; lia). nia. }
    assert (Hextra : 0 <= extra < g) by (subst extra; apply Z.mod_pos_bound; lia).
    assert (Hgroups : groups = buildGroups addresses base extra (Z.to_nat g) 0 0).
    { subst groups. unfold calculateWorkerGroups. fold m. rewrite Hfd. cbn [minWith].
      rewrite <- Hg. destruct g as [|p|p] eqn:Eg; try lia.
      unfold Js.jsRem. rewrite Z.rem_mod_nonneg by lia. reflexivity. }
    rewrite Hgroups. split; [rewrite buildGroups_length; lia|]. split.
    + rewrite buildGroups_concat by lia. f_equal. f_equal.
      rewrite Z.add_0_l, Z2Nat.id by lia. unfold groupOffset.
      pose proof (Z.div_mod W g ltac:(lia)) as Hdm. fold base extra in Hdm. lia.
    + intros i grp Hl.
      assert (Hi : (i < Z.to_nat g)%nat).
      { apply lookup_lt_Some in Hl. by rewrite buildGroups_length in Hl. }
      rewrite buildGroups_lookup in Hl by lia. injection Hl as <-. cbn.
      rewrite Z.add_0_l. unfold Js.index.
      destruct (Z.of_nat i <? 0) eqn:E; [apply Z.ltb_lt in E; lia|].
      rewrite Nat2Z.id. split; [done|]. split; [apply lookup_lt_is_Some; lia|].
      unfold idsFrom. rewrite length_map, length_seq. unfold groupSize.
      destruct (Z.of_nat i <? extra); lia.
Qed.

(** The minimum the grouping is named for, in every mode: with at least one
    worker, a non-empty address list and, in [grouped] mode, a configured
    minimum of at least one, every worker id from [0] to [W - 1] is handed
    out exactly once, in order; group [i] mines address [i]; there are never
    more groups than addresses, and every group has at least
    [min m W] workers, where [m] is the minimum of the mode.  With fewer
    workers than [m], and always in [all-on-one] mode, there is one group on
    the first address. *)
Theorem calculateWorkerGroups_minimum (s : Orchestrator) (addresses : list DerivedAddress)
    (W : Z) (d : string) :
  addresses <> [] ->
  1 <= W ->
  (workerGroupingMode s = grouped -> 1 <= workersPerAddress s) ->
  let m := getMinWorkersPerAddress s W d in
  let groups := calculateWorkerGroups s addresses W d in
  concat (map workerIds groups) = idsFrom 0 (Z.to_nat W)
  /\ (1 <= List.length groups <= List.length addresses)%nat
  /\ (forall (i : nat) grp,
        groups !! i = Some grp ->
        g_address grp = addresses !! i /\ is_Some (addresses !! i)
        /\ Z.min m W <= Z.of_nat (List.length (workerIds grp)))
  /\ (W < m \/ workerGroupingMode s = all_on_one -> List.length groups = 1%nat).
Proof.
  intros Hne HW Hmode m groups.
  pose proof (minWorkers_positive s W d HW Hmode) as Hm.
  destruct (calculateWorkerGroups_general s addresses W d Hne HW Hm) as (Hlen & Hcat & Hgrp).
  fold m groups in Hlen, Hcat, Hgrp. fold m in Hm.
  assert (Hlen1 : (1 <= List.length addresses)%nat)
    by (destruct addresses; [done|simpl; lia]).
  split; [exact Hcat|]. split; [lia|]. split; [exact Hgrp|].
  intros [Hlt|Hall].
  - rewrite Z.div_small in Hlen by lia. lia.
  - assert (m = W) as -> by (subst m; unfold getMinWorkersPerAddress; by rewrite Hall).
    rewrite Z.div_same in Hlen by lia. lia.
Qed.

Lemma calculateWorkerGroups_minimum_witness :
  let three := [Scenario.addrA; Scenario.addrB; Scenario.addrC] in
  let s := updateConfiguration (mkUpdate None None (Some grouped) (Some 4)) Scenario.initial in
  map workerIds (calculateWorkerGroups s three 11 "00ff") = [[0; 1; 2; 3; 4; 5]; [6; 7; 8; 9; 10]]
  /\ concat (map workerIds (calculateWorkerGroups s three 11 "00ff")) = idsFrom 0 11.
Proof.
  intros three s. split; [reflexivity|].
  apply (calculateWorkerGroups_minimum s three 11 "00ff"); [discriminate|lia|].
  intros _. vm_compute. discriminate.
Defined.

Lemma collectBatch_spec (s : Orchestrator) (currentId : string) (B : Z) :
  forall (rest batch : list DerivedAddress) (checked : Z),
    Z.of_nat (List.length batch) <= B ->
    let r := collectBatch s currentId (Num B) rest batch checked in
    Z.of_nat (List.length r.1) <= B
    /\ exists added,
         r.1 = batch ++ added
         /\ forall a, a ∈ added -> a ∈ rest /\ isSolved s (bech32 a) currentId = false.
Proof.
  induction rest as [|addr rest IH]; intros batch checked Hlen; cbn [collectBatch].
  - split; [exact Hlen|]. exists []. split; [by rewrite app_nil_r|].
    intros a Ha. by apply elem_of_nil in Ha.
  - cbn [ltNum]. destruct (Z.of_nat (List.length batch) <? B) eqn:Hlt.
    2:{ cbn [fst]. split; [exact Hlen|]. exists []. split; [by rewrite app_nil_r|].
        intros a Ha. by apply elem_of_nil in Ha. }
    apply Z.ltb_lt in Hlt.
    destruct (isSolved s (bech32 addr) currentId) eqn:Hs.
    + destruct (IH batch (checked + 1) Hlen) as (H1 & added & H2 & H3).
      split; [exact H1|]. exists added. split; [exact H2|].
      intros a Ha. destruct (H3 a Ha). split; [apply elem_of_cons; by right|done].
    + assert (Hlen' : Z.of_nat (List.length (batch ++ [addr])) <= B)
        by (rewrite length_app; cbn; lia).
      destruct (IH (batch ++ [addr]) (checked + 1) Hlen') as (H1 & added & H2 & H3).
      split; [exact H1|]. exists (addr :: added).
      split; [by rewrite H2, <- app_assoc|].
      intros a Ha. apply elem_of_cons in Ha as [->|Ha].
      * split; [apply elem_of_cons; by left|done].
      * destruct (H3 a Ha). split; [apply elem_of_cons; by right|done].
Qed.

Lemma getDevFeeAddressForBatch_unsolved (s : Orchestrator) (a : DerivedAddress)
    (s' : Orchestrator) (cid : string) :
  getDevFeeAddressForBatch s = (Some a, s') ->
  currentChallengeId s = Some cid ->
  index a = -1 /\ isSolved s' (bech32 a) cid = false
  /\ DevFee.validPrefix (bech32 a) = true
  /\ solvedAddressChallenges s' = solvedAddressChallenges s.
Proof.
  unfold getDevFeeAddressForBatch. intros H Hid. rewrite Hid in H.
  destruct (currentChallenge s); [|discriminate].
  destruct (String.eqb cid ""); [discriminate|].
  destruct (DevFee.getDevFeeAddress cid (devFeeManager s)) as [[addr|err] dm];
    [|discriminate].
  destruct (String.eqb addr "" || _) eqn:Hp; [discriminate|].
  destruct (isSolved _ addr cid) eqn:Hs; [discriminate|].
  injection H as <- <-. cbn. split; [done|]. split; [exact Hs|]. split; [|done].
  apply orb_false_iff in Hp as [_ Hp]. unfold DevFee.validPrefix.
  destruct (Js.startsWith addr "addr1"), (Js.startsWith addr "tnight1"); done.
Qed.

Lemma getDevFeeAddressForBatch_frame (s : Orchestrator) :
  workerThreads (getDevFeeAddressForBatch s).2 = workerThreads s
  /\ workerGroupingMode (getDevFeeAddressForBatch s).2 = workerGroupingMode s
  /\ workersPerAddress (getDevFeeAddressForBatch s).2 = workersPerAddress s
  /\ solvedAddressChallenges (getDevFeeAddressForBatch s).2 = solvedAddressChallenges s.
Proof. unfold getDevFeeAddressForBatch. unchanged. Qed.

(** What the batch loop of [startMining] launches.  When a pass ends with
    the launch of workers, the orchestrator was running and mining on the
    challenge of the loop; [stoppedWorkers] has just been emptied; the
    batch is not empty and every address of it gets a group of its own, in
    batch order; no address of the batch is solved for the challenge; each
    is either one of the addresses the loop was started with or the dev-fee
    address (index [-1], only when a dev-fee round was due, and then the
    dev-fee flag is up); and the groups share out the worker ids below
    [availableWorkers], the number of workers [startMining] read before the
    loop, whatever [workerThreads] has become since. *)
Theorem prepareBatch_launch (availableWorkers : Z) (currentId : string)
    (addressesToMine : list DerivedAddress) (pointer : Z) (s s' : Orchestrator)
    (groups : list WorkerGroup) (checked : Z) :
  prepareBatch availableWorkers currentId addressesToMine pointer s
  = (Launch groups checked, s') ->
  1 <= availableWorkers ->
  (workerGroupingMode s = grouped -> 1 <= workersPerAddress s) ->
  isRunning s = true /\ isMining s = true /\ currentChallengeId s = Some currentId
  /\ stoppedWorkers s' = ∅
  /\ concat (map workerIds groups) = idsFrom 0 (Z.to_nat availableWorkers)
  /\ exists batch,
       batch <> []
       /\ map g_address groups = map Some batch
       /\ forall a, a ∈ batch ->
            isSolved s' (bech32 a) currentId = false
            /\ (a ∈ addressesToMine
                \/ (index a = -1 /\ shouldMineDevFeeNow s = true
                    /\ isDevFeeMining s' = true)).
Proof.
  unfold prepareBatch. intros H HW Hmode.
  destruct (isRunning s) eqn:Hrun; [|discriminate].
  destruct (isMining s) eqn:Hmine; [|discriminate].
  destruct (bool_decide (currentChallengeId s = Some currentId)) eqn:Hid; [|discriminate].
  apply bool_decide_eq_true in Hid. cbn [andb negb] in H.
  destruct (List.filter _ addressesToMine) as [|u us]; [discriminate|].
  set (d := match currentChallenge s with Some c => difficulty c | None => ""%string end)
    in H.
  pose proof (minWorkers_positive s availableWorkers d HW Hmode) as Hm.
  set (m := getMinWorkersPerAddress s availableWorkers d) in H, Hm.
  assert (Hfd : floorDiv availableWorkers m = Num (availableWorkers / m)).
  { unfold floorDiv. destruct (m =? 0) eqn:E; [apply Z.eqb_eq in E; lia|done]. }
  rewrite Hfd in H. cbn [atLeastOne] in H.
  set (B := Z.max 1 (availableWorkers / m)) in H.
  (* the dev-fee address, if one is due *)
  set (first := if shouldMineDevFeeNow s then _ else _) in H.
  assert (Hfirst : Z.of_nat (List.length first.1) <= 1
            /\ workerThreads first.2 = workerThreads s
            /\ workerGroupingMode first.2 = workerGroupingMode s
            /\ workersPerAddress first.2 = workersPerAddress s
            /\ (forall a c, isSolved first.2 a c = isSolved s a c)
            /\ forall a, a ∈ first.1 ->
                 isSolved first.2 (bech32 a) currentId = false
                 /\ index a = -1 /\ shouldMineDevFeeNow s = true
                 /\ isDevFeeMining first.2 = true).
  { subst first. destruct (shouldMineDevFeeNow s) eqn:Hdue.
    - destruct (getDevFeeAddressForBatch s) as [[a|] sd] eqn:Hdev; cbn [fst snd].
      + destruct (getDevFeeAddressForBatch_unsolved s a sd currentId Hdev Hid)
          as (Hi & Hs & _ & Hsame).
        destruct (getDevFeeAddressForBatch_frame s) as (F1 & F2 & F3 & _).
        rewrite Hdev in F1, F2, F3. cbn [snd] in F1, F2, F3.
        split; [cbn; lia|]. split; [exact F1|]. split; [exact F2|]. split; [exact F3|].
        split; [intros a0 c; change (isSolved sd a0 c = isSolved s a0 c);
                unfold isSolved; by rewrite Hsame|].
        intros a0 Ha0. apply elem_of_cons in Ha0 as [->|Ha0];
          [done|by apply elem_of_nil in Ha0].
      + destruct (getDevFeeAddressForBatch_frame s) as (F1 & F2 & F3 & F4).
        rewrite Hdev in F1, F2, F3, F4. cbn [snd] in F1, F2, F3, F4.
        split; [cbn; lia|]. split; [exact F1|]. split; [exact F2|]. split; [exact F3|].
        split; [intros a0 c; unfold isSolved; by rewrite F4|].
        intros a0 Ha0. by apply elem_of_nil in Ha0.
    - cbn [fst snd]. split; [cbn; lia|]. do 4 (split; [done|]).
      intros a0 Ha0. by apply elem_of_nil in Ha0. }
  destruct first as [batch0 s1]. cbn [fst snd] in Hfirst.
  destruct Hfirst as (Hlen0 & HW1 & Hmode1 & Hwpa1 & Hsolved1 & Hdev).
  assert (HlenB : Z.of_nat (List.length batch0) <= B) by (subst B; lia).
  destruct (collectBatch_spec s1 currentId B
              (drop (Z.to_nat pointer) addressesToMine) batch0 0 HlenB)
    as (Hlen & added & Hbatch & Hadded).
  destruct (collectBatch s1 currentId (Num B) _ batch0 0) as [batch checked'].
  cbn [fst snd] in Hlen, Hbatch.
  destruct (_ && _); [discriminate|].
  destruct batch as [|b0 bs] eqn:Hb; [discriminate|]. rewrite <- Hb in *.
  injection H as <- <- <-.
  assert (Hne : batch <> []) by (by rewrite Hb).
  assert (Hm1 : 1 <= getMinWorkersPerAddress s1 availableWorkers d).
  { unfold getMinWorkersPerAddress in *. by rewrite Hmode1, Hwpa1. }
  assert (Hm1eq : getMinWorkersPerAddress s1 availableWorkers d = m).
  { subst m. unfold getMinWorkersPerAddress. by rewrite Hmode1, Hwpa1. }
  destruct (calculateWorkerGroups_general s1 batch availableWorkers d Hne HW Hm1)
    as (Hcount & Hcat & Hgrp).
  rewrite Hm1eq in Hcount.
  split; [done|]. split; [done|]. split; [exact Hid|]. split; [done|].
  split; [exact Hcat|]. exists batch. split; [exact Hne|]. split.
  - assert (Hn : List.length (calculateWorkerGroups s1 batch availableWorkers d)
                 = List.length batch).
    { assert (1 <= Z.of_nat (List.length batch))
        by (rewrite Hb; cbn [List.length]; lia).
      subst B. lia. }
    apply list_eq. intros i. rewrite !list_lookup_fmap.
    destruct (calculateWorkerGroups s1 batch availableWorkers d !! i) as [grp|] eqn:Hl.
    + destruct (Hgrp i grp Hl) as (Ha & [a Hsome] & _). cbn. by rewrite Ha, Hsome.
    + apply lookup_ge_None in Hl. rewrite Hn in Hl.
      apply lookup_ge_None in Hl. by rewrite Hl.
  - intros a Ha. rewrite Hbatch in Ha. apply elem_of_app in Ha as [Ha|Ha].
    + destruct (Hdev a Ha) as (H1 & H2 & H3 & H4). split; [exact H1|]. right. done.
    + destruct (Hadded a Ha) as (H1 & H2). split; [exact H2|]. left.
      exact (elem_of_sublist _ _ _ H1 (sublist_drop _ _)).
Qed.

End GroupsFurther.

(** ** The printed nonce *)

Section NonceFurther.
Import Mining.

Lemma hexDigit_hexChar (d : N) : (d < 16)%N -> hexDigit (hexChar d) = Some d.
Proof.
  intros H. assert (Hk : (N.to_nat d < 16)%nat) by lia.
  rewrite <- (N2Nat.id d). generalize dependent (N.to_nat d). clear. intros k Hk.
  do 16 (destruct k as [|k]; [reflexivity|]). lia.
Qed.

Lemma string_app_cons (c : ascii) (s1 s2 : string) :
  (String c s1 ++ s2)%string = String c (s1 ++ s2).
Proof. reflexivity. Qed.

Lemma string_app_nil_l (s : string) : ("" ++ s)%string = s.
Proof. reflexivity. Qed.

Lemma string_app_nil_r (s : string) : (s ++ "")%string = s.
Proof. induction s as [|c s IH]; [done|]. by rewrite string_app_cons, IH. Qed.

Lemma string_app_assoc (s1 s2 s3 : string) :
  ((s1 ++ s2) ++ s3)%string = (s1 ++ s2 ++ s3)%string.
Proof.
  induction s1 as [|c s1 IH]; [done|]. by rewrite !string_app_cons, IH.
Qed.

Lemma hexValue_app (s1 s2 : string) :
  forall acc : N,
    hexValue (s1 ++ s2) acc
    = match hexValue s1 acc with Some a => hexValue s2 a | None => None end.
Proof.
  induction s1 as [|c s1 IH]; intros acc; [done|].
  rewrite string_app_cons. cbn [hexValue].
  destruct (hexDigit c); [apply IH|done].
Qed.

Lemma length_string_app (s1 s2 : string) :
  String.length (s1 ++ s2) = (String.length s1 + String.length s2)%nat.
Proof.
  induction s1 as [|c s1 IH]; [done|]. rewrite string_app_cons. cbn. by rewrite IH.
Qed.

Lemma toHexAux_digits :
  forall (fuel : nat) (n : N) (acc : string),
    (1 <= fuel)%nat ->
    (n < 16 ^ N.of_nat fuel)%N ->
    exists ds : string,
      toHexAux fuel n acc = (ds ++ acc)%string
      /\ (forall a, hexValue ds a
                    = Some (a * 16 ^ N.of_nat (String.length ds) + n)%N)
      /\ (1 <= String.length ds)%nat
      /\ (String.length ds = 1%nat
          \/ (16 ^ N.of_nat (String.length ds - 1) <= n)%N).
Proof.
  induction fuel as [|f IH]; intros n acc Hf Hn; [lia|].
  cbn [toHexAux].
  assert (Hmod : (n mod 16 < 16)%N) by (apply N.mod_lt; lia).
  assert (Hdm : n = (16 * (n / 16) + n mod 16)%N) by (apply N.div_mod; lia).
  destruct (n / 16 =? 0)%N eqn:Hq.
  - apply N.eqb_eq in Hq. exists (String (hexChar (n mod 16)) "").
    split; [done|]. split; [|split; [cbn; lia|by left]].
    intros a. cbn. rewrite hexDigit_hexChar by exact Hmod. f_equal. lia.
  - apply N.eqb_neq in Hq.
    assert (H16 : forall X : N, (X <= n / 16)%N -> (16 * X <= n)%N).
    { intros X HX. pose proof (N.Div0.mul_div_le n 16). nia. }
    assert (Hqf : (n / 16 < 16 ^ N.of_nat f)%N).
    { apply N.Div0.div_lt_upper_bound.
      replace (16 * 16 ^ N.of_nat f)%N with (16 ^ N.of_nat (S f))%N; [exact Hn|].
      rewrite Nat2N.inj_succ, N.pow_succ_r'. done. }
    assert (Hf1 : (1 <= f)%nat).
    { destruct f; [|lia]. cbn in Hqf. lia. }
    destruct (IH (n / 16)%N (String (hexChar (n mod 16)) acc) Hf1 Hqf)
      as (ds & Hds & Hval & Hlen & Hmin).
    exists (ds ++ String (hexChar (n mod 16)) "")%string.
    split; [|split; [|split]].
    + rewrite Hds. by rewrite string_app_assoc.
    + intros a. rewrite hexValue_app, Hval. cbn.
      rewrite hexDigit_hexChar by exact Hmod. f_equal.
      rewrite length_string_app. cbn [String.length].
      replace (N.of_nat (String.length ds + 1)) with (N.succ (N.of_nat (String.length ds)))
        by lia.
      rewrite N.pow_succ_r'. lia.
    + rewrite length_string_app. cbn. lia.
    + right. rewrite length_string_app. cbn [String.length].
      replace (String.length ds + 1 - 1)%nat with (S (String.length ds - 1))%nat by lia.
      rewrite Nat2N.inj_succ, N.pow_succ_r'.
      destruct Hmin as [H1|Hge].
      * rewrite H1. apply H16. change (16 ^ N.of_nat (1 - 1))%N with 1%N. lia.
      * by apply H16.
Qed.

Lemma hexValue_zeros (k : nat) (s : string) (acc : N) :
  hexValue (zeros k ++ s) acc = hexValue s (acc * 16 ^ N.of_nat k)%N.
Proof.
  revert acc. induction k as [|k IH]; intros acc.
  - cbn [zeros]. rewrite string_app_nil_l. f_equal. cbn. lia.
  - cbn [zeros]. rewrite string_app_cons.
    change (hexValue (String "0" (zeros k ++ s)) acc)
      with (hexValue (zeros k ++ s) (acc * 16 + 0)%N).
    rewrite IH. f_equal. rewrite Nat2N.inj_succ, N.pow_succ_r'. lia.
Qed.

Lemma length_zeros (k : nat) : String.length (zeros k) = k.
Proof. induction k as [|k IH]; cbn; [done|]. by rewrite IH. Qed.

(** The nonce a worker sends is its number, faithfully: for a number below
    [2^64] the string [nonceNum.toString(16).padStart(16, '0')] has exactly
    sixteen characters and reads back, as a hexadecimal numeral, as the
    number itself; two different numbers therefore never print alike. *)
Theorem nonceHex_faithful (n : Z) :
  0 <= n < 2 ^ 64 ->
  String.length (nonceHex n) = 16%nat
  /\ hexValue (nonceHex n) 0 = Some (Z.to_N n)
  /\ forall n', 0 <= n' < 2 ^ 64 -> nonceHex n' = nonceHex n -> n' = n.
Proof.
  assert (Hone : forall m, 0 <= m < 2 ^ 64 ->
            String.length (nonceHex m) = 16%nat
            /\ hexValue (nonceHex m) 0 = Some (Z.to_N m)).
  { intros m Hm. unfold nonceHex, padStart, toHex.
    set (k := Z.to_N m).
    assert (Hk : (k < 2 ^ 64)%N).
    { subst k. change (2 ^ 64)%N with (Z.to_N (2 ^ 64)). lia. }
    assert (Hfuel : (k < 16 ^ N.of_nat (S (N.to_nat (N.log2 k))))%N).
    { rewrite Nat2N.inj_succ, N2Nat.id.
      destruct (N.eq_dec k 0%N) as [E0|Hk0]; [by rewrite E0|].
      assert (Hlt : (k < 2 ^ N.succ (N.log2 k))%N)
        by (apply N.log2_spec; lia).
      eapply N.lt_le_trans; [exact Hlt|].
      apply N.pow_le_mono_l. lia. }
    destruct (toHexAux_digits (S (N.to_nat (N.log2 k))) k "" ltac:(lia) Hfuel) as (ds & Hds & Hval & Hlen & Hmin).
    rewrite Hds.
    rewrite string_app_nil_r.
    assert (Hle : (String.length ds <= 16)%nat).
    { destruct Hmin as [->|Hge]; [lia|].
      destruct (Nat.le_gt_cases (String.length ds) 16) as [|Hgt]; [done|].
      assert (H16 : (16 ^ 16 <= 16 ^ N.of_nat (String.length ds - 1))%N)
        by (apply N.pow_le_mono_r; lia).
      change (16 ^ 16)%N with (2 ^ 64)%N in H16.
      set (X := (16 ^ N.of_nat (String.length ds - 1))%N) in *.
      set (Y := (2 ^ 64)%N) in *. lia. }
    split.
    - rewrite length_string_app, length_zeros. lia.
    - rewrite hexValue_zeros, Hval. f_equal; lia. }
  intros Hn. destruct (Hone n Hn) as (Hlen & Hval).
  split; [exact Hlen|]. split; [exact Hval|].
  intros n' Hn' Heq. destruct (Hone n' Hn') as (_ & Hval').
  rewrite Heq, Hval in Hval'. injection Hval' as E. lia.
Qed.

Lemma nonceHex_faithful_witness :
  nonceHex 1000000000 = "000000003b9aca00"%string
  /\ hexValue (nonceHex 1000000000) 0 = Some 1000000000%N.
Proof.
  split; [reflexivity|].
  apply (nonceHex_faithful 1000000000). split; [lia|reflexivity].
Defined.

End NonceFurther.

(** ** The dev-fee cadence *)

Section CadenceFurther.
Import Mining.

Lemma existsb_devFee_users (l : list ReceiptEntry) :
  Forall (fun r => isDevFee r = false) l -> existsb isDevFee l = false.
Proof.
  intros H. apply existsb_false_all. intros r Hr.
  rewrite Forall_forall in H. apply H. by apply list_elem_of_In.
Qed.

(** How often a dev-fee round falls due, read off [shouldMineDevFeeNow] with
    [getRecentReceipts(n)] yielding the last [n] receipts.  With the rotator
    enabled and stocked, no dev-fee round under way and a ratio [R >= 1]:
    while no dev-fee receipt exists at all, a round is due as soon as
    [R - 1] user receipts exist; after a dev-fee receipt, the next round is
    due only once [R] user receipts have followed it, because the window
    of the last [R] receipts must not hold a dev-fee receipt. *)
Theorem shouldMineDevFeeNow_cadence (s : Orchestrator) (older users : list ReceiptEntry)
    (D : ReceiptEntry) :
  DevFee.isEnabled (devFeeManager s) = true ->
  DevFee.hasValidAddressPool (devFeeManager s) = true ->
  isDevFeeMining s = false ->
  1 <= DevFee.getRatio (devFeeManager s) ->
  Forall (fun r => isDevFee r = false) users ->
  let R := DevFee.getRatio (devFeeManager s) in
  (receipts s = users ->
     (shouldMineDevFeeNow s = true <-> R - 1 <= Z.of_nat (List.length users)))
  /\ (isDevFee D = true -> receipts s = older ++ D :: users ->
      (shouldMineDevFeeNow s = true <-> R <= Z.of_nat (List.length users))).
Proof.
  intros Hen Hpool Hflag HR Husers R.
  assert (Hshould : shouldMineDevFeeNow s
            = negb (existsb isDevFee (getRecentReceipts R (receipts s)))
              && (R - 1 <=? Z.of_nat (List.length (getRecentReceipts R (receipts s))))).
  { unfold shouldMineDevFeeNow. by rewrite Hen, Hpool, Hflag. }
  rewrite Hshould. unfold getRecentReceipts. split.
  - intros ->. rewrite existsb_devFee_users by (by apply Forall_drop).
    cbn [negb andb]. rewrite Z.leb_le, length_drop. lia.
  - intros HD ->. rewrite length_app. cbn [List.length].
    set (k := List.length users). set (o := List.length older).
    destruct (Z_le_gt_dec R (Z.of_nat k)) as [Hle|Hgt].
    + rewrite drop_app_ge by (fold o; lia).
      replace (o + S k - Z.to_nat R - List.length older)%nat
        with (S (k - Z.to_nat R)) by (fold o; lia).
      cbn [drop]. rewrite existsb_devFee_users by (by apply Forall_drop).
      cbn [negb andb]. rewrite Z.leb_le, length_drop. fold k. lia.
    + rewrite drop_app_le by (fold o; lia).
      rewrite existsb_app. cbn [existsb]. rewrite HD, orb_true_r. cbn. split; [done|lia].
Qed.

Lemma shouldMineDevFeeNow_cadence_witness :
  let s := set_devFeeManager Scenario.stocked
             (set_receipts (Scenario.receiptDev :: repeat Scenario.receiptA 16)
                Scenario.initial) in
  shouldMineDevFeeNow s = false.
Proof.
  intros s.
  destruct (shouldMineDevFeeNow_cadence s [] (repeat Scenario.receiptA 16)
              Scenario.receiptDev eq_refl eq_refl eq_refl
              ltac:(by vm_compute)
              ltac:(apply Forall_forall; intros r Hr;
                    apply list_elem_of_In, repeat_spec in Hr; by subst r))
    as (_ & H).
  destruct (H eq_refl eq_refl) as [Hto _].
  destruct (shouldMineDevFeeNow s); [|done].
  exfalso. specialize (Hto eq_refl). vm_compute in Hto. by apply Hto.
Defined.

(** A prefetch that fails on an enabled rotator switches the dev fee off for
    the orchestrator: the pool is then empty, no dev-fee round falls due,
    no dev-fee address is offered to a batch, and [getDevFeeAddress] throws
    for every challenge. *)
Theorem failed_prefetch_stops_dev_fee (http : DevFee.HttpOutcome) (now : Z)
    (s : Orchestrator) :
  DevFee.isEnabled (devFeeManager s) = true ->
  (DevFee.prefetchAddressPool http now (devFeeManager s)).1 = false ->
  let s' := set_devFeeManager (DevFee.prefetchAddressPool http now (devFeeManager s)).2 s in
  DevFee.getAddressPool (devFeeManager s') = []
  /\ DevFee.hasValidAddressPool (devFeeManager s') = false
  /\ shouldMineDevFeeNow s' = false
  /\ (getDevFeeAddressForBatch s').1 = None
  /\ (forall ch, (DevFee.getDevFeeAddress ch (devFeeManager s')).1 = inr DevFee.NoValidPool).
Proof.
  intros Hen Hfail s'.
  assert (Hpool : DevFee.addressPool (DevFee.cache (devFeeManager s')) = Some []).
  { change (devFeeManager s')
      with (DevFee.prefetchAddressPool http now (devFeeManager s)).2.
    revert Hfail. unfold DevFee.prefetchAddressPool. rewrite Hen. cbn [negb].
    destruct http as [[l|]|msg]; [|done|done].
    destruct (Nat.eqb (List.length l) 10); [|done].
    by destruct (DevFee.firstInvalid 0 _). }
  assert (Hvalid : DevFee.hasValidAddressPool (devFeeManager s') = false)
    by (unfold DevFee.hasValidAddressPool; by rewrite Hpool).
  assert (Hget : forall ch, (DevFee.getDevFeeAddress ch (devFeeManager s')).1
                            = inr DevFee.NoValidPool)
    by (intros ch; unfold DevFee.getDevFeeAddress; by rewrite Hvalid).
  split; [unfold DevFee.getAddressPool; by rewrite Hpool|]. split; [exact Hvalid|].
  split; [unfold shouldMineDevFeeNow; by rewrite Hvalid, orb_true_r|].
  split; [|exact Hget].
  unfold getDevFeeAddressForBatch.
  destruct (currentChallengeId s') as [cid|]; [|done].
  destruct (currentChallenge s'); [|done].
  destruct (String.eqb cid ""); [done|].
  specialize (Hget cid).
  destruct (DevFee.getDevFeeAddress cid (devFeeManager s')) as [[a|e] dm]; [discriminate|done].
Qed.

Lemma failed_prefetch_stops_dev_fee_witness :
  shouldMineDevFeeNow
    (set_devFeeManager
       (DevFee.prefetchAddressPool (DevFee.HttpError "timeout of 10000ms exceeded") 0
          Scenario.stocked).2
       Scenario.initial)
  = false.
Proof.
  apply (failed_prefetch_stops_dev_fee (DevFee.HttpError "timeout of 10000ms exceeded") 0
           (set_devFeeManager Scenario.stocked Scenario.initial) eq_refl eq_refl).
Defined.

End CadenceFurther.

(** ** Properties of every operation *)

Section SubmitFootprint.
Import Mining.

Lemma submitSolution_unchanged {B : Type} (proj : Orchestrator -> B) (env : SubmitEnv)
    (addr : DerivedAddress) (challengeId nonce hash : string) (devFee : bool)
    (s : Orchestrator) :
  (forall v s', proj (set_effects v s') = proj s') ->
  (forall v s', proj (set_solutionsFound v s') = proj s') ->
  (forall v s', proj (set_devFeeManager v s') = proj s') ->
  (forall v s', proj (set_userSolutionsCount v s') = proj s') ->
  (forall v s', proj (set_solutionTimestamps v s') = proj s') ->
  (forall v s', proj (set_receipts v s') = proj s') ->
  (forall v s', proj (set_solvedAddressChallenges v s') = proj s') ->
  (forall v s', proj (set_errors v s') = proj s') ->
  (forall v s', proj (set_addresses v s') = proj s') ->
  (forall v s', proj (set_walletManager v s') = proj s') ->
  proj (submitSolution env addr challengeId nonce hash devFee s).2 = proj s.
Proof.
  intros He Hf Hd Hu Ht Hr Hs Her Ha Hw.
  assert (Haccept : forall r s0, proj (acceptSolution env addr challengeId nonce hash devFee r s0)
                                 = proj s0).
  { intros r s0. unfold acceptSolution, emit, perform.
    destruct devFee; by rewrite ?He, ?Hr, ?Ht, ?Hu, ?Hd, ?Hf. }
  assert (Herr : forall isRetry retry e s0,
            (forall s1, proj (retry s1).2 = proj s1) ->
            proj (handleSubmitError isRetry retry env addr challengeId nonce hash e s0).2
            = proj s0).
  { intros isRetry retry e s0 Hretry. unfold handleSubmitError, registerAddress, logError,
      emit, perform.
    destruct (isSolutionAlreadyExists e); [cbn [snd]; by rewrite ?Her, ?Hs|].
    destruct (_ && _).
    - destruct (walletManager s0).
      + destruct (registrationFailure env); cbn [snd]; [by rewrite ?He, ?Her|].
        match goal with |- context [retry ?x] =>
          pose proof (Hretry x) as Hx; destruct (retry x) as [[|m] s2] end;
          cbn [snd] in *; rewrite ?He, ?Her, Hx; by rewrite ?Ha, ?Hw, ?He.
      + cbn [snd]. by rewrite ?He, ?Her.
    - destruct (isTimeout e); cbn [snd]; by rewrite ?He, ?Her. }
  assert (Hattempt : forall isRetry retry raw s0,
            (forall s1, proj (retry s1).2 = proj s1) ->
            proj (submitAttempt isRetry retry raw env addr challengeId nonce hash devFee s0).2
            = proj s0).
  { intros isRetry retry raw s0 Hretry. unfold submitAttempt.
    destruct (walletManager s0); [|done].
    destruct (axiosPost _ raw) as [r|e].
    - destruct (_ && _); cbn [snd].
      + rewrite Haccept. unfold perform. by rewrite He.
      + rewrite Herr by exact Hretry. unfold perform. by rewrite He.
    - rewrite Herr by exact Hretry. unfold perform. by rewrite He. }
  unfold submitSolution. apply Hattempt. intros s1. apply Hattempt. done.
Qed.

End SubmitFootprint.

(** ** Which operation writes which field *)

(** [proj] stands for any reading of the state; each hypothesis [W_f] says
    that the reading does not depend on the field [f].  Every lemma of the
    section uses the hypotheses of the fields its operation may write, and
    no others: outside the section its premises are the operation's write
    set. *)
Section Footprint.
Import Mining.

Variable matchesDifficulty : string -> string -> bool.
Variable buildPreimage : string -> string -> Challenge -> string.

Context {B : Type} (proj : Orchestrator -> B).

Hypothesis W_isRunning : forall v s, proj (set_isRunning v s) = proj s.
Hypothesis W_currentChallengeId : forall v s, proj (set_currentChallengeId v s) = proj s.
Hypothesis W_pollTimer : forall v s, proj (set_pollTimer v s) = proj s.
Hypothesis W_walletManager : forall v s, proj (set_walletManager v s) = proj s.
Hypothesis W_isDevFeeMining : forall v s, proj (set_isDevFeeMining v s) = proj s.
Hypothesis W_addresses : forall v s, proj (set_addresses v s) = proj s.
Hypothesis W_solutionsFound : forall v s, proj (set_solutionsFound v s) = proj s.
Hypothesis W_startTime : forall v s, proj (set_startTime v s) = proj s.
Hypothesis W_isMining : forall v s, proj (set_isMining v s) = proj s.
Hypothesis W_currentChallenge : forall v s, proj (set_currentChallenge v s) = proj s.
Hypothesis W_totalHashesComputed : forall v s, proj (set_totalHashesComputed v s) = proj s.
Hypothesis W_lastHashRateUpdate : forall v s, proj (set_lastHashRateUpdate v s) = proj s.
Hypothesis W_addressesProcessedCurrentChallenge : forall v s, proj (set_addressesProcessedCurrentChallenge v s) = proj s.
Hypothesis W_solutionTimestamps : forall v s, proj (set_solutionTimestamps v s) = proj s.
Hypothesis W_workerThreads : forall v s, proj (set_workerThreads v s) = proj s.
Hypothesis W_submittedSolutions : forall v s, proj (set_submittedSolutions v s) = proj s.
Hypothesis W_solvedAddressChallenges : forall v s, proj (set_solvedAddressChallenges v s) = proj s.
Hypothesis W_userSolutionsCount : forall v s, proj (set_userSolutionsCount v s) = proj s.
Hypothesis W_submittingAddresses : forall v s, proj (set_submittingAddresses v s) = proj s.
Hypothesis W_pausedAddresses : forall v s, proj (set_pausedAddresses v s) = proj s.
Hypothesis W_workerStats : forall v s, proj (set_workerStats v s) = proj s.
Hypothesis W_hourlyRestartTimer : forall v s, proj (set_hourlyRestartTimer v s) = proj s.
Hypothesis W_watchdogTimer : forall v s, proj (set_watchdogTimer v s) = proj s.
Hypothesis W_stoppedWorkers : forall v s, proj (set_stoppedWorkers v s) = proj s.
Hypothesis W_addressSubmissionFailures : forall v s, proj (set_addressSubmissionFailures v s) = proj s.
Hypothesis W_customBatchSize : forall v s, proj (set_customBatchSize v s) = proj s.
Hypothesis W_workerGroupingMode : forall v s, proj (set_workerGroupingMode v s) = proj s.
Hypothesis W_workersPerAddress : forall v s, proj (set_workersPerAddress v s) = proj s.
Hypothesis W_devFeeManager : forall v s, proj (set_devFeeManager v s) = proj s.
Hypothesis W_receipts : forall v s, proj (set_receipts v s) = proj s.
Hypothesis W_errors : forall v s, proj (set_errors v s) = proj s.
Hypothesis W_effects : forall v s, proj (set_effects v s) = proj s.

Ltac written :=
  repeat first
    [ reflexivity
    | rewrite W_isRunning | rewrite W_currentChallengeId | rewrite W_pollTimer | rewrite W_walletManager | rewrite W_isDevFeeMining | rewrite W_addresses | rewrite W_solutionsFound | rewrite W_startTime | rewrite W_isMining | rewrite W_currentChallenge | rewrite W_totalHashesComputed | rewrite W_lastHashRateUpdate | rewrite W_addressesProcessedCurrentChallenge | rewrite W_solutionTimestamps | rewrite W_workerThreads | rewrite W_submittedSolutions | rewrite W_solvedAddressChallenges | rewrite W_userSolutionsCount | rewrite W_submittingAddresses | rewrite W_pausedAddresses | rewrite W_workerStats | rewrite W_hourlyRestartTimer | rewrite W_watchdogTimer | rewrite W_stoppedWorkers | rewrite W_addressSubmissionFailures | rewrite W_customBatchSize | rewrite W_workerGroupingMode | rewrite W_workersPerAddress | rewrite W_devFeeManager | rewrite W_receipts | rewrite W_errors | rewrite W_effects
    | progress cbv zeta
    | progress cbn [fst snd]
    | case_match ].

Lemma stop_writes s : proj (stop s) = proj s.
Proof. unfold stop, emit, perform, stopWatchdog. written. Qed.

Lemma updateConfiguration_writes u s : proj (updateConfiguration u s) = proj s.
Proof. unfold updateConfiguration. written. Qed.

Lemma loadChallengeState_writes id s : proj (loadChallengeState id s) = proj s.
Proof. unfold loadChallengeState, emit, perform. written. Qed.

Lemma loadSubmittedSolutions_writes s : proj (loadSubmittedSolutions s) = proj s.
Proof.
  apply loadSubmittedSolutions_unchanged; intros; written.
Qed.

Lemma registerAddress_writes addr failure s :
  proj (registerAddress addr failure s).2 = proj s.
Proof. unfold registerAddress, perform. written. Qed.

Lemma ensureAddressesRegistered_writes outcome s :
  proj (ensureAddressesRegistered outcome s) = proj s.
Proof. apply ensureAddressesRegistered_unchanged; intros; written. Qed.

Lemma start_writes password env s : proj (start password env s).2 = proj s.
Proof.
  unfold start. destruct (isRunning s); [done|].
  destruct (loadWallet env password) as [loaded|]; cbn [snd]; [|written].
  unfold emit, perform, startWatchdog, scheduleHourlyRestart.
  repeat first [ rewrite W_effects | rewrite W_watchdogTimer | rewrite W_hourlyRestartTimer
               | rewrite W_solutionsFound | rewrite W_startTime | rewrite W_isRunning ].
  match goal with
  | |- proj (if ?b then ?x else set_devFeeManager ?d ?x) = _ =>
      transitivity (proj x); [destruct b; [done|apply W_devFeeManager]|]
  end.
  rewrite ensureAddressesRegistered_writes, loadSubmittedSolutions_writes. written.
Qed.

Lemma reinitialize_writes password env s : proj (reinitialize password env s).2 = proj s.
Proof.
  unfold reinitialize. rewrite start_writes. written.
  unfold perform. rewrite W_effects. apply stop_writes.
Qed.

Lemma runWatchdogCheck_writes s : proj (runWatchdogCheck s) = proj s.
Proof. unfold runWatchdogCheck. written. Qed.

Lemma getDevFeeAddressForBatch_writes s : proj (getDevFeeAddressForBatch s).2 = proj s.
Proof. unfold getDevFeeAddressForBatch. written. Qed.

Lemma prepareBatch_writes W id addressesToMine pointer s :
  proj (prepareBatch W id addressesToMine pointer s).2 = proj s.
Proof.
  unfold prepareBatch. destruct (negb _); [done|].
  destruct (List.filter _ addressesToMine); [cbn [snd]; written|].
  cbv zeta.
  pose proof (getDevFeeAddressForBatch_writes s) as Hd.
  destruct (shouldMineDevFeeNow s).
  - destruct (getDevFeeAddressForBatch s) as [[a|] sd]; cbn [snd] in Hd;
      destruct (collectBatch _ _ _ _ _ _) as [batch checked];
      destruct (_ && _); cbn [snd]; rewrite ?W_isDevFeeMining; try exact Hd;
      destruct batch; cbn [snd]; rewrite ?W_stoppedWorkers, ?W_isDevFeeMining; exact Hd.
  - destruct (collectBatch _ _ _ _ _ _) as [batch checked];
      destruct (_ && _); cbn [snd]; [done|]. destruct batch; cbn [snd]; written.
Qed.

Lemma enterWorker_writes addr devFee workerId maxFailures romReady now s :
  proj (enterWorker addr devFee workerId maxFailures romReady now s).2 = proj s.
Proof. unfold enterWorker, emit, perform. written. Qed.

Lemma loopHead_writes w nonce s : proj (loopHead buildPreimage w nonce s).2 = proj s.
Proof. unfold loopHead, emit, perform. written. Qed.

Lemma claimSubmission_writes w hash s : proj (claimSubmission w hash s) = proj s.
Proof. unfold claimSubmission, stopSiblings, emit, perform. written. Qed.

Lemma releaseLocks_writes key s : proj (releaseLocks key s) = proj s.
Proof. unfold releaseLocks. written. Qed.

Lemma validateSolution_writes w hash sh s :
  proj (validateSolution matchesDifficulty w hash sh s).2 = proj s.
Proof. unfold validateSolution, checkDifficulty, releaseLocks. written. Qed.

Lemma submitSolution_writes env addr challengeId nonce hash devFee s :
  proj (submitSolution env addr challengeId nonce hash devFee s).2 = proj s.
Proof. apply submitSolution_unchanged; intros; written. Qed.

Lemma settleSubmission_writes w hash res s :
  proj (settleSubmission w hash res s).2 = proj s.
Proof. unfold settleSubmission. written. Qed.

Lemma onBatchError_writes unhandled msg s :
  proj (onBatchError unhandled msg s).2 = proj s.
Proof. unfold onBatchError, emit, perform. written. Qed.

Lemma reportProgress_writes w hashCount hashRate now s :
  proj (reportProgress w hashCount hashRate now s) = proj s.
Proof. unfold reportProgress, emit, perform. written. Qed.

Lemma finishWorker_writes w s : proj (finishWorker w s) = proj s.
Proof. unfold finishWorker. written. Qed.

Lemma startWorker_writes env addr devFee maxFailures s workerId :
  proj (startWorker buildPreimage env addr devFee maxFailures s workerId) = proj s.
Proof.
  unfold startWorker.
  pose proof (enterWorker_writes addr devFee workerId maxFailures (romReadyAtEntry env)
                (entryNow env workerId) s) as He.
  destruct (enterWorker _ _ _ _ _ _ s) as [[w|] s1]; cbn [snd] in He; [|exact He].
  pose proof (loopHead_writes w (nonceStart workerId) s1) as Hl.
  destruct (loopHead _ _ _ s1) as [h s2]; cbn [snd] in Hl.
  destruct h; rewrite ?finishWorker_writes; by rewrite Hl.
Qed.

Lemma launchGroups_writes env id groups s :
  proj (launchGroups buildPreimage env id groups s) = proj s.
Proof.
  unfold launchGroups. apply fold_left_unchanged. clear s. intros s g.
  unfold launchGroup. destruct (negb _); [done|]. destruct (g_address g); [|done].
  apply fold_left_unchanged. intros. apply startWorker_writes.
Qed.

Lemma beginDevFeeAddress_writes s : proj (beginDevFeeAddress s) = proj s.
Proof. unfold beginDevFeeAddress. written. Qed.

Lemma batchLoop_writes env W id addressesToMine pointer s :
  proj (batchLoop buildPreimage env W id addressesToMine pointer s).2 = proj s.
Proof.
  unfold batchLoop.
  assert (Hl : forall r : BatchStep * Orchestrator,
            proj r.2 = proj s ->
            proj (match r with
                  | (Launch groups checked, s1) =>
                      (AwaitsWorkers groups checked,
                       launchGroups buildPreimage env id groups s1)
                  | (Rewind, s1) => (NeverYields, s1)
                  | (_, s1) => (Finished, s1)
                  end).2 = proj s).
  { intros [[] s1] H; cbn [snd] in *; try exact H. by rewrite launchGroups_writes. }
  pose proof (prepareBatch_writes W id addressesToMine pointer s) as H1.
  destruct (prepareBatch W id addressesToMine pointer s) as [step s1]. cbn [snd] in H1.
  destruct step; try exact H1; destruct (shouldMineDevFeeNow s);
    try apply beginDevFeeAddress_writes.
  - apply Hl. by rewrite prepareBatch_writes.
  - apply (Hl (Launch groups checked, s1)). exact H1.
Qed.

Lemma startMining_writes env s : proj (startMining buildPreimage env s).2 = proj s.
Proof.
  unfold startMining.
  destruct (currentChallenge s); [|done].
  destruct (currentChallengeId s) as [id|]; [|done].
  destruct (_ || _); [done|]. cbv zeta.
  destruct (List.filter _ _); cbn [snd]; rewrite ?batchLoop_writes;
    unfold emit, perform; written.
Qed.

Lemma waitForRom_writes n s : proj (waitForRom n s) = proj s.
Proof. rewrite waitForRom_effects. apply W_effects. Qed.

Lemma hourlyRestart_writes env s : proj (hourlyRestart buildPreimage env s).2 = proj s.
Proof.
  unfold hourlyRestart, scheduleHourlyRestart.
  destruct (negb (isRunning s)); [done|]. cbv zeta.
  set (s8 := match currentChallenge _ with Some c => _ | None => _ end).
  assert (H8 : proj s8 = proj s).
  { subst s8. destruct (currentChallenge _); rewrite ?waitForRom_writes;
      unfold perform; written. }
  assert (H9 : proj (if isRunning s8 && bool_decide (is_Some (currentChallenge s8))
                        && truthy (currentChallengeId s8)
                     then handsBack (startMining buildPreimage (restartLaunch env) s8)
                     else (Ends Returned, s8)).2 = proj s).
  { destruct (_ && _ && _); [|exact H8].
    by rewrite handsBack_state, startMining_writes. }
  destruct (if _ && _ && _ then _ else _) as [res s9]. cbn [snd] in H9.
  destruct res; cbn [snd]; rewrite ?W_hourlyRestartTimer; exact H9.
Qed.

Lemma watchdogRestart_writes id env s :
  proj (watchdogRestart buildPreimage id env s).2 = proj s.
Proof.
  unfold watchdogRestart. destruct (_ && _); [|done].
  rewrite handsBack_state. apply startMining_writes.
Qed.

Lemma pollAndMine_writes env resp s : proj (pollAndMine buildPreimage env resp s).2 = proj s.
Proof.
  unfold pollAndMine.
  destruct (code resp); [done| |apply stop_writes].
  destruct (challenge resp) as [c|]; [|done].
  assert (Hclean : proj (if truthy (currentChallengeId s)
                            && bool_decide (is_Some (currentChallenge s))
                         then transitionCleanup s else s) = proj s).
  { destruct (_ && _); [|done]. unfold transitionCleanup, perform. written. }
  assert (Hresume : forall s0, proj (resumeWith buildPreimage (launch env) c s0).2 = proj s0).
  { intros s0. unfold resumeWith. rewrite handsBack_state, startMining_writes.
    unfold emit, perform.
    rewrite W_effects, loadChallengeState_writes. unfold adoptChallenge. written. }
  destruct (negb _); [|cbn [snd]; written].
  destruct (_ || _); [destruct (romReadyAfterInit env)|]; cbn [snd];
    rewrite ?Hresume, ?waitForRom_writes; unfold perform; rewrite ?W_effects; exact Hclean.
Qed.

Lemma pollLoop_writes env fetched s :
  proj (pollLoop buildPreimage env fetched s).2 = proj s.
Proof.
  unfold pollLoop. destruct (negb (isRunning s)); [done|].
  assert (H1 : proj (match fetched with
                     | inl resp => pollAndMine buildPreimage env resp s
                     | inr msg => (Ends (Threw msg), s)
                     end).2 = proj s)
    by (destruct fetched; [apply pollAndMine_writes|done]).
  destruct (match fetched with inl _ => _ | inr _ => _ end) as [res s1].
  cbn [snd] in H1.
  destruct res as [[|msg]|]; [| |exact H1]; cbn [snd].
  - by rewrite W_pollTimer.
  - destruct (unhandledError env); cbn [snd]; [exact H1|].
    unfold emit, perform. by rewrite W_pollTimer, W_effects.
Qed.

End Footprint.

Section WritersFurther.
Import Mining.

Variable matchesDifficulty : string -> string -> bool.
Variable buildPreimage : string -> string -> Challenge -> string.

Ltac by_footprint proj :=
  first
    [ apply (stop_writes proj) | apply (start_writes proj)
    | apply (reinitialize_writes proj) | apply (updateConfiguration_writes proj)
    | apply (hourlyRestart_writes buildPreimage proj)
    | apply (runWatchdogCheck_writes proj)
    | apply (watchdogRestart_writes buildPreimage proj)
    | apply (pollAndMine_writes buildPreimage proj)
    | apply (startMining_writes buildPreimage proj) | apply (prepareBatch_writes proj)
    | apply (loadSubmittedSolutions_writes proj) | apply (loadChallengeState_writes proj)
    | apply (ensureAddressesRegistered_writes proj) | apply (registerAddress_writes proj)
    | apply (enterWorker_writes proj) | apply (loopHead_writes buildPreimage proj)
    | apply (claimSubmission_writes proj) | apply (releaseLocks_writes proj)
    | apply (validateSolution_writes matchesDifficulty proj)
    | apply (submitSolution_writes proj) | apply (settleSubmission_writes proj)
    | apply (onBatchError_writes proj) | apply (reportProgress_writes proj)
    | apply (finishWorker_writes proj) ];
  intros; reflexivity.

(** The configuration belongs to [updateConfiguration]: no other operation
    changes the number of workers, the batch size, the grouping mode or the
    workers per address; and no operation at all, the update included,
    brings the workers per address below one once it is at least one. *)
Theorem configuration_written_only_by_update (o : Op) (s : Orchestrator) :
  let s' := run matchesDifficulty buildPreimage o s in
  ((forall u, o <> OpUpdateConfiguration u) ->
     workerThreads s' = workerThreads s
     /\ customBatchSize s' = customBatchSize s
     /\ workerGroupingMode s' = workerGroupingMode s
     /\ workersPerAddress s' = workersPerAddress s)
  /\ (1 <= workersPerAddress s -> 1 <= workersPerAddress s').
Proof.
  cbv zeta.
  assert (Hother : (forall u, o <> OpUpdateConfiguration u) ->
            workerThreads (run matchesDifficulty buildPreimage o s) = workerThreads s
            /\ customBatchSize (run matchesDifficulty buildPreimage o s) = customBatchSize s
            /\ workerGroupingMode (run matchesDifficulty buildPreimage o s)
               = workerGroupingMode s
            /\ workersPerAddress (run matchesDifficulty buildPreimage o s)
               = workersPerAddress s).
  { intros Hne. destruct o; cbn [run]; try (by destruct (Hne u));
      (split; [by_footprint workerThreads|]);
      (split; [by_footprint customBatchSize|]);
      (split; [by_footprint workerGroupingMode|by_footprint workersPerAddress]). }
  split; [exact Hother|]. intros Hpos.
  destruct o; try (destruct Hother as (_ & _ & _ & ->); [discriminate|exact Hpos]).
  cbn [run]. unfold updateConfiguration.
  destruct (u_workersPerAddress u) as [v|]; [cbn; lia|].
  destruct (u_workerGroupingMode u), (u_batchSize u), (u_workerThreads u); exact Hpos.
Qed.

(** The receipts belong to [submitSolution]: every other operation leaves
    the list of receipts as it is, and a submission either leaves it or
    appends exactly one receipt, made of the arguments of the call. *)
Theorem receipts_written_only_by_submitSolution (o : Op) (s : Orchestrator) :
  let s' := run matchesDifficulty buildPreimage o s in
  receipts s' = receipts s
  \/ exists env addr challengeId nonce hash devFee cr,
       o = OpSubmitSolution env addr challengeId nonce hash devFee
       /\ receipts s'
          = receipts s
            ++ [mkReceipt (submitTs env) (bech32 addr) (index addr) challengeId nonce hash
                  cr devFee].
Proof.
  cbv zeta. destruct o; cbn [run]; try (left; by_footprint receipts).
  destruct (submitSolution_cases env addr challengeId nonce hash devFee s)
    as (Hnone & Hret & Hthrew & _).
  destruct (walletManager s) as [wm|] eqn:Hwm.
  - destruct (submitSolution env addr challengeId nonce hash devFee s) as [[|msg] s'];
      cbn [fst snd] in *.
    + destruct (Hret ltac:(by eexists) eq_refl) as [((cr & Hcr) & _)|(Hsame & _)];
        [right|by left].
      by exists env, addr, challengeId, nonce, hash, devFee, cr.
    + left. by destruct (Hthrew msg eq_refl).
  - left. by rewrite (Hnone eq_refl).
Qed.

Lemma prepareBatch_stoppedWorkers W id addressesToMine pointer s :
  stoppedWorkers (prepareBatch W id addressesToMine pointer s).2 = stoppedWorkers s
  \/ stoppedWorkers (prepareBatch W id addressesToMine pointer s).2 = ∅.
Proof.
  unfold prepareBatch. destruct (negb _); [by left|].
  destruct (List.filter _ addressesToMine); [by left|]. cbv zeta.
  assert (Hd : stoppedWorkers (getDevFeeAddressForBatch s).2 = stoppedWorkers s)
    by (apply (getDevFeeAddressForBatch_writes stoppedWorkers); intros; reflexivity).
  destruct (shouldMineDevFeeNow s).
  - destruct (getDevFeeAddressForBatch s) as [[a|] sd]; cbn [snd] in Hd;
      destruct (collectBatch _ _ _ _ _ _) as [batch checked];
      destruct (_ && _); cbn [snd]; try (left; exact Hd);
      destruct batch; cbn [snd]; first [left; exact Hd|by right].
  - destruct (collectBatch _ _ _ _ _ _) as [batch checked];
      destruct (_ && _); cbn [snd]; [by left|]. destruct batch; [by left|by right].
Qed.

Lemma startMining_stoppedWorkers env s :
  stoppedWorkers (startMining buildPreimage env s).2 = stoppedWorkers s
  \/ stoppedWorkers (startMining buildPreimage env s).2 = ∅.
Proof.
  unfold startMining.
  destruct (currentChallenge s); [|by left].
  destruct (currentChallengeId s) as [id|]; [|by left].
  destruct (_ || _); [by left|]. cbv zeta.
  destruct (List.filter _ _) as [|a l]; [by left|].
  set (s2 := set_lastHashRateUpdate _ _).
  change (stoppedWorkers s) with (stoppedWorkers s2).
  generalize (a :: l) (workerThreads s2). intros toMine W. clearbody s2.
  unfold batchLoop.
  assert (Hl : forall r : BatchStep * Orchestrator,
            stoppedWorkers r.2 = stoppedWorkers s2 \/ stoppedWorkers r.2 = ∅ ->
            let r' := match r with
                      | (Launch groups checked, s1) =>
                          (AwaitsWorkers groups checked,
                           launchGroups buildPreimage env id groups s1)
                      | (Rewind, s1) => (NeverYields, s1)
                      | (_, s1) => (Finished, s1)
                      end in
            stoppedWorkers r'.2 = stoppedWorkers s2 \/ stoppedWorkers r'.2 = ∅).
  { intros [[] s1] H; cbn [snd] in *; try exact H.
    by rewrite (launchGroups_writes buildPreimage stoppedWorkers). }
  pose proof (prepareBatch_stoppedWorkers W id toMine 0 s2) as H1.
  destruct (prepareBatch W id toMine 0 s2) as [step s1]. cbn [snd] in H1.
  assert (Hd : stoppedWorkers (beginDevFeeAddress s2) = stoppedWorkers s2)
    by (apply (beginDevFeeAddress_writes stoppedWorkers); intros; reflexivity).
  destruct step; try exact H1; destruct (shouldMineDevFeeNow s2); try (left; exact Hd).
  - apply Hl. destruct (prepareBatch_stoppedWorkers W id toMine 0 s1) as [E|E];
      [rewrite E; exact H1|by right].
  - apply (Hl (Launch groups checked, s1)). exact H1.
Qed.

Lemma hourlyRestart_stoppedWorkers env s :
  stoppedWorkers (hourlyRestart buildPreimage env s).2 = stoppedWorkers s
  \/ stoppedWorkers (hourlyRestart buildPreimage env s).2 = ∅.
Proof.
  unfold hourlyRestart. destruct (negb (isRunning s)); [by left|]. cbv zeta.
  set (s8 := match currentChallenge _ with Some c => _ | None => _ end).
  assert (E8 : stoppedWorkers s8 = stoppedWorkers s).
  { subst s8. destruct (currentChallenge _); [|done].
    by rewrite (waitForRom_writes stoppedWorkers). }
  rewrite <- E8. clearbody s8.
  destruct (_ && _ && _); [|by left].
  pose proof (startMining_stoppedWorkers (restartLaunch env) s8) as H.
  rewrite <- (handsBack_state (startMining _ _ s8)) in H.
  by destruct (handsBack _) as [[|] s9].
Qed.

Lemma watchdogRestart_stoppedWorkers id env s :
  stoppedWorkers (watchdogRestart buildPreimage id env s).2 = stoppedWorkers s
  \/ stoppedWorkers (watchdogRestart buildPreimage id env s).2 = ∅.
Proof.
  unfold watchdogRestart. destruct (_ && _); [|by left].
  rewrite handsBack_state. apply startMining_stoppedWorkers.
Qed.

Lemma pollAndMine_stoppedWorkers env resp s :
  stoppedWorkers (pollAndMine buildPreimage env resp s).2 = stoppedWorkers s
  \/ stoppedWorkers (pollAndMine buildPreimage env resp s).2 = ∅.
Proof.
  unfold pollAndMine.
  destruct (code resp); [by left| |by left].
  destruct (challenge resp) as [c|]; [|by left].
  destruct (negb _); [|by left].
  set (s1 := if _ && _ then transitionCleanup s else s).
  assert (E1 : stoppedWorkers s1 = stoppedWorkers s) by (subst s1; by destruct (_ && _)).
  rewrite <- E1. clearbody s1.
  assert (Hr : forall s0, stoppedWorkers s0 = stoppedWorkers s1 ->
            stoppedWorkers (resumeWith buildPreimage (launch env) c s0).2
            = stoppedWorkers s1
            \/ stoppedWorkers (resumeWith buildPreimage (launch env) c s0).2 = ∅).
  { intros s0 E0. unfold resumeWith. rewrite handsBack_state.
    destruct (startMining_stoppedWorkers (launch env)
                (emit "status" (loadChallengeState (challenge_id c) (adoptChallenge c s0))))
      as [E|E]; [left; rewrite E; exact E0|by right]. }
  destruct (_ || _); [|by apply Hr]. cbv zeta.
  destruct (romReadyAfterInit env).
  - apply Hr. by rewrite (waitForRom_writes stoppedWorkers).
  - left. cbn [snd]. by rewrite (waitForRom_writes stoppedWorkers).
Qed.

(** Who may touch the flags the tasks coordinate by.  The failure counters
    change only when a submission is settled; the stop flags only with a
    claim, a settlement, or the launch of a batch, which empties them: in a
    pass of the batch loop or in a call of [startMining], made directly, by
    a poll, by the hourly restart or by the watchdog's restart; the running
    flag only in [start], [stop], [reinitialize] and a poll; the challenge
    id only in a poll and in [reinitialize]; the two lock sets only with a
    claim, a release, a validation, a settlement, a poll or the hourly
    restart. *)
Theorem coordination_writers (o : Op) (s : Orchestrator) :
  let s' := run matchesDifficulty buildPreimage o s in
  (addressSubmissionFailures s' <> addressSubmissionFailures s ->
     exists w hash res, o = OpSettleSubmission w hash res)
  /\ (stoppedWorkers s' <> stoppedWorkers s ->
      (exists w hash, o = OpClaimSubmission w hash)
      \/ (exists w hash res, o = OpSettleSubmission w hash res)
      \/ (stoppedWorkers s' = ∅
          /\ ((exists W id addressesToMine pointer,
                 o = OpPrepareBatch W id addressesToMine pointer)
              \/ (exists env, o = OpStartMining env)
              \/ (exists env resp, o = OpPollAndMine env resp)
              \/ (exists env, o = OpHourlyRestart env)
              \/ (exists id env, o = OpWatchdogRestart id env))))
  /\ (isRunning s' <> isRunning s ->
      (exists password env, o = OpStart password env) \/ o = OpStop
      \/ (exists password env, o = OpReinitialize password env)
      \/ (exists env resp, o = OpPollAndMine env resp))
  /\ (currentChallengeId s' <> currentChallengeId s ->
      (exists env resp, o = OpPollAndMine env resp)
      \/ (exists password env, o = OpReinitialize password env))
  /\ (submittingAddresses s' <> submittingAddresses s
      \/ pausedAddresses s' <> pausedAddresses s ->
      (exists w hash, o = OpClaimSubmission w hash)
      \/ (exists key, o = OpReleaseLocks key)
      \/ (exists w hash sh, o = OpValidateSolution w hash sh)
      \/ (exists w hash res, o = OpSettleSubmission w hash res)
      \/ (exists env resp, o = OpPollAndMine env resp)
      \/ (exists env, o = OpHourlyRestart env)).
Proof.
  cbv zeta. split; [|split; [|split; [|split]]].
  - intros Hne. destruct o; cbn [run] in Hne;
      first [ exfalso; apply Hne; by_footprint addressSubmissionFailures | eauto ].
  - intros Hne.
    assert (Hcase : forall s1 : Orchestrator,
              s1 = run matchesDifficulty buildPreimage o s ->
              stoppedWorkers s1 = stoppedWorkers s \/ stoppedWorkers s1 = ∅ ->
              stoppedWorkers s1 = ∅).
    { intros s1 -> [E|E]; [by destruct Hne|exact E]. }
    destruct o; cbn [run] in Hne;
      try (exfalso; apply Hne; by_footprint stoppedWorkers);
      try (left; by eauto); try (right; left; by eauto); right; right;
      (split; [|eauto 10]); (apply Hcase; [reflexivity|]); cbn [run].
    + apply hourlyRestart_stoppedWorkers.
    + apply watchdogRestart_stoppedWorkers.
    + apply pollAndMine_stoppedWorkers.
    + apply startMining_stoppedWorkers.
    + apply prepareBatch_stoppedWorkers.
  - intros Hne. destruct o; cbn [run] in Hne;
      first [ exfalso; apply Hne; by_footprint isRunning | eauto 10 ].
  - intros Hne. destruct o; cbn [run] in Hne;
      first [ exfalso; apply Hne; by_footprint currentChallengeId | eauto 10 ].
  - intros [Hne|Hne]; destruct o; cbn [run] in Hne;
      first [ exfalso; apply Hne; by_footprint submittingAddresses
            | exfalso; apply Hne; by_footprint pausedAddresses
            | eauto 12 ].
Qed.

End WritersFurther.

(** ** A call of [startMining], and the callers that do not await it *)

Section LaunchFurther.
Import Mining.

Lemma collectBatch_unsolved (s : Orchestrator) (currentId : string) (B : Z) :
  forall (rest batch : list DerivedAddress) (checked : Z),
    (forall a, a ∈ rest -> isSolved s (bech32 a) currentId = false) ->
    Z.of_nat (List.length batch) <= B ->
    collectBatch s currentId (Num B) rest batch checked
    = (batch ++ take (Z.to_nat (B - Z.of_nat (List.length batch))) rest,
       checked + Z.min (B - Z.of_nat (List.length batch)) (Z.of_nat (List.length rest))).
Proof.
  induction rest as [|addr rest IH]; intros batch checked Hall Hlen; cbn [collectBatch].
  - rewrite take_nil, app_nil_r. cbn [List.length]. f_equal. lia.
  - cbn [ltNum]. destruct (Z.of_nat (List.length batch) <? B) eqn:Hlt.
    + apply Z.ltb_lt in Hlt.
      rewrite (Hall addr) by (apply elem_of_cons; by left).
      rewrite IH; [|intros a Ha; apply Hall, elem_of_cons; by right
                   |rewrite length_app; cbn [List.length]; lia].
      rewrite length_app. cbn [List.length].
      replace (Z.to_nat (B - Z.of_nat (List.length batch)))
        with (S (Z.to_nat (B - Z.of_nat (List.length batch + 1)))) by lia.
      cbn [take]. rewrite <- app_assoc. cbn [app]. f_equal. lia.
    + apply Z.ltb_ge in Hlt.
      replace (Z.to_nat (B - Z.of_nat (List.length batch))) with 0%nat by lia.
      cbn [take]. rewrite app_nil_r. f_equal. lia.
Qed.

Lemma filter_unsolved_all (s : Orchestrator) (currentId : string)
    (l : list DerivedAddress) :
  (forall a, a ∈ l -> isSolved s (bech32 a) currentId = false) ->
  List.filter (fun a => negb (isSolved s (bech32 a) currentId)) l = l.
Proof.
  induction l as [|a l IH]; intros Hall; [done|]. cbn [List.filter].
  rewrite (Hall a) by (apply elem_of_cons; by left). cbn [negb]. f_equal.
  apply IH. intros b Hb. apply Hall, elem_of_cons. by right.
Qed.

(** A pass of the batch loop from the start of the list, when no dev-fee
    round is due and no address of the list is solved: with fewer addresses
    than the batch takes, the pass ends in [continue] and changes nothing;
    otherwise it launches the first [B] addresses. *)
Lemma prepareBatch_first (W : Z) (id : string) (toMine : list DerivedAddress)
    (s : Orchestrator) (c : Challenge) :
  isRunning s = true -> isMining s = true ->
  currentChallengeId s = Some id -> currentChallenge s = Some c ->
  shouldMineDevFeeNow s = false ->
  toMine <> [] ->
  (forall a, a ∈ toMine -> isSolved s (bech32 a) id = false) ->
  1 <= W ->
  (workerGroupingMode s = grouped -> 1 <= workersPerAddress s) ->
  let B := Z.max 1 (W / getMinWorkersPerAddress s W (difficulty c)) in
  prepareBatch W id toMine 0 s
  = if Z.of_nat (List.length toMine) <? B then (Rewind, s)
    else (Launch (calculateWorkerGroups s (take (Z.to_nat B) toMine) W (difficulty c)) B,
          set_stoppedWorkers ∅ s).
Proof.
  intros Hrun Hmine Hid Hc Hdue Hne Hall HW Hmode B.
  unfold prepareBatch. rewrite Hrun, Hmine, Hid, Hc, Hdue.
  rewrite bool_decide_eq_true_2 by done. cbn [andb negb].
  rewrite filter_unsolved_all by exact Hall.
  destruct toMine as [|a0 l0] eqn:Hl; [done|]. rewrite <- Hl in *. cbv zeta.
  pose proof (minWorkers_positive s W (difficulty c) HW Hmode) as Hm.
  assert (Hfd : floorDiv W (getMinWorkersPerAddress s W (difficulty c))
                = Num (W / getMinWorkersPerAddress s W (difficulty c))).
  { unfold floorDiv. destruct (_ =? 0) eqn:E; [apply Z.eqb_eq in E; lia|done]. }
  rewrite Hfd. cbn [atLeastOne]. fold B.
  rewrite collectBatch_unsolved; [|exact Hall|cbn [List.length]; lia].
  change (Z.to_nat 0) with 0%nat. rewrite drop_0. cbn [List.length app ltNum].
  rewrite Z.sub_0_r, !Z.add_0_l.
  assert (Hlen : 1 <= Z.of_nat (List.length toMine)) by (rewrite Hl; cbn [List.length]; lia).
  rewrite length_take.
  destruct (Z.of_nat (List.length toMine) <? B) eqn:Hlt.
  - apply Z.ltb_lt in Hlt.
    rewrite (proj2 (Z.ltb_lt _ _)) by lia.
    rewrite (proj2 (Z.leb_le _ _)) by lia. done.
  - apply Z.ltb_ge in Hlt.
    rewrite (proj2 (Z.ltb_ge _ _)) by lia. cbn [andb].
    destruct (take (Z.to_nat B) toMine) eqn:Ht.
    { apply (f_equal List.length) in Ht. rewrite length_take in Ht. cbn in Ht. lia. }
    rewrite <- Ht. f_equal. f_equal. lia.
Qed.

Variable matchesDifficulty : string -> string -> bool.
Variable buildPreimage : string -> string -> Challenge -> string.

Lemma prepareBatch_not_due (W : Z) (id : string) (l : list DerivedAddress) (p : Z)
    (s : Orchestrator) :
  shouldMineDevFeeNow s = false ->
  let r := prepareBatch W id l p s in
  r = (LoopExit, s) \/ r = (AllSolved, set_isMining false s) \/ r = (Rewind, s)
  \/ exists groups checked, r = (Launch groups checked, set_stoppedWorkers ∅ s).
Proof.
  intros Hdue. unfold prepareBatch. rewrite Hdue. destruct (negb _); [by left|].
  destruct (List.filter _ l); [right; by left|]. cbv zeta.
  destruct (collectBatch _ _ _ _ _ _) as [batch checked].
  destruct (_ && _); [right; right; by left|].
  destruct batch; [right; right; by left|]. right; right; right. by eexists _, _.
Qed.

(** A pass from the start of the list that ends in [continue] and has
    changed nothing is followed by the same pass again, without end. *)
Lemma prepareBatch_rewind (W : Z) (id : string) (l : list DerivedAddress)
    (s : Orchestrator) :
  prepareBatch W id l 0 s = (Rewind, s) ->
  forall n : nat,
    Nat.iter n (fun r : BatchStep * Orchestrator => prepareBatch W id l 0 r.2) (Rewind, s)
    = (Rewind, s).
Proof.
  intros H n. induction n as [|n IH]; [done|]. by rewrite Nat.iter_succ, IH.
Qed.

(** The batch loop entered by [startMining]: how far it gets. *)
Lemma batchLoop_cases (env : LaunchEnv) (W : Z) (id : string) (l : list DerivedAddress)
    (s : Orchestrator) :
  isMining s = true -> currentChallengeId s = Some id ->
  List.filter (fun a => negb (isSolved s (bech32 a) id)) l <> [] ->
  let r := batchLoop buildPreimage env W id l 0 s in
  (isRunning s = false /\ r = (Finished, s))
  \/ (isRunning s = true /\ shouldMineDevFeeNow s = true
      /\ r = (AwaitsDevFee, beginDevFeeAddress s))
  \/ (isRunning s = true /\ shouldMineDevFeeNow s = false
      /\ ((prepareBatch W id l 0 s = (Rewind, s) /\ r = (NeverYields, s))
          \/ exists groups checked,
               prepareBatch W id l 0 s
               = (Launch groups checked, set_stoppedWorkers ∅ s)
               /\ r = (AwaitsWorkers groups checked,
                       launchGroups buildPreimage env id groups
                         (set_stoppedWorkers ∅ s)))).
Proof.
  intros Hmine Hid Hne r. subst r. unfold batchLoop.
  destruct (isRunning s) eqn:Hrun.
  - right.
    assert (Hgo : match (prepareBatch W id l 0 s).1 with
                  | LoopExit | AllSolved => False
                  | _ => True
                  end).
    { unfold prepareBatch. rewrite Hrun, Hmine, Hid, bool_decide_eq_true_2 by done.
      cbn [andb negb]. destruct (List.filter _ l); [done|]. cbv zeta.
      destruct (if shouldMineDevFeeNow s then _ else _) as [b0 s1].
      destruct (collectBatch _ _ _ _ _ _) as [batch checked].
      destruct (_ && _); [done|]. by destruct batch. }
    destruct (shouldMineDevFeeNow s) eqn:Hdue.
    + left. split; [done|]. split; [done|].
      by destruct (prepareBatch W id l 0 s) as [[] s1].
    + right. split; [done|]. split; [done|].
      destruct (prepareBatch_not_due W id l 0 s Hdue) as [E|[E|[E|(g & ch & E)]]];
        rewrite E in Hgo |- *; cbn in Hgo; try done.
      * left. split; [done|]. by rewrite E.
      * right. by exists g, ch.
  - left. split; [done|]. unfold prepareBatch. by rewrite Hrun.
Qed.

Lemma startMining_prologue (env : LaunchEnv) (s : Orchestrator) (c : Challenge)
    (id : string) :
  currentChallenge s = Some c ->
  currentChallengeId s = Some id ->
  id <> ""%string ->
  isMining s = false ->
  let s0 := set_lastHashRateUpdate (launchNow env)
              (set_totalHashesComputed 0 (emit "status" (set_isMining true s))) in
  let toMine := List.filter (fun a => registered a && negb (isSolved s (bech32 a) id))
                  (addresses s) in
  startMining buildPreimage env s
  = match toMine with
    | [] => (Finished, set_isMining false s0)
    | _ => batchLoop buildPreimage env (workerThreads s) id toMine 0 s0
    end.
Proof.
  intros Hc Hid Hne Hm s0 toMine. unfold startMining. rewrite Hc, Hid, Hm.
  apply String.eqb_neq in Hne. rewrite Hne. cbn [orb]. cbv zeta. fold s0.
  change (addresses s0) with (addresses s).
  assert (E : List.filter (fun a => negb (isSolved s0 (bech32 a) id))
                (List.filter registered (addresses s)) = toMine).
  { subst toMine. clear. induction (addresses s) as [|a l IH]; [done|]. cbn [List.filter].
    destruct (registered a); cbn [andb List.filter]; [|exact IH].
    change (isSolved s0 (bech32 a) id) with (isSolved s (bech32 a) id).
    destruct (negb _); by rewrite IH. }
  rewrite E. by destruct toMine.
Qed.

Ltac launch_keeps proj :=
  rewrite ?(launchGroups_writes buildPreimage proj) by (intros; reflexivity);
  rewrite ?(beginDevFeeAddress_writes proj) by (intros; reflexivity).

(** How far [startMining] gets, and in which state, when it passes its
    first check. *)
Lemma startMining_cases (env : LaunchEnv) (s : Orchestrator) (c : Challenge)
    (id : string) :
  currentChallenge s = Some c ->
  currentChallengeId s = Some id ->
  id <> ""%string ->
  isMining s = false ->
  let r := startMining buildPreimage env s in
  let s0 := set_lastHashRateUpdate (launchNow env)
              (set_totalHashesComputed 0 (emit "status" (set_isMining true s))) in
  let toMine := List.filter (fun a => registered a && negb (isSolved s (bech32 a) id))
                  (addresses s) in
  (toMine = [] /\ r = (Finished, set_isMining false s0))
  \/ (toMine <> []
      /\ ((isRunning s = false /\ r = (Finished, s0))
          \/ (isRunning s = true /\ shouldMineDevFeeNow s = true
              /\ r = (AwaitsDevFee, beginDevFeeAddress s0))
          \/ (isRunning s = true /\ shouldMineDevFeeNow s = false
              /\ ((prepareBatch (workerThreads s) id toMine 0 s0 = (Rewind, s0)
                   /\ r = (NeverYields, s0))
                  \/ exists groups checked,
                       prepareBatch (workerThreads s) id toMine 0 s0
                       = (Launch groups checked, set_stoppedWorkers ∅ s0)
                       /\ r = (AwaitsWorkers groups checked,
                               launchGroups buildPreimage env id groups
                                 (set_stoppedWorkers ∅ s0)))))).
Proof.
  intros Hc Hid Hne Hm r s0 toMine. subst r.
  rewrite (startMining_prologue env s c id Hc Hid Hne Hm). fold s0 toMine.
  destruct toMine as [|a0 l0] eqn:Hl; [by left|]. rewrite <- Hl. right.
  split; [by rewrite Hl|].
  assert (Hall : forall a, a ∈ toMine -> isSolved s0 (bech32 a) id = false).
  { intros a Ha. apply list_elem_of_In in Ha. subst toMine.
    apply filter_In in Ha as [_ Ha]. apply andb_true_iff in Ha as [_ Ha].
    by apply negb_true_iff in Ha. }
  apply (batchLoop_cases env (workerThreads s) id toMine s0); [done|exact Hid|].
  rewrite filter_unsolved_all by exact Hall. by rewrite Hl.
Qed.

(** [startMining()] from its call to its first [await], with a challenge
    held under a non-empty id.  While mining is on it does nothing.
    Otherwise it raises the mining flag, announces itself and resets the
    hash counter and the rate clock; then, with no registered address left
    to mine, it takes the flag down again and ends; when the orchestrator
    is not running it ends with the flag up; when a dev-fee round is due it
    waits for the dev-fee address; and otherwise, with [W] workers in
    batches of [B] addresses, it empties [stoppedWorkers], launches the
    workers of the first [B] addresses to mine, each as far as its own
    first [await], and waits for them, provided there are [B] addresses to
    mine: with fewer, every pass of the batch loop ends in [continue] and
    the call never gives control back.  Mining is on afterwards exactly
    when some registered address has no solution; the running flag and the
    challenge are not touched. *)
Theorem startMining_outcome (env : LaunchEnv) (s : Orchestrator) (c : Challenge)
    (id : string) :
  currentChallenge s = Some c ->
  currentChallengeId s = Some id ->
  id <> ""%string ->
  let r := startMining buildPreimage env s in
  if isMining s then r = (Finished, s)
  else
    let s0 := set_lastHashRateUpdate (launchNow env)
                (set_totalHashesComputed 0 (emit "status" (set_isMining true s))) in
    let toMine := List.filter (fun a => registered a && negb (isSolved s (bech32 a) id))
                    (addresses s) in
    let W := workerThreads s in
    let B := Z.max 1 (W / getMinWorkersPerAddress s W (difficulty c)) in
    (isMining r.2 = true <-> toMine <> [])
    /\ totalHashesComputed r.2 = 0
    /\ lastHashRateUpdate r.2 = launchNow env
    /\ isRunning r.2 = isRunning s
    /\ currentChallenge r.2 = Some c
    /\ currentChallengeId r.2 = Some id
    /\ (toMine = [] -> r = (Finished, set_isMining false s0))
    /\ (toMine <> [] -> isRunning s = false -> r = (Finished, s0))
    /\ (toMine <> [] -> isRunning s = true -> shouldMineDevFeeNow s = true ->
        r = (AwaitsDevFee, beginDevFeeAddress s0))
    /\ (toMine <> [] -> isRunning s = true -> shouldMineDevFeeNow s = false ->
        1 <= W -> (workerGroupingMode s = grouped -> 1 <= workersPerAddress s) ->
        if Z.of_nat (List.length toMine) <? B
        then r = (NeverYields, s0)
             /\ prepareBatch W id toMine 0 s0 = (Rewind, s0)
        else
          let groups :=
            calculateWorkerGroups s (take (Z.to_nat B) toMine) W (difficulty c) in
          r = (AwaitsWorkers groups B,
               launchGroups buildPreimage env id groups (set_stoppedWorkers ∅ s0))).
Proof.
  intros Hc Hid Hne r. destruct (isMining s) eqn:Hm.
  { subst r. unfold startMining. by rewrite Hc, Hid, Hm. }
  intros s0 toMine W B.
  pose proof (startMining_cases env s c id Hc Hid Hne Hm) as Hcases.
  cbv zeta in Hcases. fold r s0 toMine W in Hcases.
  assert (Hall : forall a, a ∈ toMine -> isSolved s0 (bech32 a) id = false).
  { intros a Ha. apply list_elem_of_In in Ha. subst toMine.
    apply filter_In in Ha as [_ Ha]. apply andb_true_iff in Ha as [_ Ha].
    by apply negb_true_iff in Ha. }
  assert (Hfirst : toMine <> [] -> isRunning s = true -> shouldMineDevFeeNow s = false ->
            1 <= W -> (workerGroupingMode s = grouped -> 1 <= workersPerAddress s) ->
            prepareBatch W id toMine 0 s0
            = if Z.of_nat (List.length toMine) <? B then (Rewind, s0)
              else (Launch (calculateWorkerGroups s (take (Z.to_nat B) toMine) W
                              (difficulty c)) B,
                    set_stoppedWorkers ∅ s0)).
  { intros Hn Hrun Hdue HW Hmode.
    exact (prepareBatch_first W id toMine s0 c Hrun eq_refl Hid Hc Hdue Hn Hall HW Hmode). }
  destruct Hcases as [(Hnil & Hr)|(Hn & [(Hrun & Hr)|[(Hrun & Hdue & Hr)|(Hrun & Hdue & Hr)]])].
  - rewrite Hr, Hnil. cbn [snd]. repeat split; try done; try congruence.
  - rewrite Hr. cbn [snd]. repeat split; try done; congruence.
  - rewrite Hr. cbn [snd].
    split; [launch_keeps isMining; done|].
    split; [launch_keeps totalHashesComputed; done|].
    split; [launch_keeps lastHashRateUpdate; done|].
    split; [launch_keeps isRunning; done|].
    split; [launch_keeps currentChallenge; done|].
    split; [launch_keeps currentChallengeId; done|].
    repeat split; try done; congruence.
  - assert (Hr2 : isMining r.2 = true /\ totalHashesComputed r.2 = 0
              /\ lastHashRateUpdate r.2 = launchNow env /\ isRunning r.2 = isRunning s
              /\ currentChallenge r.2 = Some c /\ currentChallengeId r.2 = Some id).
    { destruct Hr as [(_ & ->)|(g & ch & _ & ->)]; cbn [snd]; [done|].
      launch_keeps isMining. launch_keeps totalHashesComputed.
      launch_keeps lastHashRateUpdate. launch_keeps isRunning.
      launch_keeps currentChallenge. launch_keeps currentChallengeId. done. }
    destruct Hr2 as (H1 & H2 & H3 & H4 & H5 & H6).
    split; [done|]. do 5 (split; [done|]).
    split; [done|]. split; [congruence|]. split; [congruence|].
    intros _ _ _ HW Hmode. specialize (Hfirst Hn Hrun Hdue HW Hmode).
    destruct (Z.of_nat (List.length toMine) <? B).
    + destruct Hr as [(_ & Hr)|(g & ch & Hp & _)]; [done|congruence].
    + destruct Hr as [(Hp & _)|(g & ch & Hp & Hr)]; [congruence|].
      rewrite Hfirst in Hp. injection Hp as <- <-. exact Hr.
Qed.




End LaunchFurther.

(** ** Further runs on concrete inputs *)

Section FurtherRuns.
Import Mining Scenario.


Lemma startMining_outcome_witness :
  let r := startMining buildPreimage (launchAt 900000)
             (set_isMining false (miningOn challenge1)) in
  r.1 = AwaitsWorkers [mkGroup (Some addrA) [0; 1]] 1
  /\ isMining r.2 = true
  /\ dom (workerStats r.2) = {[0; 1]}.
Proof.
  intros r.
  pose proof (startMining_outcome buildPreimage (launchAt 900000)
                (set_isMining false (miningOn challenge1))
                challenge1 "**D07C10" eq_refl eq_refl ltac:(discriminate)) as H.
  cbv zeta in H. change (isMining (set_isMining false _)) with false in H.
  cbv iota in H. fold r in H.
  destruct H as (Hm & _ & _ & _ & _ & _ & _ & _ & _ & Hl).
  assert (Hne : List.filter
                  (fun a => registered a
                            && negb (isSolved (set_isMining false (miningOn challenge1))
                                       (bech32 a) "**D07C10"))
                  (addresses (set_isMining false (miningOn challenge1))) <> [])
    by (vm_compute; discriminate).
  specialize (Hl Hne eq_refl eq_refl ltac:(by vm_compute)
                ltac:(intros Hg; vm_compute in Hg; discriminate)).
  split; [rewrite Hl; reflexivity|]. split; [apply Hm; exact Hne|].
  rewrite Hl. vm_compute. reflexivity.
Defined.


Lemma pollLoop_period_over_witness :
  let r := pollLoop buildPreimage (pollAt 700000) (inl (mkResponse after None ""))
             (miningOn challenge1) in
  isRunning r.2 = false /\ pollTimer r.2 = Some 2000.
Proof.
  destruct (pollLoop_period_over buildPreimage (pollAt 700000) (mkResponse after None "")
              (miningOn challenge1) eq_refl eq_refl)
    as (_ & H1 & _ & _ & _ & H5 & _).
  split; [exact H1|exact H5].
Defined.

Lemma runWatchdogCheck_trips_witness :
  isMining (runWatchdogCheck (finishWorker worker1 twoWorkers)) = false.
Proof.
  destruct (runWatchdogCheck_trips buildPreimage (finishWorker worker1 twoWorkers)
              "**D07C10" eq_refl eq_refl eq_refl ltac:(discriminate)) as (H & _).
  apply H. exists 1. eexists. split; [vm_compute; reflexivity|]. by left.
Defined.

Lemma loopHead_batch_guards_witness :
  exists items nextNonce,
    loopHead buildPreimage worker1 (nonceStart 1) twoWorkers
    = (Batch items nextNonce, twoWorkers)
    /\ map b_nonce items = ["000000003b9aca00"%string]
    /\ nextNonce = 1000000001.
Proof.
  assert (E : exists items nextNonce,
            loopHead buildPreimage worker1 (nonceStart 1) twoWorkers
            = (Batch items nextNonce, twoWorkers)) by (vm_compute; eauto).
  destruct E as (items & nextNonce & E). exists items, nextNonce.
  split; [exact E|].
  destruct (loopHead_batch_guards buildPreimage worker1 (nonceStart 1) twoWorkers
              twoWorkers items nextNonce ltac:(by vm_compute) ltac:(by vm_compute) E)
    as (_ & _ & _ & _ & _ & _ & _ & _ & _ & _ & Hitems & _ & Hnext & _).
  rewrite Hnext, Hitems. split; reflexivity.
Defined.

Lemma onSolutionFound_locks_witness :
  let r := onSolutionFound matchesDifficulty worker0 (item 0) "0040" rehashRefused
             movedUnderWorkers in
  r.1 = Raise "Request failed with status code 408"
  /\ submissionKey worker0 ∈ pausedAddresses r.2
  /\ forall nonce items nextNonce s1,
       loopHead buildPreimage worker1 nonce r.2 <> (Batch items nextNonce, s1).
Proof.
  intros r.
  assert (E : r.1 = Raise "Request failed with status code 408")
    by (vm_compute; reflexivity).
  destruct (onSolutionFound_locks matchesDifficulty buildPreimage worker0 (item 0) "0040"
              rehashRefused movedUnderWorkers
              ltac:(apply (bool_decide_unpack _); vm_compute; exact I)
              ltac:(apply (bool_decide_unpack _); vm_compute; exact I)) as (_ & H).
  fold r in H. rewrite E in H. destruct H as (_ & _ & Hp & _ & Hno).
  split; [exact E|]. split; [exact Hp|].
  intros nonce items nextNonce s1. by apply Hno.
Defined.

Lemma prepareBatch_launch_witness :
  exists groups checked s',
    prepareBatch 2 "**D07C10" [addrA] 0 (miningOn challenge1) = (Launch groups checked, s')
    /\ map g_address groups = [Some addrA]
    /\ concat (map workerIds groups) = [0; 1].
Proof.
  assert (E : exists groups checked s',
            prepareBatch 2 "**D07C10" [addrA] 0 (miningOn challenge1)
            = (Launch groups checked, s')) by (vm_compute; eauto).
  destruct E as (groups & checked & s' & E). exists groups, checked, s'.
  split; [exact E|].
  destruct (prepareBatch_launch 2 "**D07C10" [addrA] 0 (miningOn challenge1) s' groups
              checked E ltac:(lia) ltac:(discriminate))
    as (_ & _ & _ & _ & Hcat & batch & Hne & Hmap & Hb).
  split; [|exact Hcat].
  rewrite Hmap. destruct batch as [|a [|a' rest]]; [done| |].
  - destruct (Hb a ltac:(apply elem_of_cons; by left)) as (_ & [Ha|(Hi & Hd & _)]).
    + apply elem_of_cons in Ha as [->|Ha]; [done|by apply elem_of_nil in Ha].
    + discriminate Hd.
  - exfalso. apply (f_equal (@List.length _)) in Hmap.
    rewrite !length_map in Hmap.
    assert (Hg : List.length groups = 1%nat).
    { revert E. vm_compute. intros E. injection E as <- _ _. reflexivity. }
    rewrite Hg in Hmap. discriminate.
Defined.

End FurtherRuns.
